(** * pi-web-browse: a shallow embedding of the session-orchestration layer

    The development follows the JavaScript sources of the repository:

    - [lib/bot-protection.js]  marker classifier and the retrying page read;
    - [lib/extract.js]         the truncation policy of [parseHtmlToContent];
    - [lib/search.js]          the Google -> DuckDuckGo -> DuckDuckGo-lite chain;
    - [lib/http-fetch.js] and the browser fetch module  the two fetch operations;
    - [lib/cdp.js]             the port negotiation;
    - [lib/daemon.js]          the command handler and its promise-chained queue.

    JavaScript strings are sequences of code units; they are modelled as
    [list ascii] (one [ascii] per code unit, so the model covers code units
    0..255).  Exceptions are modelled by the [completion] type, asynchronous
    functions by their results, and every call into the browser, the network
    or a third-party library by an explicit oracle that the function receives.
    The result counts of the search functions are JavaScript numbers: finite
    values (rationals), [NaN] or an infinity. *)

From Stdlib Require Import Ascii String List ZArith Lia Bool Arith PeanoNat DecimalString.
From Stdlib Require Import QArith Qround Qminmax Lqa.
Import ListNotations.
Close Scope Q_scope.

Set Implicit Arguments.
Set Warnings "-register-all".

(** ** JavaScript strings *)

Module JsString.

Definition jsstring := list ascii.

(** A string literal of the source. *)
Definition js (s : string) : jsstring := list_ascii_of_string s.
Arguments js s : simpl never.

Definition LF : ascii := ascii_of_nat 10.

Definition ascii_eqb (a b : ascii) : bool := Ascii.eqb a b.

Fixpoint str_eqb (a b : jsstring) : bool :=
  match a, b with
  | [], [] => true
  | x :: a', y :: b' => ascii_eqb x y && str_eqb a' b'
  | _, _ => false
  end.

(** [s.startsWith(p)] *)
Fixpoint startsWith (s p : jsstring) : bool :=
  match p, s with
  | [], _ => true
  | _ :: _, [] => false
  | x :: p', y :: s' => ascii_eqb x y && startsWith s' p'
  end.

(** [s.includes(m)] *)
Fixpoint includes (s m : jsstring) : bool :=
  startsWith s m ||
  match s with
  | [] => false
  | _ :: s' => includes s' m
  end.

(** [s.slice(0, n)] for a non-negative integer [n]. *)
Definition slice0 (n : nat) (s : jsstring) : jsstring := firstn n s.

(** [c.toLowerCase()] on one code unit: the ASCII letters are mapped, every
    other code unit of the model is left as it is. *)
Definition lower_ascii (c : ascii) : ascii :=
  let n := nat_of_ascii c in
  if (65 <=? n) && (n <=? 90) then ascii_of_nat (n + 32) else c.

Definition toLowerCase (s : jsstring) : jsstring := map lower_ascii s.

(** White space removed by [trim]: TAB, LF, VT, FF, CR, SP and NBSP. *)
Definition is_space (c : ascii) : bool :=
  let n := nat_of_ascii c in
  ((9 <=? n) && (n <=? 13)) || (n =? 32) || (n =? 160).

Fixpoint trimStart (s : jsstring) : jsstring :=
  match s with
  | [] => []
  | c :: s' => if is_space c then trimStart s' else s
  end.

Definition trimEnd (s : jsstring) : jsstring := rev (trimStart (rev s)).

Definition trim (s : jsstring) : jsstring := trimEnd (trimStart s).

(** [s.lastIndexOf(m, from)]: the largest [k <= min from (length s)] at which
    [m] occurs in [s], or [-1]. *)
Fixpoint lastIndexFrom (s m : jsstring) (k : nat) : Z :=
  if startsWith (skipn k s) m then Z.of_nat k
  else match k with
       | 0 => (-1)%Z
       | S k' => lastIndexFrom s m k'
       end.

Definition lastIndexOf (s m : jsstring) (from : nat) : Z :=
  lastIndexFrom s m (Nat.min from (length s)).

(** JavaScript truthiness of a string. *)
Definition truthy (s : jsstring) : bool :=
  match s with [] => false | _ :: _ => true end.

(** [a || b] on strings. *)
Definition orElse (a b : jsstring) : jsstring := if truthy a then a else b.

(** [m] occurs in [s]: the specification of [includes]. *)
Definition Substring (m s : jsstring) : Prop :=
  exists pre post, s = pre ++ m ++ post.

(** [m] occurs in [s] at offset [k]. *)
Definition OccursAt (m s : jsstring) (k : nat) : Prop :=
  exists post, skipn k s = m ++ post /\ k <= length s.

End JsString.
Import JsString.

(** ** Thrown values and completions *)

(** What a [catch] clause can receive: an [Error] object (with its [name],
    [message] and the [message] of its [cause], if any), or any other value,
    of which the code only ever uses [String(value)]. *)
Inductive thrown : Type :=
| ErrorObject (name message : jsstring) (causeMessage : option jsstring)
| ThrownValue (asString : jsstring).

(** [new Error(message)] *)
Definition newError (message : jsstring) : thrown :=
  ErrorObject (js "Error") message None.

(** [String(err)]; for an [Error] this is [Error.prototype.toString]. *)
Definition stringOf (e : thrown) : jsstring :=
  match e with
  | ErrorObject name message _ =>
      if negb (truthy name) then message
      else if negb (truthy message) then name
      else name ++ js ": " ++ message
  | ThrownValue s => s
  end.

(** [err instanceof Error ? err.message : String(err)] *)
Definition messageOf (e : thrown) : jsstring :=
  match e with
  | ErrorObject _ message _ => message
  | ThrownValue s => s
  end.

(** A value or a thrown error. *)
Inductive completion (A : Type) : Type :=
| Ok (a : A)
| Throw (e : thrown).
Arguments Ok {A} a.
Arguments Throw {A} e.

Definition bind {A B} (c : completion A) (k : A -> completion B) : completion B :=
  match c with
  | Ok a => k a
  | Throw e => Throw e
  end.

Notation "x <- c ;; k" := (bind c (fun x => k))
  (at level 61, c at next level, right associativity).

(** [try { c } catch (e) { h e }] *)
Definition tryCatch {A} (c : completion A) (h : thrown -> completion A) : completion A :=
  match c with
  | Ok a => Ok a
  | Throw e => h e
  end.

Definition isOk {A} (c : completion A) : bool :=
  match c with Ok _ => true | Throw _ => false end.

(** ** Effects: a completion together with the events the call produced *)

Section Effects.
Variable E : Type.

Definition Eff (A : Type) : Type := (completion A * list E)%type.

Definition ret {A} (a : A) : Eff A := (Ok a, []).

Definition throwE {A} (e : thrown) : Eff A := (Throw e, []).

Definition lift {A} (c : completion A) : Eff A := (c, []).

Definition emit (ev : E) : Eff unit := (Ok tt, [ev]).

Definition bindE {A B} (m : Eff A) (k : A -> Eff B) : Eff B :=
  match m with
  | (Ok a, evs) => let '(r, evs') := k a in (r, evs ++ evs')
  | (Throw e, evs) => (Throw e, evs)
  end.

(** [try { m } catch (e) { h e }] *)
Definition tryE {A} (m : Eff A) (h : thrown -> Eff A) : Eff A :=
  match m with
  | (Ok a, evs) => (Ok a, evs)
  | (Throw e, evs) => let '(r, evs') := h e in (r, evs ++ evs')
  end.
End Effects.

Arguments ret {E A} a.
Arguments throwE {E A} e.
Arguments lift {E A} c.
Arguments emit {E} ev.
Arguments bindE {E A B} m k.
Arguments tryE {E A} m h.

Notation "x <~ c ;; k" := (bindE c (fun x => k))
  (at level 61, c at next level, right associativity).

(** [String(n)] for an integer. *)
Definition numberToString (n : Z) : jsstring :=
  js (NilZero.string_of_int (Z.to_int n)).

(** ** JavaScript numbers *)

Module JsNumber.

(** A number of the source: a finite value, [NaN], or an infinity.  The
    finite values are the rationals, which hold every finite double; the code
    modelled here compares, clamps and truncates numbers and does no
    arithmetic on them. *)
Inductive number : Type :=
| Finite (q : Q)
| NaN
| Infinity (negative : bool).

(** An integer as a number. *)
Definition ofZ (n : Z) : number := Finite (inject_Z n).

(** [a >= b] *)
Definition geq (a b : number) : bool :=
  match a, b with
  | NaN, _ => false
  | _, NaN => false
  | Finite p, Finite q => Qle_bool q p
  | Finite _, Infinity negative => negative
  | Infinity negative, Finite _ => negb negative
  | Infinity negative, Infinity negative' => negb negative || negative'
  end.

(** [items.length >= num], for an array of [n] items. *)
Definition atLeast (n : nat) (num : number) : bool := geq (ofZ (Z.of_nat n)) num.

(** An array of [n] items built by a loop that stops at
    [items.length >= num]: it is empty, or its last item was added when the
    test was false. *)
Definition withinGuard (n : nat) (num : number) : Prop :=
  n = 0 \/ atLeast (n - 1) num = false.

(** [Math.min(a, b)] *)
Definition Math_min (a b : number) : number :=
  match a, b with
  | NaN, _ => NaN
  | _, NaN => NaN
  | Infinity true, _ => Infinity true
  | _, Infinity true => Infinity true
  | Infinity false, _ => b
  | _, Infinity false => a
  | Finite p, Finite q => Finite (Qmin p q)
  end.

(** [Math.max(a, b)] *)
Definition Math_max (a b : number) : number :=
  match a, b with
  | NaN, _ => NaN
  | _, NaN => NaN
  | Infinity false, _ => Infinity false
  | _, Infinity false => Infinity false
  | Infinity true, _ => b
  | _, Infinity true => a
  | Finite p, Finite q => Finite (Qmax p q)
  end.

(** The integer part of a finite number, as [ToIntegerOrInfinity] takes it. *)
Definition truncate (q : Q) : Z := if Qle_bool 0 q then Qfloor q else Qceiling q.

(** [items.slice(0, finish)]: [NaN] counts as [0], a negative end is taken
    from the end of the array. *)
Definition sliceUpTo {A} (finish : number) (items : list A) : list A :=
  match finish with
  | NaN => []
  | Infinity negative => if negative then [] else items
  | Finite q =>
      let k := truncate q in
      if (k <? 0)%Z then firstn (Z.to_nat (Z.of_nat (length items) + k)) items
      else firstn (Z.to_nat k) items
  end.

End JsNumber.
Import JsNumber.

(** ** lib/bot-protection.js *)

Module BotProtection.

Definition DEFAULT_MARKERS : list jsstring :=
  map js
    [ "making sure you're not a bot";
      "protected by anubis";
      "anubis uses a proof-of-work";
      "checking your browser";
      "just a moment";
      "cf-browser-verification";
      "enable javascript and cookies to continue";
      "attention required";
      "verify you are human";
      "unusual traffic" ]%string.

(** Only the first 6000 code units of the text are looked at. *)
Definition TEXT_LIMIT : nat := 6 * 1000.

Definition isLikelyBotProtectionText (title text : jsstring) (markers : list jsstring) : bool :=
  let t := toLowerCase title in
  let body := toLowerCase (slice0 TEXT_LIMIT text) in
  let haystack := t ++ [LF] ++ body in
  existsb (fun m => includes haystack m) markers.

(** One [page.evaluate] of the detection script: the script reads
    [document.title] and [document.body.innerText], or the call throws. *)
Inductive pageRead : Type :=
| ReadDocument (title innerText : jsstring)
| ReadThrows (err : thrown).

(** The page as the detector sees it: the outcome of its [k]-th read. *)
Definition page := nat -> pageRead.

Inductive pageEvent : Type :=
| Evaluate
| WaitForTimeout (ms : nat).

Definition isContextTornDown (message : jsstring) : bool :=
  includes message (js "Execution context was destroyed")
  || includes message (js "Cannot find context").

(** The body of the [for] loop, [remaining = 3 - attempt]. *)
Fixpoint detectLoop (p : page) (markers : list jsstring) (attempt remaining : nat)
  : completion bool * list pageEvent :=
  match remaining with
  | 0 => (Ok false, [])
  | S remaining' =>
      match p attempt with
      | ReadDocument title innerText =>
          (Ok (isLikelyBotProtectionText title innerText markers), [Evaluate])
      | ReadThrows err =>
          let message := messageOf err in
          if isContextTornDown message then
            let '(r, evs) := detectLoop p markers (S attempt) remaining' in
            (r, Evaluate :: WaitForTimeout 250 :: evs)
          else (Ok false, [Evaluate])
      end
  end.

Definition isLikelyBotProtectionPage (p : page) (markers : list jsstring)
  : completion bool * list pageEvent :=
  detectLoop p markers 0 3.

Definition reads (evs : list pageEvent) : nat :=
  length (filter (fun e => match e with Evaluate => true | _ => false end) evs).

(** The string the classifier searches. *)
Definition haystack (title text : jsstring) : jsstring :=
  toLowerCase title ++ [LF] ++ toLowerCase (slice0 TEXT_LIMIT text).

(** Some marker of the list occurs in [s]. *)
Definition ContainsMarker (markers : list jsstring) (s : jsstring) : Prop :=
  exists m, In m markers /\ Substring m s.

(** The classification in the words of the specification: a marker occurs in
    the lower-cased concatenation of the title and the first 6000 characters of
    the text. *)
Definition MarkerInConcatenation (title text : jsstring) : Prop :=
  ContainsMarker DEFAULT_MARKERS (toLowerCase (title ++ slice0 TEXT_LIMIT text)).

(** A page on which every read throws the same error. *)
Definition alwaysThrows (err : thrown) : page := fun _ => ReadThrows err.

(** The retry policy in the words of the specification: on a page whose
    reads throw, the failure is surfaced only after three reads. *)
Definition RetriesExhaustedFirst (p : page) (markers : list jsstring) : Prop :=
  (forall k, exists err, p k = ReadThrows err) ->
  reads (snd (isLikelyBotProtectionPage p markers)) = 3.

End BotProtection.

(** ** lib/extract.js *)

Module Extract.

(** The result of [Readability.parse()], when it is not [null]. *)
Record Article : Type := {
  article_title : jsstring;
  article_content : jsstring;
  article_textContent : jsstring
}.

Record Body : Type := {
  body_innerHTML : jsstring;
  body_textContent : jsstring
}.

(** What the code reads from [dom.window.document]. *)
Record Document : Type := {
  document_title : jsstring;
  document_body : option Body
}.

(** The third-party libraries [parseHtmlToContent] calls. *)
Record Libraries : Type := {
  (** [new JSDOM(html, { url, virtualConsole })] *)
  JSDOM : jsstring -> jsstring -> completion Document;
  (** [new JSDOM(html, { url, runScripts: "outside-only", virtualConsole })] *)
  JSDOM_outsideOnly : jsstring -> jsstring -> completion Document;
  (** [new Readability(document.cloneNode(true)).parse()] *)
  Readability_parse : Document -> completion (option Article);
  (** [new TurndownService(...).turndown(markup)] *)
  turndown : jsstring -> completion jsstring
}.

Record ParsedContent : Type := {
  title : jsstring;
  content : jsstring
}.

Definition TRUNCATION_MARKER : jsstring :=
  [LF; LF] ++ js "[... truncated, use --full for complete content ...]".

Definition PARAGRAPH_BREAK : jsstring := [LF; LF].

(** [article?.content], [article?.title], [article?.textContent] with
    [undefined] read as the empty string (both are falsy, and the code only
    tests them or passes them to [||]). *)
Definition articleField (f : Article -> jsstring) (article : option Article) : jsstring :=
  match article with
  | Some a => f a
  | None => []
  end.

Definition bodyTextContent (document : Document) : jsstring :=
  match document_body document with
  | Some b => body_textContent b
  | None => []
  end.

(** The [content] variable before it is trimmed. *)
Definition renderContent (L : Libraries) (document : Document) (article : option Article)
  : jsstring :=
  let attempt :=
    if truthy (articleField article_content article)
    then turndown L (articleField article_content article)
    else match document_body document with
         | Some body => turndown L (body_innerHTML body)
         | None => Ok []
         end in
  match attempt with
  | Ok content => content
  | Throw _ =>
      orElse (articleField article_textContent article)
             (orElse (bodyTextContent document) [])
  end.

(** Lines 43-52: the truncation of the trimmed content. *)
Definition truncateContent (truncate : bool) (finalContent : jsstring) : jsstring :=
  if truncate && (2000 <? length finalContent) then
    let cutPoint := lastIndexOf finalContent PARAGRAPH_BREAK 2000 in
    if (1000 <? cutPoint)%Z
    then slice0 (Z.to_nat cutPoint) finalContent ++ TRUNCATION_MARKER
    else slice0 2000 finalContent ++ TRUNCATION_MARKER
  else finalContent.

Definition parseHtmlToContent (L : Libraries) (html url : jsstring) (truncate : bool)
  : completion ParsedContent :=
  dom <- tryCatch (JSDOM L html url) (fun _ => JSDOM_outsideOnly L html url) ;;
  let document := dom in
  let article :=
    match Readability_parse L document with
    | Ok a => a
    | Throw _ => None
    end in
  let content := renderContent L document article in
  let finalContent := truncateContent truncate (trim content) in
  Ok {| title := orElse (articleField article_title article)
                        (orElse (document_title document) []);
        content := finalContent |}.

(** The trimmed content before truncation, for the statements below. *)
Definition trimmedContent (L : Libraries) (html url : jsstring) : completion jsstring :=
  dom <- tryCatch (JSDOM L html url) (fun _ => JSDOM_outsideOnly L html url) ;;
  let article :=
    match Readability_parse L dom with
    | Ok a => a
    | Throw _ => None
    end in
  Ok (trim (renderContent L dom article)).

(** A paragraph break of [s] at offset [k]. *)
Definition BreakAt (s : jsstring) (k : nat) : Prop := OccursAt PARAGRAPH_BREAK s k.

(** Libraries standing in for JSDOM, Readability and Turndown on one page:
    the document has a body, Readability finds no article, and Turndown
    renders the body as [markdown]. *)
Definition librariesRendering (markdown : jsstring) : Libraries :=
  let document html :=
    {| document_title := js "Page";
       document_body := Some {| body_innerHTML := html; body_textContent := html |} |} in
  {| JSDOM := fun html _ => Ok (document html);
     JSDOM_outsideOnly := fun html _ => Ok (document html);
     Readability_parse := fun _ => Ok None;
     turndown := fun _ => Ok markdown |}.

(** A page that quotes, in a code block, the end of a truncated output of
    this tool, and its rendering: Turndown copies the text of a code block
    between two fences without escaping it. *)
Definition quotingPage : jsstring :=
  js "<pre><code>$ web-browse.js https://example.com" ++ [LF; LF]
  ++ js "[... truncated, use --full for complete content ...]</code></pre>".

Definition quotingMarkdown : jsstring :=
  js "```" ++ [LF] ++ js "$ web-browse.js https://example.com" ++ [LF; LF]
  ++ js "[... truncated, use --full for complete content ...]" ++ [LF] ++ js "```".

(** A rendering of 2300 characters with one paragraph break, at offset 1500. *)
Definition longMarkdown : jsstring :=
  repeat "x"%char 1500 ++ PARAGRAPH_BREAK ++ repeat "y"%char 798.

(** What [parseHtmlToContent] returns for that rendering with
    [truncate = true]: the first 1500 characters and the marker. *)
Definition longParsed : ParsedContent :=
  {| title := js "Page"; content := slice0 1500 longMarkdown ++ TRUNCATION_MARKER |}.

(** The claim about untruncated content in the words of the specification:
    it never contains the marker. *)
Definition UntruncatedNeverHasMarker (L : Libraries) (html url : jsstring) : Prop :=
  forall r, parseHtmlToContent L html url false = Ok r ->
            includes (content r) TRUNCATION_MARKER = false.

End Extract.

(** ** lib/search.js *)

Module Search.

Record SearchResult : Type := {
  title : jsstring;
  link : jsstring;
  snippet : jsstring
}.

(** One element of [$(".result")] as the code reads it: the text and the
    [href] of its first [.result__a] descendant ([None] is [undefined]) and the
    text of its first [.result__snippet] descendant. *)
Record ResultNode : Type := {
  result_a_text : jsstring;
  result_a_href : option jsstring;
  result_snippet_text : jsstring
}.

(** One element of [$("a.result-link")]: its text, its [href] and the text of
    [.result-snippet] in the table row after its own. *)
Record LiteNode : Type := {
  link_text : jsstring;
  link_href : option jsstring;
  link_snippet_text : jsstring
}.

Record Response : Type := {
  status : Z;
  statusText : jsstring;
  text : completion jsstring
}.

(** [response.ok] *)
Definition ok (r : Response) : bool :=
  ((200 <=? status r) && (status r <=? 299))%Z.

Record Diagnostics : Type := {
  diag_title : jsstring;
  diag_text : jsstring;
  diag_bodyHtmlSnippet : jsstring;
  diag_hasCaptcha : bool;
  diag_resultCount : Z;
  diag_searchBoxCount : Z
}.

(** What the browser session does with one search: [navigation] is
    everything from [context.newPage()] to [page.waitForSelector("body")]
    (it returns, or one of the calls throws); [frames] has, for every frame of
    the page, the value of [frame.evaluate(extractResultsFromDocument)] or the
    error it throws; [diagnostics] is the value of the diagnostic
    [page.evaluate]. *)
Record GooglePage : Type := {
  navigation : completion unit;
  frames : list (completion (list SearchResult));
  diagnostics : completion Diagnostics;
  pageUrl : jsstring
}.

(** The collaborators of the search functions. *)
Record Environment : Type := {
  encodeURIComponent : jsstring -> jsstring;
  decodeURIComponent : jsstring -> completion jsstring;
  (** [load(html)(".result")] *)
  cheerio_results : jsstring -> list ResultNode;
  (** [load(html)("a.result-link")] *)
  cheerio_resultLinks : jsstring -> list LiteNode;
  httpFetch : jsstring -> completion Response;
  (** the page the context shows for a query and the [num] of the search URL *)
  browse : jsstring -> number -> GooglePage
}.

Inductive event : Type :=
| GoogleSearch (query : jsstring) (num : number)
| HttpGet (url : jsstring)
| ConsoleError (message : jsstring)
| Log (message : jsstring)
| OpenContext
| RemoveProfileDir.

(** [href.match(/uddg=([^&]+)/)]: the first capture group of the leftmost
    match, [None] when there is no match. *)
Fixpoint takeNotAmp (s : jsstring) : jsstring :=
  match s with
  | [] => []
  | c :: s' => if ascii_eqb c "&"%char then [] else c :: takeNotAmp s'
  end.

Fixpoint match_uddg (href : jsstring) : option jsstring :=
  match href with
  | [] => None
  | _ :: rest =>
      if startsWith href (js "uddg=") && truthy (takeNotAmp (skipn 5 href))
      then Some (takeNotAmp (skipn 5 href))
      else match_uddg rest
  end.

(** The link computed from the [href] of a result (lines 17-21). *)
Definition resolveLink (env : Environment) (href : option jsstring)
  : completion (option jsstring) :=
  match href with
  | None => Ok None
  | Some h =>
      if truthy h && includes h (js "uddg=") then
        match match_uddg h with
        | Some m => link <- decodeURIComponent env m ;; Ok (Some link)
        | None => Ok (Some h)
        end
      else Ok (Some h)
  end.

Definition truthyOpt (s : option jsstring) : bool :=
  match s with
  | Some s => truthy s
  | None => false
  end.

(** The callback of [$(".result").each], iterated; [results] is the array
    built so far. *)
Fixpoint eachResult (env : Environment) (els : list ResultNode) (num : number)
  (results : list SearchResult) : completion (list SearchResult) :=
  match els with
  | [] => Ok results
  | el :: rest =>
      if atLeast (length results) num then Ok results
      else
        let title := trim (result_a_text el) in
        let href := result_a_href el in
        let snippet := trim (result_snippet_text el) in
        link <- resolveLink env href ;;
        match link with
        | Some l =>
            if truthy title && truthy l && negb (includes l (js "duckduckgo.com"))
            then eachResult env rest num
                   (results ++ [{| title := title; link := l; snippet := snippet |}])
            else eachResult env rest num results
        | None => eachResult env rest num results
        end
  end.

Definition extractDuckDuckGoResults (env : Environment) (html : jsstring) (num : number)
  : completion (list SearchResult) :=
  eachResult env (cheerio_results env html) num [].

(** The callback of [$("a.result-link").each], iterated. *)
Fixpoint eachResultLink (els : list LiteNode) (num : number) (results : list SearchResult)
  : list SearchResult :=
  match els with
  | [] => results
  | el :: rest =>
      if atLeast (length results) num then results
      else
        let title := trim (link_text el) in
        let link := link_href el in
        let snippet := trim (link_snippet_text el) in
        match link with
        | Some l =>
            if truthy title && truthy l
            then eachResultLink rest num
                   (results ++ [{| title := title; link := l; snippet := orElse snippet [] |}])
            else eachResultLink rest num results
        | None => eachResultLink rest num results
        end
  end.

(** The two status checks shared by both DuckDuckGo requests. *)
Definition checkStatus (response : Response) : completion unit :=
  if (status response =? 202)%Z
  then Throw (newError (js "DuckDuckGo returned 202 (blocked)"))
  else if negb (ok response)
  then Throw (newError (js "Search failed: " ++ numberToString (status response)
                          ++ js " " ++ statusText response))
  else Ok tt.

Definition liteUrl (env : Environment) (query : jsstring) : jsstring :=
  js "https://duckduckgo.com/lite/?q=" ++ encodeURIComponent env query.

Definition htmlUrl (env : Environment) (query : jsstring) : jsstring :=
  js "https://html.duckduckgo.com/html/?q=" ++ encodeURIComponent env query.

Definition searchDuckDuckGoLite (env : Environment) (query : jsstring) (num : number)
  : Eff event (list SearchResult) :=
  let url := liteUrl env query in
  _ <~ emit (HttpGet url) ;;
  response <~ lift (httpFetch env url) ;;
  _ <~ lift (checkStatus response) ;;
  html <~ lift (text response) ;;
  ret (eachResultLink (cheerio_resultLinks env html) num []).

(** Lines 56-62 of [searchDuckDuckGo]: the request of the full-markup
    endpoint, its status checks and the extraction. *)
Definition fullMarkupStep (env : Environment) (query : jsstring) (num : number)
  : completion (list SearchResult) :=
  response <- httpFetch env (htmlUrl env query) ;;
  _ <- checkStatus response ;;
  html <- text response ;;
  extractDuckDuckGoResults env html num.

Definition searchDuckDuckGo (env : Environment) (query : jsstring) (num : number)
  : Eff event (list SearchResult) :=
  let url := htmlUrl env query in
  _ <~ emit (HttpGet url) ;;
  response <~ lift (httpFetch env url) ;;
  _ <~ lift (checkStatus response) ;;
  html <~ lift (text response) ;;
  results <~ lift (extractDuckDuckGoResults env html num) ;;
  if length results =? 0
  then searchDuckDuckGoLite env query num
  else ret results.

Definition BLOCKED_SIGNALS : list jsstring :=
  map js ["unusual traffic"; "before you continue"; "sorry"; "detected"; "our systems"]%string.

Definition frameResults (frame : completion (list SearchResult)) : list SearchResult :=
  match frame with
  | Ok frameResults => frameResults
  | Throw _ => []
  end.

Definition searchGoogleFromContext (env : Environment) (query : jsstring) (num : number)
  : Eff event (list SearchResult) :=
  let clampedNum := Math_max (ofZ 1) (Math_min num (ofZ 20)) in
  let page := browse env query clampedNum in
  _ <~ emit (GoogleSearch query clampedNum) ;;
  _ <~ lift (navigation page) ;;
  let results := flat_map frameResults (frames page) in
  _ <~ (if length results =? 0 then
          d <~ lift (diagnostics page) ;;
          if diag_hasCaptcha d
             || existsb (fun signal => includes (toLowerCase (diag_text d)) signal)
                        BLOCKED_SIGNALS
          then throwE (newError (js "Google blocked automated access ("
                                   ++ orElse (diag_title d) (pageUrl page) ++ js ")"))
          else
            _ <~ emit (ConsoleError
                         (js "Google returned zero results (url=" ++ pageUrl page
                          ++ js ", title=" ++ diag_title d
                          ++ js ", results=" ++ numberToString (diag_resultCount d)
                          ++ js ", searchBoxes=" ++ numberToString (diag_searchBoxCount d)
                          ++ js ")")) ;;
            emit (ConsoleError (js "Google body snippet: " ++ diag_bodyHtmlSnippet d))
        else ret tt) ;;
  ret (sliceUpTo clampedNum results).

Definition searchWebFromContext (env : Environment) (query : jsstring)
  (numResults : number)
  : Eff event (list SearchResult) :=
  results <~ tryE (searchGoogleFromContext env query numResults)
                  (fun error =>
                     let message := messageOf error in
                     _ <~ emit (Log (js "Google search failed: " ++ message)) ;;
                     ret []) ;;
  if length results =? 0 then
    _ <~ emit (Log (js "Google returned no results. Falling back to DuckDuckGo...")) ;;
    tryE (searchDuckDuckGo env query numResults)
         (fun error =>
            let message := messageOf error in
            _ <~ emit (Log (js "DuckDuckGo search failed: " ++ message)) ;;
            ret results)
  else ret results.

(** The requested count clamped to [1, 20]: [Math.max(1, Math.min(num, 20))]. *)
Definition clampedCount (numResults : number) : number :=
  Math_max (ofZ 1) (Math_min numResults (ofZ 20)).

(** [try { body } finally { final }]: the final block runs after the body,
    whatever its outcome, and an error of the final block replaces that
    outcome. *)
Definition finallyE {A} (body : Eff event A) (final : Eff event unit) : Eff event A :=
  (match fst final with
   | Ok _ => fst body
   | Throw e => Throw e
   end,
   snd body ++ snd final).

(** What [searchWebOneShot] does around the search, each step returning or
    throwing: [mkdtempSync] before the [try] (line 435); the calls of lines
    444-499 that start or launch the browser, take the context and add its
    init script; and, in the [finally] block, the two calls that are outside
    any [catch]: [context.pages()] with the loop that closes the pages (lines
    512-517, skipped without a context or without an auto-started browser) and
    [rmSync] (line 542).  The calls between them close the context and the
    browser and kill the browser process; their errors are caught. *)
Record OneShotSession : Type := {
  makeProfileDir : completion unit;
  openContext : completion unit;
  closePages : completion unit;
  removeProfileDir : completion unit
}.

(** The search of the command line's one-shot mode: it clamps the count
    before the call and slices the results after it. *)
Definition searchWebOneShot (env : Environment) (session : OneShotSession)
  (query : jsstring) (num : number) : Eff event (list SearchResult) :=
  _ <~ lift (makeProfileDir session) ;;
  let clampedNum := Math_max (ofZ 1) (Math_min num (ofZ 20)) in
  finallyE
    (_ <~ emit OpenContext ;;
     _ <~ lift (openContext session) ;;
     results <~ searchWebFromContext env query clampedNum ;;
     ret (sliceUpTo clampedNum results))
    (_ <~ lift (closePages session) ;;
     _ <~ emit RemoveProfileDir ;;
     lift (removeProfileDir session)).

(** The events of the search chain itself. *)
Definition isSearchEvent (ev : event) : bool :=
  match ev with
  | OpenContext | RemoveProfileDir => false
  | _ => true
  end.

(** The results of a step, an error counting as zero results. *)
Definition resultsOrNone (step : Eff event (list SearchResult)) : list SearchResult :=
  match fst step with
  | Ok results => results
  | Throw _ => []
  end.


(** *** Sample collaborators, for the examples *)

Definition hexValue (c : ascii) : option nat :=
  let n := nat_of_ascii c in
  if (48 <=? n) && (n <=? 57) then Some (n - 48)
  else if (65 <=? n) && (n <=? 70) then Some (n - 55)
  else if (97 <=? n) && (n <=? 102) then Some (n - 87)
  else None.

Definition URIError : thrown :=
  ErrorObject (js "URIError") (js "URI malformed") None.

(** [decodeURIComponent] on strings whose escapes are all below [%80]; on any
    other escape this stand-in throws, which the built-in function does on
    the malformed ones only. *)
Fixpoint percentDecode (s : jsstring) : completion jsstring :=
  match s with
  | [] => Ok []
  | c :: rest =>
      if ascii_eqb c "%"%char then
        match rest with
        | h :: l :: rest' =>
            match hexValue h, hexValue l with
            | Some a, Some b =>
                if 16 * a + b <? 128
                then decoded <- percentDecode rest' ;; Ok (ascii_of_nat (16 * a + b) :: decoded)
                else Throw URIError
            | _, _ => Throw URIError
            end
        | _ => Throw URIError
        end
      else decoded <- percentDecode rest ;; Ok (c :: decoded)
  end.

(** A results page of Google that blocks automated access. *)
Definition blockedPage : GooglePage :=
  {| navigation := Ok tt;
     frames := [Ok []];
     diagnostics :=
       Ok {| diag_title := js "Sorry...";
             diag_text := js "Our systems have detected unusual traffic";
             diag_bodyHtmlSnippet := js "<div>";
             diag_hasCaptcha := true;
             diag_resultCount := 0;
             diag_searchBoxCount := 0 |};
     pageUrl := js "https://www.google.com/sorry/index" |}.

(** An environment in which Google blocks the search and both endpoints of
    DuckDuckGo answer [200]; [results] and [resultLinks] are the listing items
    of the full and of the lightweight markup. *)
Definition fallbackEnvironment (results : list ResultNode) (resultLinks : list LiteNode)
  : Environment :=
  {| encodeURIComponent := fun query => query;
     decodeURIComponent := percentDecode;
     cheerio_results := fun _ => results;
     cheerio_resultLinks := fun _ => resultLinks;
     httpFetch := fun _ => Ok {| status := 200; statusText := js "OK";
                                 text := Ok (js "<html></html>") |};
     browse := fun _ _ => blockedPage |}.



(** A session of the one-shot mode in which every step returns. *)
Definition quietSession : OneShotSession :=
  {| makeProfileDir := Ok tt; openContext := Ok tt; closePages := Ok tt;
     removeProfileDir := Ok tt |}.

(** The [i]-th item of a listing with direct links. *)
Definition directResult (i : nat) : ResultNode :=
  {| result_a_text := js "Result " ++ numberToString (Z.of_nat i);
     result_a_href := Some (js "https://example.com/" ++ numberToString (Z.of_nat i));
     result_snippet_text := js "snippet" |}.

(** The item of the repository's test whose link is wrapped. *)
Definition wrappedResult : ResultNode :=
  {| result_a_text := js "Encoded Link";
     result_a_href := Some (js "/l/?uddg=https%3A%2F%2Fexample.org%2Ffoo");
     result_snippet_text := js "Some snippet text that is long enough." |}.

(** An item of the lightweight markup whose link is wrapped. *)
Definition wrappedResultLink : LiteNode :=
  {| link_text := js "Encoded Link";
     link_href := Some (js "//duckduckgo.com/l/?uddg=https%3A%2F%2Fexample.org%2Ffoo&rut=0");
     link_snippet_text := js "Some snippet text." |}.

End Search.

(** ** The browser fetch module and lib/http-fetch.js *)

Module Fetch.

Import Extract.

(** [error] is [None] for JavaScript's [null]; [title] and [content] are values
    that the code could in principle leave [undefined], so they are optional
    here and the statements say that they never are. *)
Record FetchResult : Type := {
  url : jsstring;
  title : option jsstring;
  content : option jsstring;
  error : option jsstring
}.

(** [err?.cause?.message || err?.message || String(err)] *)
Definition describe (err : thrown) : jsstring :=
  match err with
  | ErrorObject _ message causeMessage =>
      orElse (match causeMessage with Some m => m | None => [] end)
             (orElse message (stringOf err))
  | ThrownValue s => s
  end.

(** [err?.name === "AbortError"] *)
Definition isAbortError (err : thrown) : bool :=
  match err with
  | ErrorObject name _ _ => str_eqb name (js "AbortError")
  | ThrownValue _ => false
  end.

(** What the browser session does with one [fetchUrlFromContext]: the outcome
    of each awaited call, in the order of the source. *)
Record PageSession : Type := {
  newPage : completion unit;
  goto : completion unit;
  (** [waitForBotProtectionToClear(page, url, { timeoutMs })] *)
  botProtection : completion unit;
  (** [page.content()] *)
  pageContent : completion jsstring;
  (** [page.isClosed()] when the [catch] and [finally] blocks ask for it *)
  isClosed : bool;
  (** [dumpDebugArtifacts(page, ...)]: the directory written, or [null] *)
  dumpDir : option jsstring
}.

Inductive event : Type :=
| ConsoleError (message : jsstring)
| ClosePage.

(** The [try] block. *)
Definition fetchBody (L : Libraries) (session : PageSession) (url : jsstring)
  (truncate : bool) : completion FetchResult :=
  _ <- newPage session ;;
  _ <- goto session ;;
  _ <- botProtection session ;;
  html <- pageContent session ;;
  parsed <- parseHtmlToContent L html url truncate ;;
  Ok {| url := url;
        title := Some (Extract.title parsed);
        content := Some (Extract.content parsed);
        error := None |}.

Definition fetchUrlFromContext (L : Libraries) (session : PageSession) (url : jsstring)
  (truncate : bool) : Eff event FetchResult :=
  (* [page] is assigned once [context.newPage()] has returned *)
  let page := isOk (newPage session) in
  result <~ tryE (lift (fetchBody L session url truncate))
    (fun err =>
       let message :=
         if isAbortError err then js "Timeout after 45s" else describe err in
       _ <~ (if page && negb (isClosed session) then
               match dumpDir session with
               | Some dir => emit (ConsoleError (js "Debug dump saved: " ++ dir))
               | None => ret tt
               end
             else ret tt) ;;
       ret {| url := url; title := Some []; content := Some []; error := Some message |}) ;;
  (* finally *)
  _ <~ (if page && negb (isClosed session) then emit ClosePage else ret tt) ;;
  ret result.

(** [fetchUrlsFromContext]: [context] gives the session of each url. *)
Fixpoint fetchUrlsFromContext (L : Libraries) (context : jsstring -> PageSession)
  (urls : list jsstring) (truncate : bool) : Eff event (list FetchResult) :=
  match urls with
  | [] => ret []
  | u :: rest =>
      r <~ fetchUrlFromContext L (context u) u truncate ;;
      rs <~ fetchUrlsFromContext L context rest truncate ;;
      ret (r :: rs)
  end.

(** The response of the plain HTTP request. *)
Record HttpResponse : Type := {
  status : Z;
  statusText : jsstring;
  (** [response.headers.get("content-type")], [None] for [null] *)
  contentType : option jsstring;
  text : completion jsstring
}.

Definition ok (r : HttpResponse) : bool :=
  ((200 <=? status r) && (status r <=? 299))%Z.

Definition httpBody (L : Libraries) (httpFetch : jsstring -> completion HttpResponse)
  (url : jsstring) (truncate : bool) : completion FetchResult :=
  response <- httpFetch url ;;
  _ <- (if negb (ok response)
        then Throw (newError (js "HTTP " ++ numberToString (status response)
                                ++ js " " ++ statusText response))
        else Ok tt) ;;
  let contentType := match contentType response with Some c => orElse c [] | None => [] end in
  _ <- (if negb (includes contentType (js "text/html"))
           && negb (includes contentType (js "application/xhtml"))
        then Throw (newError (js "Not HTML: " ++ contentType))
        else Ok tt) ;;
  html <- text response ;;
  parsed <- parseHtmlToContent L html url truncate ;;
  Ok {| url := url;
        title := Some (Extract.title parsed);
        content := Some (Extract.content parsed);
        error := None |}.

Definition fetchUrlViaHttp (L : Libraries) (httpFetch : jsstring -> completion HttpResponse)
  (url : jsstring) (truncate : bool) : completion FetchResult :=
  tryCatch (httpBody L httpFetch url truncate)
    (fun err =>
       let message :=
         if isAbortError err then js "Timeout after 15s" else describe err in
       Ok {| url := url; title := Some []; content := Some []; error := Some message |}).

(** The invariant of a [FetchResult]: a success carrying page data, or an
    error message with empty title and content. *)
Definition WellFormed (r : FetchResult) : Prop :=
  (error r = None /\ exists t c, title r = Some t /\ content r = Some c)
  \/ (exists message, error r = Some message /\ title r = Some [] /\ content r = Some []).

End Fetch.

(** ** lib/cdp.js: the port negotiation *)

Module Cdp.

(** The operating system as the negotiation sees it.  [listen k port] tells
    whether binding [127.0.0.1:port] succeeds at the [k]-th call of
    [isPortAvailable]; [ephemeral] is the outcome of [getEphemeralPort]: the
    port the system assigned to [listen(0)], or the error of that bind. *)
Record OS : Type := {
  listen : nat -> Z -> bool;
  ephemeral : completion Z
}.

Definition isPortAvailable (os : OS) (k : nat) (port : Z) : bool :=
  if ((port <=? 0) || (65535 <? port))%Z then false
  else listen os k port.

Definition getEphemeralPort (os : OS) : completion Z := ephemeral os.

(** The [for] loop of [chooseAvailablePort]; [remaining = 26 - offset]. *)
Fixpoint tryOffsets (os : OS) (preferredPort : Z) (offset remaining : nat) : option Z :=
  match remaining with
  | 0 => None
  | S remaining' =>
      let candidate := (preferredPort + Z.of_nat offset)%Z in
      if isPortAvailable os offset candidate then Some candidate
      else tryOffsets os preferredPort (S offset) remaining'
  end.

Definition chooseAvailablePort (os : OS) (preferredPort : Z) : completion Z :=
  if isPortAvailable os 0 preferredPort then Ok preferredPort
  else match tryOffsets os preferredPort 1 25 with
       | Some candidate => Ok candidate
       | None => getEphemeralPort os
       end.

End Cdp.

(** ** lib/daemon.js: the command handler *)

Module Daemon.

(** A value produced by [JSON.parse].  [JNumber] is an integer-valued finite
    number; [JInfinity] is what a literal beyond the range of a double parses
    to ([Infinity], or [-Infinity] when [negative]), the only numbers of a JSON
    text that are not finite. *)
Inductive json : Type :=
| JNull
| JBool (b : bool)
| JNumber (n : Z)
| JInfinity (negative : bool)
| JString (s : jsstring)
| JArray (items : list json)
| JObject (fields : list (jsstring * json)).

(** A property read or an argument: [None] is [undefined]. *)
Definition jsvalue := option json.

Definition truthyJson (v : jsvalue) : bool :=
  match v with
  | None => false
  | Some JNull => false
  | Some (JBool b) => b
  | Some (JNumber n) => negb (n =? 0)%Z
  | Some (JInfinity _) => true
  | Some (JString s) => truthy s
  | Some (JArray _) => true
  | Some (JObject _) => true
  end.

Fixpoint lookup (key : jsstring) (fields : list (jsstring * json)) : jsvalue :=
  match fields with
  | [] => None
  | (k, v) :: rest => if str_eqb k key then Some v else lookup key rest
  end.

(** [v.key]: reading a property of [null] throws a [TypeError]; the keys the
    handler reads exist on parsed objects only. *)
Definition getProperty (v : json) (key : jsstring) : completion jsvalue :=
  match v with
  | JNull =>
      Throw (ErrorObject (js "TypeError")
               (js "Cannot read properties of null (reading '" ++ key ++ js "')") None)
  | JObject fields => Ok (lookup key fields)
  | _ => Ok None
  end.

(** [Number.isFinite(v)] *)
Definition Number_isFinite (v : jsvalue) : bool :=
  match v with
  | Some (JNumber _) => true
  | _ => false
  end.

(** [command === name] *)
Definition isCommand (command : jsvalue) (name : string) : bool :=
  match command with
  | Some (JString s) => str_eqb s (js name)
  | _ => false
  end.

(** [String(v)] for a parsed value; an array is its elements joined by
    commas, [null] among them counting as the empty string. *)
Fixpoint jsonToString (v : json) : jsstring :=
  match v with
  | JNull => js "null"
  | JBool true => js "true"
  | JBool false => js "false"
  | JNumber n => numberToString n
  | JInfinity false => js "Infinity"
  | JInfinity true => js "-Infinity"
  | JString s => s
  | JArray items =>
      (fix join (l : list json) : jsstring :=
         match l with
         | [] => []
         | x :: rest =>
             match x with JNull => [] | _ => jsonToString x end
             ++ match rest with [] => [] | _ :: _ => js "," ++ join rest end
         end) items
  | JObject _ => js "[object Object]"
  end.

(** [String(command)] inside the template of the last error. *)
Definition commandToString (command : jsvalue) : jsstring :=
  match command with
  | None => js "undefined"
  | Some v => jsonToString v
  end.

Section Handler.

(** The data a command answers with. *)
Variable Data : Type.

(** The functions [runWebBrowseDaemon] receives and the parser it calls. *)
Record Dependencies : Type := {
  JSON_parse : jsstring -> completion json;
  fetchUrlFromContext : json -> bool -> completion Data;
  fetchUrlsFromContext : list json -> bool -> completion Data;
  (** called with [query] and [numResults] *)
  searchWebFromContext : json -> Z -> completion Data
}.

Inductive event : Type :=
| CallFetch (url : json) (truncate : bool)
| CallFetchMany (urls : list json) (truncate : bool)
| CallSearch (query : json) (numResults : Z)
| CleanupContextPages.

Inductive HttpReply : Type :=
| Reply200 (data : Data)
| Reply400 (error : jsstring).

(** The [try] block of the queued function; the state is [requestCount]. *)
Definition commandBody (deps : Dependencies) (body : jsstring) (requestCount : nat)
  : Eff event Data * nat :=
  match JSON_parse deps (orElse body (js "{}")) with
  | Throw e => (throwE e, requestCount)
  | Ok parsed =>
      match getProperty parsed (js "command"), getProperty parsed (js "payload") with
      | Throw e, _ | _, Throw e => (throwE e, requestCount)
      | Ok command, Ok payloadValue =>
          let payload :=
            match payloadValue with
            | Some v => if truthyJson payloadValue then v else JObject []
            | None => JObject []
            end in
          let field key :=
            match getProperty payload (js key) with
            | Ok v => v
            | Throw _ => None
            end in
          let requestCount := requestCount + 1 in
          let run : Eff event Data :=
            if isCommand command "fetch" then
              match field "url"%string with
              | Some url =>
                  if truthyJson (Some url) then
                    _ <~ emit (CallFetch url (truthyJson (field "truncate"%string))) ;;
                    lift (fetchUrlFromContext deps url (truthyJson (field "truncate"%string)))
                  else throwE (newError (js "fetch requires payload.url"))
              | None => throwE (newError (js "fetch requires payload.url"))
              end
            else if isCommand command "fetchMany" then
              match field "urls"%string with
              | Some (JArray urls) =>
                  _ <~ emit (CallFetchMany urls (truthyJson (field "truncate"%string))) ;;
                  lift (fetchUrlsFromContext deps urls (truthyJson (field "truncate"%string)))
              | _ => throwE (newError (js "fetchMany requires payload.urls[]"))
              end
            else if isCommand command "search" then
              match field "query"%string with
              | Some query =>
                  if truthyJson (Some query) then
                    let n :=
                      if Number_isFinite (field "numResults"%string)
                      then match field "numResults"%string with
                           | Some (JNumber n) => n
                           | _ => 5%Z
                           end
                      else 5%Z in
                    _ <~ emit (CallSearch query n) ;;
                    lift (searchWebFromContext deps query n)
                  else throwE (newError (js "search requires payload.query"))
              | None => throwE (newError (js "search requires payload.query"))
              end
            else throwE (newError (js "unknown command: " ++ commandToString command)) in
          (run, requestCount)
      end
  end.

(** The function passed to [enqueue]: the [try] block, then in either
    branch the cleanup and the reply. *)
Definition handleCommand (deps : Dependencies) (body : jsstring) (requestCount : nat)
  : HttpReply * nat * list event :=
  let '((outcome, evs), requestCount') := commandBody deps body requestCount in
  match outcome with
  | Ok data => (Reply200 data, requestCount', evs ++ [CleanupContextPages])
  | Throw err => (Reply400 (messageOf err), requestCount', evs ++ [CleanupContextPages])
  end.

End Handler.

Arguments Reply200 {Data} data.
Arguments Reply400 {Data} error.

(** *** The queue: [queue = queue.then(fn, fn)] *)

Section Queue.

(** The value an asynchronous function settles with. *)
Variable R : Type.

(** An asynchronous function as the queue sees it: the number of times its
    body suspends before it settles, and whether it then returns or throws. *)
Record Task : Type := {
  awaits : nat;
  outcome : completion R
}.

(** The promise [enqueue] creates for one function.  It is pending until
    the function it wraps has settled: first the function has not been
    called ([Waiting]), then its body is in flight with some suspensions
    still to come ([Running]). *)
Inductive Promise : Type :=
| Waiting (fn : Task)
| Running (fn : Task) (remaining : nat)
| Settled (result : completion R).

(** [chain]: the promises in the order [enqueue] created them, after the
    initial [Promise.resolve()]; the variable [queue] is the last one.
    [settledOrder]: the positions of the promises in the order they settled. *)
Record QueueState : Type := {
  chain : list Promise;
  settledOrder : list nat
}.

Definition initial : QueueState := {| chain := []; settledOrder := [] |}.

(** What can happen next: a request arrives and [enqueue(fn)] runs; the
    event loop calls the reaction of promise [i]; the event loop resumes
    the suspended body of the function of promise [i]. *)
Inductive Step : Type :=
| Enqueue (fn : Task)
| Call (i : nat)
| Resume (i : nat).

Definition isSettled (p : Promise) : bool :=
  match p with Settled _ => true | _ => false end.

Definition isRunning (p : Promise) : bool :=
  match p with Running _ _ => true | _ => false end.

(** The promise [then] was called on to create promise [i] is settled,
    fulfilled or rejected alike: both handlers of [then(fn, fn)] are [fn]. *)
Definition predecessorSettled (ps : list Promise) (i : nat) : bool :=
  match i with
  | 0 => true
  | S j => match nth_error ps j with
           | Some p => isSettled p
           | None => false
           end
  end.

Fixpoint update (i : nat) (p : Promise) (ps : list Promise) : list Promise :=
  match ps, i with
  | [], _ => []
  | _ :: rest, 0 => p :: rest
  | q :: rest, S j => q :: update j p rest
  end.

Definition step (st : Step) (s : QueueState) : option QueueState :=
  match st with
  | Enqueue fn =>
      Some {| chain := chain s ++ [Waiting fn]; settledOrder := settledOrder s |}
  | Call i =>
      match nth_error (chain s) i with
      | Some (Waiting fn) =>
          if predecessorSettled (chain s) i
          then Some {| chain := update i (Running fn (awaits fn)) (chain s);
                       settledOrder := settledOrder s |}
          else None
      | _ => None
      end
  | Resume i =>
      match nth_error (chain s) i with
      | Some (Running fn (S k)) =>
          Some {| chain := update i (Running fn k) (chain s);
                  settledOrder := settledOrder s |}
      | Some (Running fn 0) =>
          Some {| chain := update i (Settled (outcome fn)) (chain s);
                  settledOrder := settledOrder s ++ [i] |}
      | _ => None
      end
  end.

Fixpoint run (steps : list Step) (s : QueueState) : option QueueState :=
  match steps with
  | [] => Some s
  | st :: rest =>
      match step st s with
      | Some s' => run rest s'
      | None => None
      end
  end.

(** The number of functions in flight. *)
Definition running (s : QueueState) : nat :=
  length (filter isRunning (chain s)).

(** The schedule that takes the function of promise [i] from its call to
    its settlement. *)
Definition runToCompletion (i : nat) (fn : Task) : list Step :=
  Call i :: repeat (Resume i) (S (awaits fn)).

(** The schedule that finishes everything pending in [ps], whose first
    promise has position [i]. *)
Fixpoint drain (i : nat) (ps : list Promise) : list Step :=
  match ps with
  | [] => []
  | Settled _ :: rest => drain (S i) rest
  | Running _ k :: rest => repeat (Resume i) (S k) ++ drain (S i) rest
  | Waiting fn :: rest => runToCompletion i fn ++ drain (S i) rest
  end.

(** What promise [p] settles with. *)
Definition finalResult (p : Promise) : completion R :=
  match p with
  | Waiting fn => outcome fn
  | Running fn _ => outcome fn
  | Settled r => r
  end.

Definition settle (p : Promise) : Promise := Settled (finalResult p).

(** The functions handed to [enqueue], in order. *)
Definition enqueued (steps : list Step) : list Task :=
  flat_map (fun st => match st with Enqueue fn => [fn] | _ => [] end) steps.

Definition isWaiting (p : Promise) : bool :=
  match p with Waiting _ => true | _ => false end.

(** The chain is serialized: settled promises, then at most one function
    called and not yet settled, then functions not yet called. *)
Fixpoint serialized (ps : list Promise) : bool :=
  match ps with
  | [] => true
  | Settled _ :: rest => serialized rest
  | _ :: rest => forallb isWaiting rest
  end.

Definition settledCount (ps : list Promise) : nat :=
  length (filter isSettled ps).

End Queue.

(** The function the [/command] route enqueues for a request body: it always
    fulfils, with the reply of the handler. *)
Definition commandTask (Data : Type) (deps : Dependencies Data) (body : jsstring)
  (requestCount suspensions : nat) : Task (HttpReply Data) :=
  {| awaits := suspensions;
     outcome := Ok (fst (fst (handleCommand deps body requestCount))) |}.

(** *** Samples, for the examples *)

(** A parser that answers every body with a [search] command for ["rocq"]
    whose payload has the given [numResults], and a search that answers with
    the count it was called with. *)
Definition searchRequest (numResults : jsvalue) : json :=
  JObject [ (js "command", JString (js "search"));
            (js "payload",
             JObject ((js "query", JString (js "rocq"))
                      :: match numResults with
                         | Some v => [(js "numResults", v)]
                         | None => []
                         end)) ].

Definition countingDependencies (numResults : jsvalue) : Dependencies Z :=
  {| JSON_parse := fun _ => Ok (searchRequest numResults);
     fetchUrlFromContext := fun _ _ => Ok 0%Z;
     fetchUrlsFromContext := fun _ _ => Ok 0%Z;
     searchWebFromContext := fun _ n => Ok n |}.

(** A task that throws after one suspension, and one that returns [7] after
    two. *)
Definition failingTask : Task nat :=
  {| awaits := 1; outcome := Throw (newError (js "search requires payload.query")) |}.

Definition answeringTask : Task nat :=
  {| awaits := 2; outcome := Ok 7 |}.

(** Three requests arrive while the first, which fails, is being served. *)
Definition overlappingRequests : list (Step nat) :=
  [ Enqueue failingTask; Call nat 0; Enqueue answeringTask; Resume nat 0;
    Enqueue answeringTask; Resume nat 0; Call nat 1 ].

End Daemon.

(** ** lib/bot-protection.js: waiting for a challenge to clear *)

Module BotProtectionWait.

Import BotProtection.

Record WaitResult : Type := {
  detected : bool;
  cleared : bool;
  waitedMs : Z
}.

(** The page and the clock as [waitForBotProtectionToClear] sees them:
    [pageReads k] is the outcome of the [k]-th detection read, [timeouts k]
    that of the [k]-th awaited [page.waitForTimeout] of the function itself
    (it throws when the page has gone), [jitter] is
    [Math.floor(Math.random() * 150)], [pageTitle] the outcome of
    [page.title()] and [elapsed] the value of [Date.now() - start]. *)
Record PageWorld : Type := {
  pageReads : nat -> pageRead;
  timeouts : nat -> completion unit;
  jitter : nat;
  pageTitle : completion jsstring;
  elapsed : Z
}.

Inductive event : Type :=
| Detection (e : pageEvent)
| Timeout (ms : nat)
| LogLine (message : jsstring)
| WaitForFunction (timeoutMs : Z)
| WaitForLoadState (state : jsstring) (timeoutMs : Z).

Definition QUOTE : ascii := ascii_of_nat 34.

(** One call of [isLikelyBotProtectionPage] on a page that has been read
    [n] times already. *)
Definition detect (w : PageWorld) (markers : list jsstring) (n : nat)
  : completion bool * nat * list event :=
  let '(r, evs) := isLikelyBotProtectionPage (fun k => pageReads w (n + k)) markers in
  (r, n + reads evs, map Detection evs).

(** The [for] loop; [n] reads and [t] timeouts have happened before. *)
Fixpoint detectionLoop (w : PageWorld) (markers : list jsstring) (remaining n t : nat)
  : completion bool * nat * nat * list event :=
  match remaining with
  | 0 => (Ok false, n, t, [])
  | S remaining' =>
      let '(r, n', evs) := detect w markers n in
      match r with
      | Throw e => (Throw e, n', t, evs)
      | Ok true => (Ok true, n', t, evs)
      | Ok false =>
          match timeouts w t with
          | Throw e => (Throw e, n', S t, evs ++ [Timeout 200])
          | Ok _ =>
              let '(r', n'', t', evs') := detectionLoop w markers remaining' n' (S t) in
              (r', n'', t', evs ++ Timeout 200 :: evs')
          end
      end
  end.

Definition notClearedError (w : PageWorld) : thrown :=
  let title := match pageTitle w with Ok t => t | Throw _ => [] end in
  newError (js "Bot protection challenge did not clear (title=" ++ [QUOTE] ++ title
            ++ [QUOTE] ++ js ")").

Definition waitForBotProtectionToClear (w : PageWorld) (url : jsstring)
  (markers : list jsstring) (timeoutMs : Z) : completion WaitResult * list event :=
  let first := Timeout (150 + jitter w) in
  match timeouts w 0 with
  | Throw e => (Throw e, [first])
  | Ok _ =>
      let '(r, n, t, evs) := detectionLoop w markers 3 0 1 in
      match r with
      | Throw e => (Throw e, first :: evs)
      | Ok false =>
          (Ok {| detected := false; cleared := true; waitedMs := 0 |}, first :: evs)
      | Ok true =>
          let waiting :=
            [ LogLine (js "Bot protection detected for " ++ url
                       ++ js ". Waiting for it to clear...");
              WaitForFunction timeoutMs;
              WaitForLoadState (js "domcontentloaded") 10000;
              WaitForLoadState (js "networkidle") 5000;
              Timeout 150 ] in
          match timeouts w t with
          | Throw e => (Throw e, first :: evs ++ waiting)
          | Ok _ =>
              let '(stillBlocked, _, evs') := detect w markers n in
              match stillBlocked with
              | Throw e => (Throw e, first :: evs ++ waiting ++ evs')
              | Ok true => (Throw (notClearedError w), first :: evs ++ waiting ++ evs')
              | Ok false =>
                  (Ok {| detected := true; cleared := true; waitedMs := elapsed w |},
                   first :: evs ++ waiting ++ evs')
              end
          end
      end
  end.

Definition isWaitForFunction (e : event) : bool :=
  match e with WaitForFunction _ => true | _ => false end.

(** A page whose reads all throw [err] and whose timeouts all return. *)
Definition brokenPage (err : thrown) : PageWorld :=
  {| pageReads := fun _ => ReadThrows err;
     timeouts := fun _ => Ok tt;
     jitter := 42;
     pageTitle := Ok (js "Just a moment...");
     elapsed := 0 |}.

End BotProtectionWait.

(** ** lib/debug-dump.js: the name of a dump directory *)

Module DebugDump.

Definition isSlugLetter (c : ascii) : bool :=
  let n := nat_of_ascii c in
  ((97 <=? n) && (n <=? 122)) || ((48 <=? n) && (n <=? 57)).

Definition DASH : ascii := "-"%char.

(** [s.replace(/[^a-z0-9]+/g, "-")]; [inRun] tells that the previous
    character belonged to the run being replaced. *)
Fixpoint dashRuns (s : jsstring) (inRun : bool) : jsstring :=
  match s with
  | [] => []
  | c :: rest =>
      if isSlugLetter c then c :: dashRuns rest false
      else if inRun then dashRuns rest true
      else DASH :: dashRuns rest true
  end.

Definition dropLeadingDash (s : jsstring) : jsstring :=
  match s with
  | c :: rest => if ascii_eqb c DASH then rest else s
  | [] => []
  end.

(** [s.replace(/(^-|-$)/g, "")]: a dash at the start and a dash at the end
    are removed. *)
Definition trimDashes (s : jsstring) : jsstring :=
  rev (dropLeadingDash (rev (dropLeadingDash s))).

Definition safeSlug (input : jsstring) : jsstring :=
  orElse (slice0 60 (trimDashes (dashRuns (toLowerCase input) false))) (js "page").

Definition isSlugChar (c : ascii) : bool := isSlugLetter c || ascii_eqb c DASH.

(** The string is empty or starts with a letter or a digit. *)
Definition headIsLetter (s : jsstring) : Prop :=
  match s with
  | [] => True
  | c :: _ => isSlugLetter c = true
  end.

End DebugDump.

(** ** lib/search.js: the extraction script run in the pages of Google *)

Module GoogleExtract.

Import Search.

(** The element the script takes the snippet from: the text of the first
    element matching the snippet selectors ([None] when there is none) and the
    texts of all [span] descendants. *)
Record Container : Type := {
  snippetEl_textContent : option jsstring;
  span_textContents : list jsstring
}.

(** One [h3] of the document as the script reads it: its text, the [href]
    of the closest enclosing [a[href]] ([None] when there is none) and the
    container found from that link ([None] when there is none). *)
Record Heading : Type := {
  h3_textContent : jsstring;
  closest_href : option jsstring;
  closest_container : option Container
}.

(** [(a || "").length > 40], as a test on a string. *)
Definition longerThan40 (text : jsstring) : bool := 40 <? length text.

Definition snippetOf (title : jsstring) (container : option Container) : jsstring :=
  match container with
  | None => []
  | Some c =>
      let snippet :=
        orElse (match snippetEl_textContent c with
                | Some t => trim t
                | None => []
                end) [] in
      if negb (truthy snippet) then
        let spans :=
          filter (fun text => longerThan40 text && negb (str_eqb text title))
                 (map (fun t => orElse (trim t) []) (span_textContents c)) in
        orElse (hd [] spans) []
      else snippet
  end.

(** [searchParam link] is
    [new URL("https://www.google.com" + link).searchParams.get("q")]: the
    constructor may throw, and [get] answers [null] ([None]) or a string. *)
Definition finalLinkOf (searchParam : jsstring -> completion (option jsstring))
  (link : jsstring) : jsstring :=
  if startsWith link (js "/url?") then
    match searchParam link with
    | Ok (Some q) => orElse q link
    | Ok None => link
    | Throw _ => link
    end
  else link.

(** The body of the [for] loop over the [h3] elements. *)
Fixpoint extractResultsFromDocument (searchParam : jsstring -> completion (option jsstring))
  (titleEls : list Heading) : list SearchResult :=
  match titleEls with
  | [] => []
  | titleEl :: rest =>
      let title := trim (h3_textContent titleEl) in
      match closest_href titleEl with
      | None => extractResultsFromDocument searchParam rest
      | Some link =>
          if negb (truthy title) || negb (truthy link)
          then extractResultsFromDocument searchParam rest
          else
            let finalLink := finalLinkOf searchParam link in
            if startsWith finalLink (js "/") || includes finalLink (js "google.com")
            then extractResultsFromDocument searchParam rest
            else
              {| title := title; link := finalLink;
                 snippet := snippetOf title (closest_container titleEl) |}
              :: extractResultsFromDocument searchParam rest
      end
  end.

(** A heading whose link goes through Google's redirect, and a stand-in for
    the URL parser on it. *)
Definition redirectHeading : Heading :=
  {| h3_textContent := js " Rocq Prover ";
     closest_href := Some (js "/url?q=https://rocq-prover.org/&sa=U");
     closest_container :=
       Some {| snippetEl_textContent := None;
               span_textContents :=
                 [ js "Rocq Prover";
                   js "Rocq is a formal proof management system with a long history." ] |} |}.

Definition redirectParam (link : jsstring) : completion (option jsstring) :=
  if str_eqb link (js "/url?q=https://rocq-prover.org/&sa=U")
  then Ok (Some (js "https://rocq-prover.org/"))
  else Ok None.

End GoogleExtract.

(** ** The browser fetch module: [cleanupContextPages] *)

Module ContextPages.

(** A page of the context: its identity, the outcome of [isClosed()] and the
    outcome of [close()]. *)
Record ContextPage : Type := {
  pageId : nat;
  pageIsClosed : completion bool;
  pageClose : completion unit
}.

Definition isKeepAlive (keepAlivePage : option nat) (p : ContextPage) : bool :=
  match keepAlivePage with
  | Some k => pageId p =? k
  | None => false
  end.

(** The [for] loop inside the [try]: the identities of the pages on which
    [close()] is called.  A call of [isClosed()] that throws ends the loop
    (the [catch] of the function swallows it); a [close()] that rejects is
    caught on the spot. *)
Fixpoint closeCalls (pages : list ContextPage) (keepAlivePage : option nat) : list nat :=
  match pages with
  | [] => []
  | p :: rest =>
      if isKeepAlive keepAlivePage p then closeCalls rest keepAlivePage
      else match pageIsClosed p with
           | Throw _ => []
           | Ok true => closeCalls rest keepAlivePage
           | Ok false => pageId p :: closeCalls rest keepAlivePage
           end
  end.

(** [cleanupContextPages(context, keepAlivePage)]; [pages] is the outcome of
    [context.pages()]. *)
Definition cleanupContextPages (pages : completion (list ContextPage))
  (keepAlivePage : option nat) : completion unit * list nat :=
  match pages with
  | Ok ps => (Ok tt, closeCalls ps keepAlivePage)
  | Throw _ => (Ok tt, [])
  end.

Definition isOpen (p : ContextPage) : bool :=
  match pageIsClosed p with
  | Ok false => true
  | _ => false
  end.

End ContextPages.

(** ** lib/daemon.js: the events of a command *)

Module HandlerEvents.

Import Daemon.

Definition isCleanup (e : event) : bool :=
  match e with CleanupContextPages => true | _ => false end.

End HandlerEvents.

(** ** lib/daemon-client.js *)

Module DaemonClient.

Import Daemon.

(** The reply of the daemon on the wire, as lines 129-134 of the daemon
    write it. *)
Definition envelope (reply : HttpReply json) : json :=
  match reply with
  | Reply200 data => JObject [(js "success", JBool true); (js "data", data)]
  | Reply400 error => JObject [(js "success", JBool false); (js "error", JString error)]
  end.

(** [typeof v === "object"] for a value that is not [null]. *)
Definition isObject (v : json) : bool :=
  match v with
  | JObject _ | JArray _ => true
  | _ => false
  end.

(** [json.key] for a truthy [json]. *)
Definition property (v : json) (key : string) : jsvalue :=
  match getProperty v (js key) with
  | Ok p => p
  | Throw _ => None
  end.

(** [sendDaemonCommand]; [exchange] is the outcome of the [fetch] (it may
    throw) and, inside, of [response.json()]. *)
Definition sendDaemonCommand (daemonUrl command : jsstring)
  (exchange : completion (completion json)) : completion jsvalue :=
  if negb (truthy daemonUrl) then Throw (newError (js "sendDaemonCommand requires daemonUrl"))
  else if negb (truthy command) then Throw (newError (js "sendDaemonCommand requires command"))
  else
    response <- exchange ;;
    let parsed := match response with Ok v => v | Throw _ => JNull end in
    if negb (truthyJson (Some parsed)) || negb (isObject parsed)
    then Throw (newError (js "invalid daemon response"))
    else if negb (truthyJson (property parsed "success"))
    then Throw (newError
                  (match property parsed "error" with
                   | Some e => if truthyJson (Some e) then jsonToString e
                               else js "daemon command failed"
                   | None => js "daemon command failed"
                   end))
    else Ok (property parsed "data").

(** The response to a request of [/health]. *)
Record HealthResponse : Type := {
  health_ok : bool;
  health_json : completion json
}.

(** [payload && payload.status === "ok"] *)
Definition statusIsOk (payload : json) : bool :=
  truthyJson (Some payload)
  && match property payload "status" with
     | Some (JString s) => str_eqb s (js "ok")
     | _ => false
     end.

(** [checkDaemonHealth]; [request] is the outcome of the [fetch]. *)
Definition checkDaemonHealth (daemonUrl : jsstring) (request : completion HealthResponse)
  : completion (option json) :=
  if negb (truthy daemonUrl) then Throw (newError (js "checkDaemonHealth requires daemonUrl"))
  else
    Ok (match request with
        | Throw _ => None
        | Ok response =>
            if negb (health_ok response) then None
            else match health_json response with
                 | Throw _ => None
                 | Ok payload => if statusIsOk payload then Some payload else None
                 end
        end).

(** [parseInt(s, 10)]: leading white space, an optional sign, then the
    longest run of digits; [None] is [NaN]. *)
Definition digitValue (c : ascii) : option Z :=
  let n := nat_of_ascii c in
  if (48 <=? n) && (n <=? 57) then Some (Z.of_nat (n - 48)) else None.

Fixpoint digits (s : jsstring) (acc : option Z) : option Z :=
  match s with
  | [] => acc
  | c :: rest =>
      match digitValue c with
      | Some d => digits rest (Some (10 * match acc with Some a => a | None => 0 end + d)%Z)
      | None => acc
      end
  end.

Definition parseInt (s : jsstring) : option Z :=
  match trimStart s with
  | c :: rest =>
      if ascii_eqb c "-"%char then option_map Z.opp (digits rest None)
      else if ascii_eqb c "+"%char then digits rest None
      else digits (c :: rest) None
  | [] => None
  end.

(** The machine as the client sees it: the pid file, the process table,
    the signal, and the outcome of the [k]-th request of [/health]. *)
Record ClientWorld : Type := {
  pidFileExists : completion bool;
  pidFileText : completion jsstring;
  processRunning : Z -> bool;
  sigterm : Z -> completion unit;
  healthRequests : nat -> completion HealthResponse
}.

Definition getDaemonPid (w : ClientWorld) (daemonPidFile : jsstring) : completion (option Z) :=
  if negb (truthy daemonPidFile) then Throw (newError (js "getDaemonPid requires daemonPidFile"))
  else
    Ok (match pidFileExists w with
        | Throw _ => None
        | Ok false => None
        | Ok true =>
            match pidFileText w with
            | Throw _ => None
            | Ok text => parseInt (trim text)
            end
        end).

Inductive clientEvent : Type :=
| Kill (pid : Z)
| HealthRequest (k : nat)
| Spawn (args : list jsstring).

Inductive StopStatus : Type :=
| NotRunning
| Stopped
| Stopping (pid : Z).

Definition healthy (w : ClientWorld) (daemonUrl : jsstring) (k : nat) : bool :=
  match checkDaemonHealth daemonUrl (healthRequests w k) with
  | Ok (Some _) => true
  | _ => false
  end.

(** The [k]-th call of [checkDaemonHealth]: the request is made once the
    argument has been checked. *)
Definition checkHealthAt (w : ClientWorld) (daemonUrl : jsstring) (k : nat)
  : Eff clientEvent (option json) :=
  if negb (truthy daemonUrl) then lift (checkDaemonHealth daemonUrl (healthRequests w k))
  else
    _ <~ emit (HealthRequest k) ;;
    lift (checkDaemonHealth daemonUrl (healthRequests w k)).

(** The polling loop of [stopDaemon]; [k] requests of [/health] were made
    before. *)
Fixpoint awaitShutdown (w : ClientWorld) (daemonUrl : jsstring) (pid : Z)
  (k remaining : nat) : Eff clientEvent StopStatus :=
  match remaining with
  | 0 => ret (Stopping pid)
  | S remaining' =>
      health <~ checkHealthAt w daemonUrl k ;;
      match health with
      | None => ret Stopped
      | Some _ => awaitShutdown w daemonUrl pid (S k) remaining'
      end
  end.

Definition stopDaemon (w : ClientWorld) (daemonUrl daemonPidFile : jsstring)
  : Eff clientEvent StopStatus :=
  if negb (truthy daemonUrl) then throwE (newError (js "stopDaemon requires daemonUrl"))
  else if negb (truthy daemonPidFile)
  then throwE (newError (js "stopDaemon requires daemonPidFile"))
  else
    pid <~ lift (getDaemonPid w daemonPidFile) ;;
    match pid with
    | None => ret NotRunning
    | Some pid =>
        if (pid =? 0)%Z then ret NotRunning
        else if negb (processRunning w pid) then ret NotRunning
        else
          _ <~ emit (Kill pid) ;;
          _ <~ lift (tryCatch (sigterm w pid)
                       (fun err =>
                          Throw (newError (js "failed to stop daemon pid=" ++ numberToString pid
                                           ++ js ": " ++ messageOf err)))) ;;
          awaitShutdown w daemonUrl pid 0 20
    end.

(** The polling loop of [startDaemonInBackground]. *)
Fixpoint awaitHealthy (w : ClientWorld) (daemonUrl : jsstring) (k remaining : nat)
  : Eff clientEvent json :=
  match remaining with
  | 0 => throwE (newError (js "daemon failed to start on " ++ daemonUrl))
  | S remaining' =>
      health <~ checkHealthAt w daemonUrl k ;;
      match health with
      | Some payload => ret payload
      | None => awaitHealthy w daemonUrl (S k) remaining'
      end
  end.

(** [startDaemonInBackground]; [k] requests of [/health] were made before. *)
Definition startDaemonInBackground (w : ClientWorld)
  (scriptPath daemonUrl daemonPidFile : jsstring) (forwardedArgs : list jsstring) (k : nat)
  : Eff clientEvent json :=
  if negb (truthy scriptPath)
  then throwE (newError (js "startDaemonInBackground requires scriptPath"))
  else if negb (truthy daemonUrl)
  then throwE (newError (js "startDaemonInBackground requires daemonUrl"))
  else if negb (truthy daemonPidFile)
  then throwE (newError (js "startDaemonInBackground requires daemonPidFile"))
  else
    _ <~ emit (Spawn (scriptPath :: js "--daemon-run" :: forwardedArgs)) ;;
    awaitHealthy w daemonUrl k 20.

Definition ensureDaemonRunning (w : ClientWorld)
  (scriptPath daemonUrl daemonPidFile : jsstring) (forwardedArgs : list jsstring)
  : Eff clientEvent json :=
  health <~ checkHealthAt w daemonUrl 0 ;;
  match health with
  | Some payload => ret payload
  | None => startDaemonInBackground w scriptPath daemonUrl daemonPidFile forwardedArgs 1
  end.

Definition isSpawn (e : clientEvent) : bool :=
  match e with Spawn _ => true | _ => false end.

Definition isHealthRequest (e : clientEvent) : bool :=
  match e with HealthRequest _ => true | _ => false end.

(** *** Samples *)

Definition okHealth : HealthResponse :=
  {| health_ok := true;
     health_json := Ok (JObject [(js "status", JString (js "ok")); (js "pid", JNumber 4242)]) |}.

Definition noHealth : completion HealthResponse :=
  Throw (ErrorObject (js "TypeError") (js "fetch failed") None).

(** A machine on which the daemon with pid 4242 answers the first two
    requests of [/health] after the signal and is gone at the third. *)
Definition stoppingWorld : ClientWorld :=
  {| pidFileExists := Ok true;
     pidFileText := Ok (js "4242" ++ [LF]);
     processRunning := fun _ => true;
     sigterm := fun _ => Ok tt;
     healthRequests := fun k => if k <? 2 then Ok okHealth else noHealth |}.

(** A machine on which no daemon answers before the third request. *)
Definition startingWorld : ClientWorld :=
  {| pidFileExists := Ok false;
     pidFileText := Ok [];
     processRunning := fun _ => false;
     sigterm := fun _ => Ok tt;
     healthRequests := fun k => if k <? 2 then noHealth else Ok okHealth |}.

End DaemonClient.

(** ** lib/cdp.js: the debugging endpoint and the launch *)

Module CdpSession.

Import Daemon DaemonClient Cdp.

(** The response to one request of [/json/version]. *)
Record VersionResponse : Type := {
  version_ok : bool;
  version_json : completion json
}.

(** The test of lines 19-24 on the payload. *)
Definition hasSocketUrl (payload : json) : bool :=
  truthyJson (Some payload)
  && isObject payload
  && match property payload "webSocketDebuggerUrl" with
     | Some (JString s) => startsWith s (js "ws")
     | _ => false
     end.

(** [waitForCdpVersion]; [polls] are the outcomes of the requests made
    before the time is over, one every 300 ms. *)
Fixpoint waitForCdpVersion (polls : list (completion VersionResponse)) : option json :=
  match polls with
  | [] => None
  | poll :: rest =>
      match poll with
      | Ok response =>
          if version_ok response then
            match version_json response with
            | Ok payload =>
                if hasSocketUrl payload then Some payload else waitForCdpVersion rest
            | Throw _ => waitForCdpVersion rest
            end
          else waitForCdpVersion rest
      | Throw _ => waitForCdpVersion rest
      end
  end.

(** [waitForCdp] *)
Definition waitForCdp (polls : list (completion VersionResponse)) : bool :=
  match waitForCdpVersion polls with
  | Some payload => truthyJson (Some payload)
  | None => false
  end.

(** One poll is accepted. *)
Definition accepted (poll : completion VersionResponse) : bool :=
  match waitForCdpVersion [poll] with Some _ => true | None => false end.

(** [isLikelyUsableBrowserCdp]; [None] is [null]. *)
Definition isLikelyUsableBrowserCdp (versionPayload : option json) : bool :=
  match versionPayload with
  | None => false
  | Some v =>
      if negb (truthyJson (Some v)) || negb (isObject v) then false
      else
        let userAgent :=
          match property v "User-Agent" with
          | Some (JString s) => s
          | _ => []
          end in
        if includes (toLowerCase userAgent) (js "electron/") then false else true
  end.

Record CdpOptions : Type := {
  useCdp : bool;
  cdpStart : bool;
  cdpPort : Z
}.

(** [resolveCdpOptions]; [probe port] is the value of
    [waitForCdpVersion(port, 1000)], and the list returned holds the ports
    probed. *)
Definition resolveCdpOptions (probe : Z -> option json)
  (useCdpFlag cdpStartFlag : bool) (cdpPortValue : Z) : CdpOptions * list Z :=
  let effectiveUseCdp := useCdpFlag || cdpStartFlag in
  let effectiveCdpStart := cdpStartFlag in
  if negb effectiveUseCdp && negb effectiveCdpStart then
    if isLikelyUsableBrowserCdp (probe 9225%Z) then
      ({| useCdp := true; cdpStart := effectiveCdpStart; cdpPort := 9225 |}, [9225%Z])
    else if isLikelyUsableBrowserCdp (probe 9222%Z) then
      ({| useCdp := true; cdpStart := effectiveCdpStart; cdpPort := 9222 |},
       [9225%Z; 9222%Z])
    else
      ({| useCdp := true; cdpStart := true; cdpPort := 9225 |}, [9225%Z; 9222%Z])
  else
    ({| useCdp := effectiveUseCdp; cdpStart := effectiveCdpStart; cdpPort := cdpPortValue |},
     []).

(** *** The launch *)

(** The set of pids of spawned browsers, as a list without order. *)
Definition setAdd (pid : Z) (pids : list Z) : list Z :=
  if existsb (Z.eqb pid) pids then pids else pids ++ [pid].

Definition setDelete (pid : Z) (pids : list Z) : list Z :=
  filter (fun q => negb (Z.eqb pid q)) pids.

(** What the launch meets: the outcome of [resolveBrowserBin], the operating
    system of the port negotiation, the pid of the spawned process ([None]
    when it has none), the polls of [waitForCdp(port, 15000)], and the
    outcomes of killing the process group and of [proc.kill()]. *)
Record LaunchWorld : Type := {
  resolvedBin : completion jsstring;
  system : OS;
  spawnedPid : option Z;
  versionPolls : Z -> list (completion VersionResponse);
  killGroup : Z -> completion unit;
  killProcess : completion unit
}.

Inductive launchEvent : Type :=
| SpawnBrowser (bin : jsstring) (port : Z)
| KillGroup (pid : Z)
| KillProcess.

Record Launched : Type := {
  launched_pid : option Z;
  launched_port : Z;
  launched_bin : jsstring
}.

(** [proc.pid] is truthy. *)
Definition livePid (pid : option Z) : option Z :=
  match pid with
  | Some p => if (p =? 0)%Z then None else Some p
  | None => None
  end.

Definition killBrowserProcess (w : LaunchWorld) : list launchEvent :=
  match livePid (spawnedPid w) with
  | None => []
  | Some pid =>
      match killGroup w pid with
      | Ok _ => [KillGroup pid]
      | Throw _ => [KillGroup pid; KillProcess]
      end
  end.

Definition startBrowserForCdp (w : LaunchWorld) (preferredPort : Z)
  (spawnedProcessGroupPids : option (list Z))
  : completion Launched * option (list Z) * list launchEvent :=
  match resolvedBin w with
  | Throw e => (Throw e, spawnedProcessGroupPids, [])
  | Ok bin =>
      match chooseAvailablePort (system w) preferredPort with
      | Throw e => (Throw e, spawnedProcessGroupPids, [])
      | Ok port =>
          let registered :=
            match spawnedProcessGroupPids, livePid (spawnedPid w) with
            | Some pids, Some pid => Some (setAdd pid pids)
            | _, _ => spawnedProcessGroupPids
            end in
          if waitForCdp (versionPolls w port) then
            (Ok {| launched_pid := spawnedPid w; launched_port := port;
                   launched_bin := bin |},
             registered, [SpawnBrowser bin port])
          else
            (Throw (newError (js "Failed to start browser with CDP on port "
                              ++ numberToString port ++ js " (bin=" ++ bin ++ js ")")),
             match registered, livePid (spawnedPid w) with
             | Some pids, Some pid => Some (setDelete pid pids)
             | _, _ => registered
             end,
             SpawnBrowser bin port :: killBrowserProcess w)
      end
  end.

(** *** Samples *)

Definition versionPayload : json :=
  JObject [ (js "Browser", JString (js "Chrome/131.0.0.0"));
            (js "User-Agent", JString (js "Mozilla/5.0 Chrome/131.0.0.0 Safari/537.36"));
            (js "webSocketDebuggerUrl",
             JString (js "ws://127.0.0.1:9222/devtools/browser/1")) ].

Definition startingPolls : list (completion VersionResponse) :=
  [ Throw (ErrorObject (js "TypeError") (js "fetch failed") None);
    Ok {| version_ok := false; version_json := Throw (newError (js "no body")) |};
    Ok {| version_ok := true; version_json := Ok versionPayload |} ].

End CdpSession.

(** ** lib/browser-bin.js *)

Module BrowserBin.

(** What the module reads of its surroundings: [os.platform()], the
    environment of the process, [path.delimiter] and [path.join], and the
    file system through [existsSync] and [accessSync(_, X_OK)]. *)
Record Platform : Type := {
  platform : jsstring;
  processEnv : string -> option jsstring;
  delimiter : ascii;
  join : list jsstring -> jsstring;
  existsSync : jsstring -> bool;
  accessSync : jsstring -> completion unit
}.

Definition IS_MACOS (p : Platform) : bool := str_eqb (platform p) (js "darwin").
Definition IS_WINDOWS (p : Platform) : bool := str_eqb (platform p) (js "win32").

Definition MACOS_BROWSER_PATHS : list jsstring :=
  [ js "/Applications/Brave Browser.app/Contents/MacOS/Brave Browser";
    js "/Applications/Google Chrome.app/Contents/MacOS/Google Chrome";
    js "/Applications/Google Chrome Canary.app/Contents/MacOS/Google Chrome Canary";
    js "/Applications/Chromium.app/Contents/MacOS/Chromium";
    js "/Applications/Microsoft Edge.app/Contents/MacOS/Microsoft Edge" ].

Definition LINUX_BROWSER_NAMES : list jsstring :=
  [ js "brave"; js "brave-browser"; js "google-chrome"; js "google-chrome-stable";
    js "chromium"; js "chromium-browser" ].

(** [env.KEY || ""] *)
Definition envOrEmpty (env : string -> option jsstring) (key : string) : jsstring :=
  match env key with
  | Some v => v
  | None => []
  end.

Definition WINDOWS_BROWSER_PATHS (p : Platform) : list jsstring :=
  let local := envOrEmpty (processEnv p) "LOCALAPPDATA" in
  let programs := envOrEmpty (processEnv p) "PROGRAMFILES" in
  let programs86 := envOrEmpty (processEnv p) "PROGRAMFILES(X86)" in
  [ join p [local; js "BraveSoftware"; js "Brave-Browser"; js "Application"; js "brave.exe"];
    join p [programs; js "BraveSoftware"; js "Brave-Browser"; js "Application"; js "brave.exe"];
    join p [programs86; js "BraveSoftware"; js "Brave-Browser"; js "Application"; js "brave.exe"];
    join p [local; js "Google"; js "Chrome"; js "Application"; js "chrome.exe"];
    join p [programs; js "Google"; js "Chrome"; js "Application"; js "chrome.exe"];
    join p [programs86; js "Google"; js "Chrome"; js "Application"; js "chrome.exe"];
    join p [programs; js "Microsoft"; js "Edge"; js "Application"; js "msedge.exe"];
    join p [programs86; js "Microsoft"; js "Edge"; js "Application"; js "msedge.exe"];
    join p [local; js "Chromium"; js "Application"; js "chrome.exe"] ].

Definition isExecutableFile (p : Platform) (filePath : jsstring) : bool :=
  if IS_WINDOWS p then existsSync p filePath
  else
    match accessSync p filePath with
    | Ok _ => true
    | Throw _ => false
    end.

(** [s.split(sep)] for a separator of one character. *)
Fixpoint split (sep : ascii) (s : jsstring) : list jsstring :=
  match s with
  | [] => [[]]
  | c :: rest =>
      match split sep rest with
      | [] => [[c]]
      | piece :: pieces =>
          if Ascii.eqb c sep then [] :: piece :: pieces else (c :: piece) :: pieces
      end
  end.

(** [s.endsWith(suffix)] *)
Definition endsWith (s suffix : jsstring) : bool :=
  (length suffix <=? length s) && str_eqb (skipn (length s - length suffix) s) suffix.

Definition isAsciiLetter (c : ascii) : bool :=
  let n := nat_of_ascii c in
  ((65 <=? n) && (n <=? 90)) || ((97 <=? n) && (n <=? 122)).

(** [/^[A-Za-z]:/.test(name)] *)
Definition hasDriveLetter (name : jsstring) : bool :=
  match name with
  | c :: colon :: _ => isAsciiLetter c && Ascii.eqb colon ":"%char
  | _ => false
  end.

(** The test of line 63: the name is a path, to be checked as it is. *)
Definition isPathLike (p : Platform) (name : jsstring) : bool :=
  includes name (js "/")
  || (IS_WINDOWS p && (includes name (js "\") || hasDriveLetter name)).

(** The loop of lines 70-78. *)
Fixpoint searchDirs (p : Platform) (name : jsstring) (dirs : list jsstring)
  : option jsstring :=
  match dirs with
  | [] => None
  | dir :: rest =>
      let candidate := join p [dir; name] in
      if isExecutableFile p candidate then Some candidate
      else if IS_WINDOWS p && negb (endsWith (toLowerCase name) (js ".exe")) then
        let candidateExe := join p [dir; name ++ js ".exe"] in
        if isExecutableFile p candidateExe then Some candidateExe
        else searchDirs p name rest
      else searchDirs p name rest
  end.

(** [env.PATH || env.Path || ""] split at the delimiter, empty pieces
    dropped. *)
Definition pathDirs (p : Platform) (env : string -> option jsstring) : list jsstring :=
  let pathEnv :=
    match env "PATH"%string with
    | Some v => if truthy v then v else envOrEmpty env "Path"
    | None => envOrEmpty env "Path"
    end in
  filter truthy (split (delimiter p) pathEnv).

(** [findExecutableOnPath]; [None] is [null]. *)
Definition findExecutableOnPath (p : Platform) (name : jsstring)
  (env : string -> option jsstring) : option jsstring :=
  if negb (truthy name) then None
  else if isPathLike p name then
    if isExecutableFile p name then Some name else None
  else searchDirs p name (pathDirs p env).

(** A loop [for (const cand of ...) { ...; if (resolved) return resolved; }]:
    the first candidate, not skipped, that resolves to a truthy value. *)
Fixpoint firstResolved (skip : jsstring -> bool) (resolve : jsstring -> option jsstring)
  (candidates : list jsstring) : option jsstring :=
  match candidates with
  | [] => None
  | cand :: rest =>
      if skip cand then firstResolved skip resolve rest
      else
        match resolve cand with
        | Some resolved =>
            if truthy resolved then Some resolved else firstResolved skip resolve rest
        | None => firstResolved skip resolve rest
        end
  end.

(** [[a, b, c].filter(Boolean)] on values that are strings, [null] or
    [undefined]. *)
Fixpoint filterBoolean (values : list (option jsstring)) : list jsstring :=
  match values with
  | [] => []
  | Some v :: rest => if truthy v then v :: filterBoolean rest else filterBoolean rest
  | None :: rest => filterBoolean rest
  end.

Definition overrides (preferredBin : option jsstring) (env : string -> option jsstring)
  : list jsstring :=
  filterBoolean [preferredBin; env "WEB_BROWSE_BROWSER_BIN"%string; env "BRAVE_BIN"%string].

Definition osCandidates (p : Platform) : list jsstring :=
  if IS_MACOS p then MACOS_BROWSER_PATHS
  else if IS_WINDOWS p then WINDOWS_BROWSER_PATHS p
  else LINUX_BROWSER_NAMES.

Definition osName (p : Platform) : jsstring :=
  if IS_MACOS p then js "macOS"
  else if IS_WINDOWS p then js "Windows"
  else js "Linux".

(** [!cand || cand.startsWith(join("", ""))] *)
Definition skipped (p : Platform) (cand : jsstring) : bool :=
  negb (truthy cand) || startsWith cand (join p [[]; []]).

Definition resolveOsCandidate (p : Platform) (env : string -> option jsstring)
  (cand : jsstring) : option jsstring :=
  if IS_WINDOWS p then (if isExecutableFile p cand then Some cand else None)
  else findExecutableOnPath p cand env.

(** [items.join(", ")] *)
Fixpoint joinWith (sep : jsstring) (items : list jsstring) : jsstring :=
  match items with
  | [] => []
  | [item] => item
  | item :: rest => item ++ sep ++ joinWith sep rest
  end.

Definition notFound (p : Platform) (tried : list jsstring) : thrown :=
  newError (js "No supported browser binary found on " ++ osName p ++ js ". "
            ++ js "Set WEB_BROWSE_BROWSER_BIN or BRAVE_BIN, or pass --browser-bin <path>. "
            ++ js "Tried: " ++ joinWith (js ", ") tried).

Definition resolveBrowserBin (p : Platform) (preferredBin : option jsstring)
  (env : string -> option jsstring) : completion jsstring :=
  match firstResolved (fun _ => false) (fun cand => findExecutableOnPath p cand env)
          (overrides preferredBin env) with
  | Some resolved => Ok resolved
  | None =>
      match firstResolved (skipped p) (resolveOsCandidate p env) (osCandidates p) with
      | Some resolved => Ok resolved
      | None =>
          Throw (notFound p (overrides preferredBin env ++ filter truthy (osCandidates p)))
      end
  end.

(** *** Samples *)

(** [path.join] of POSIX on segments that need no normalisation. *)
Fixpoint posixJoin (segments : list jsstring) : jsstring :=
  match segments with
  | [] => js "."
  | segment :: rest =>
      if truthy segment then
        match filter truthy rest with
        | [] => segment
        | _ => segment ++ js "/" ++ posixJoin rest
        end
      else posixJoin rest
  end.

Definition linuxBox : Platform := {|
  platform := js "linux";
  processEnv := fun _ => None;
  delimiter := ":"%char;
  join := posixJoin;
  existsSync := fun _ => true;
  accessSync := fun path =>
    if str_eqb path (js "/usr/bin/chromium") || str_eqb path (js "/opt/brave/brave")
    then Ok tt
    else Throw (ErrorObject (js "Error") (js "EACCES: permission denied") None)
|}.

Definition linuxEnv (key : string) : option jsstring :=
  if String.eqb key "PATH"%string then Some (js "/usr/local/bin::/usr/bin")
  else if String.eqb key "BRAVE_BIN"%string then Some (js "/opt/brave/brave")
  else None.

End BrowserBin.

(** ** The pid file, from the daemon to the client *)

Module PidFile.

Import DaemonClient.

(** lib/daemon.js, line 146: what [writeFileSync(daemonPidFile,
    String(process.pid))] puts into the file. *)
Definition pidFileContents (pid : Z) : jsstring := numberToString pid.

(** A decimal digit, as [parseInt(_, 10)] takes it. *)
Definition isDigit (c : ascii) : bool :=
  match digitValue c with Some _ => true | None => false end.

(** The machine once the daemon listens and has written its pid file. *)
Definition afterListen (w : ClientWorld) (pid : Z) : ClientWorld := {|
  pidFileExists := Ok true;
  pidFileText := Ok (pidFileContents pid);
  processRunning := processRunning w;
  sigterm := sigterm w;
  healthRequests := healthRequests w
|}.

End PidFile.

(** * Properties *)

Unset Implicit Arguments.

(** ** JavaScript strings *)

Module JsStringFacts.

Lemma ascii_eqb_true (a b : ascii) : ascii_eqb a b = true <-> a = b.
Proof. unfold ascii_eqb. apply Ascii.eqb_eq. Qed.

Lemma str_eqb_true (a b : jsstring) : str_eqb a b = true <-> a = b.
Proof.
  revert b. induction a as [|x a IH]; intros [|y b]; simpl; split; intro H;
    try reflexivity; try discriminate.
  - apply andb_true_iff in H as [Hx Hab].
    apply ascii_eqb_true in Hx. apply IH in Hab. congruence.
  - injection H as -> ->. apply andb_true_iff. split.
    + now apply ascii_eqb_true.
    + now apply IH.
Qed.

Lemma startsWith_spec (s p : jsstring) :
  startsWith s p = true <-> exists post, s = p ++ post.
Proof.
  revert s. induction p as [|x p IH]; intros s.
  - destruct s; simpl; split; intros _; try reflexivity; eexists; reflexivity.
  - destruct s as [|y s]; simpl.
    + split; [discriminate | intros [post H]; discriminate].
    + rewrite andb_true_iff, ascii_eqb_true, IH. split.
      * intros [-> [post ->]]. now exists post.
      * intros [post H]. injection H as -> ->. split; [reflexivity | now exists post].
Qed.

Lemma includes_nil (m : jsstring) : includes [] m = startsWith [] m.
Proof. simpl. apply orb_false_r. Qed.

Lemma includes_cons (c : ascii) (s m : jsstring) :
  includes (c :: s) m = startsWith (c :: s) m || includes s m.
Proof. reflexivity. Qed.

Lemma includes_spec (s m : jsstring) :
  includes s m = true <-> Substring m s.
Proof.
  unfold Substring. induction s as [|c s IH].
  - rewrite includes_nil, startsWith_spec. split.
    + intros [post H]. exists [], post. exact H.
    + intros [pre [post H]]. destruct pre; simpl in H.
      * now exists post.
      * discriminate.
  - rewrite includes_cons, orb_true_iff, startsWith_spec, IH. split.
    + intros [[post H] | [pre [post H]]].
      * exists [], post. exact H.
      * exists (c :: pre), post. simpl. now rewrite H.
    + intros [pre [post H]]. destruct pre as [|c' pre]; simpl in H.
      * left. now exists post.
      * right. injection H as -> ->. now exists pre, post.
Qed.

Lemma includes_false (s m : jsstring) :
  includes s m = false <-> ~ Substring m s.
Proof.
  rewrite <- includes_spec. destruct (includes s m); split; intro H;
    try reflexivity; try discriminate; try (intro; discriminate).
  exfalso. now apply H.
Qed.

Lemma startsWith_occurs (s m : jsstring) (k : nat) :
  k <= length s -> (startsWith (skipn k s) m = true <-> OccursAt m s k).
Proof.
  intros Hk. unfold OccursAt. rewrite startsWith_spec. split.
  - intros [post H]. now exists post.
  - intros [post [H _]]. now exists post.
Qed.

(** [lastIndexFrom] returns the last occurrence at or before [k]. *)
Lemma lastIndexFrom_found (s m : jsstring) (k : nat) (r : Z) :
  k <= length s -> lastIndexFrom s m k = r -> (0 <= r)%Z ->
  (Z.to_nat r <= k) /\ OccursAt m s (Z.to_nat r)
  /\ forall j, Z.to_nat r < j <= k -> ~ OccursAt m s j.
Proof.
  induction k as [|k IH]; intros Hk Hr Hpos; cbn [lastIndexFrom] in Hr.
  - destruct (startsWith (skipn 0 s) m) eqn:E.
    + subst r. rewrite Nat2Z.id. split; [lia | split].
      * apply startsWith_occurs; [lia | exact E].
      * intros j Hj; lia.
    + lia.
  - destruct (startsWith (skipn (S k) s) m) eqn:E.
    + subst r. rewrite Nat2Z.id. split; [lia | split].
      * apply startsWith_occurs; [lia | exact E].
      * intros j Hj; lia.
    + destruct (IH ltac:(lia) Hr Hpos) as [Hle [Hocc Hlast]].
      split; [lia | split; [exact Hocc |]].
      intros j Hj Hoc. destruct (Nat.eq_dec j (S k)) as [-> | Hne].
      * apply startsWith_occurs in Hoc; [congruence | lia].
      * apply (Hlast j); [lia | exact Hoc].
Qed.

Lemma lastIndexFrom_range (s m : jsstring) (k : nat) :
  (-1 <= lastIndexFrom s m k <= Z.of_nat k)%Z.
Proof.
  induction k as [|k IH]; cbn [lastIndexFrom].
  - destruct (startsWith _ _); lia.
  - destruct (startsWith _ _); lia.
Qed.

Lemma lastIndexFrom_missing (s m : jsstring) (k : nat) :
  k <= length s -> (lastIndexFrom s m k < 0)%Z ->
  forall j, j <= k -> ~ OccursAt m s j.
Proof.
  induction k as [|k IH]; intros Hk Hr j Hj Hoc; cbn [lastIndexFrom] in Hr.
  - assert (j = 0) by lia. subst j.
    apply startsWith_occurs in Hoc; [| lia]. rewrite Hoc in Hr. lia.
  - destruct (startsWith (skipn (S k) s) m) eqn:E; [lia |].
    destruct (Nat.eq_dec j (S k)) as [-> | Hne].
    + apply startsWith_occurs in Hoc; [congruence | lia].
    + apply (IH ltac:(lia) Hr j); [lia | exact Hoc].
Qed.

End JsStringFacts.

(** ** JavaScript numbers *)

Module JsNumberFacts.

Lemma atLeast_finite (n : nat) (q : Q) :
  atLeast n (Finite q) = false <-> (inject_Z (Z.of_nat n) < q)%Q.
Proof.
  unfold atLeast, geq, ofZ. split.
  - intros H. apply Qnot_le_lt. intros Hle. apply Qle_bool_iff in Hle. congruence.
  - intros H. destruct (Qle_bool q (inject_Z (Z.of_nat n))) eqn:E; [| reflexivity].
    apply Qle_bool_iff in E. now apply Qlt_not_le in H.
Qed.

Lemma atLeast_integral (n : nat) (q : Q) (k : Z) :
  (q == inject_Z k)%Q -> atLeast n (Finite q) = (k <=? Z.of_nat n)%Z.
Proof.
  intros Hq. destruct (Z.leb_spec k (Z.of_nat n)) as [Hle | Hlt].
  - unfold atLeast, geq, ofZ. apply Qle_bool_iff. rewrite Hq, <- Zle_Qle. exact Hle.
  - apply atLeast_finite. rewrite Hq, <- Zlt_Qlt. exact Hlt.
Qed.

(** An array that a guarded loop built holds no more than an integral count,
    and fewer than any finite count plus one. *)
Lemma withinGuard_integral (n : nat) (q : Q) (k : Z) :
  (q == inject_Z k)%Q -> withinGuard n (Finite q) -> (Z.of_nat n <= Z.max k 0)%Z.
Proof.
  intros Hq [-> | Hlast]; [lia |].
  rewrite (atLeast_integral _ q k Hq) in Hlast. apply Z.leb_gt in Hlast. lia.
Qed.

Lemma withinGuard_finite (n : nat) (q : Q) :
  withinGuard n (Finite q) -> n = 0 \/ (inject_Z (Z.of_nat n) < q + 1)%Q.
Proof.
  intros [-> | Hlast]; [now left |].
  destruct n as [|m]; [now left |]. right.
  apply atLeast_finite in Hlast.
  replace (S m - 1) with m in Hlast by lia.
  rewrite Nat2Z.inj_succ. unfold Z.succ. rewrite inject_Z_plus.
  change (inject_Z 1) with 1%Q. lra.
Qed.

Lemma withinGuard_not_a_number (n : nat) : withinGuard n NaN.
Proof. destruct n; [now left | now right]. Qed.

(** [Math.max(1, Math.min(num, 20))]: [NaN] for [NaN], and a finite value
    between 1 and 20 for every other number, the number itself when it lies in
    that range. *)
Lemma clamp_cases (num : number) :
  (num = NaN /\ Math_max (ofZ 1) (Math_min num (ofZ 20)) = NaN)
  \/ exists c,
       Math_max (ofZ 1) (Math_min num (ofZ 20)) = Finite c
       /\ (1 <= c <= 20)%Q
       /\ forall q, num = Finite q -> (1 <= q <= 20)%Q -> (c == q)%Q.
Proof.
  destruct num as [q | | [|]].
  - right. exists (Qmax 1 (Qmin q 20)). split; [reflexivity |]. split.
    + split; [apply Q.le_max_l |].
      apply Q.max_lub; [discriminate | apply Q.le_min_r].
    + intros q' E [Hlow Hhigh]. injection E as <-.
      rewrite (Q.min_l q 20 Hhigh). now apply Q.max_r.
  - now left.
  - right. exists 1%Q. split; [reflexivity |]. split; [split; discriminate |].
    intros q E. discriminate E.
  - right. exists 20%Q. split; [reflexivity |]. split; [split; discriminate |].
    intros q E. discriminate E.
Qed.

Lemma sliceUpTo_length {A} (c : Q) (items : list A) :
  (0 <= c)%Q ->
  (inject_Z (Z.of_nat (length (sliceUpTo (Finite c) items))) <= c)%Q.
Proof.
  intros Hc. unfold sliceUpTo, truncate.
  rewrite (proj2 (Qle_bool_iff 0 c) Hc).
  pose proof (Qfloor_resp_le 0 c Hc) as Hfloor. change (Qfloor 0) with 0%Z in Hfloor.
  destruct (Qfloor c <? 0)%Z eqn:E; [apply Z.ltb_lt in E; lia |].
  apply Qle_trans with (inject_Z (Qfloor c)); [| apply Qfloor_le].
  rewrite <- Zle_Qle, length_firstn. lia.
Qed.

(** What the slice at the clamped count leaves. *)
Lemma clamped_slice {A} (num : number) (items : list A) :
  match Math_max (ofZ 1) (Math_min num (ofZ 20)) with
  | Finite c =>
      (1 <= c <= 20)%Q
      /\ (inject_Z (Z.of_nat (length (sliceUpTo (Finite c) items))) <= c)%Q
      /\ forall q, num = Finite q -> (1 <= q <= 20)%Q -> (c == q)%Q
  | NaN => num = NaN
  | Infinity _ => False
  end.
Proof.
  destruct (clamp_cases num) as [[-> _] | (c & -> & Hrange & Hsame)]; [reflexivity |].
  split; [exact Hrange |]. split; [| exact Hsame].
  apply sliceUpTo_length. destruct Hrange as [Hlow _]. lra.
Qed.

End JsNumberFacts.

(** ** lib/bot-protection.js *)

Module BotProtectionFacts.

Import BotProtection JsStringFacts.

Lemma existsb_includes (markers : list jsstring) (s : jsstring) :
  existsb (fun m => includes s m) markers = true <-> ContainsMarker markers s.
Proof.
  unfold ContainsMarker. rewrite existsb_exists. split.
  - intros [m [Hin Hinc]]. exists m. split; [exact Hin | now apply includes_spec].
  - intros [m [Hin Hsub]]. exists m. split; [exact Hin | now apply includes_spec].
Qed.

Lemma isLikelyBotProtectionText_haystack (title text : jsstring) (markers : list jsstring) :
  isLikelyBotProtectionText title text markers
  = existsb (fun m => includes (haystack title text) m) markers.
Proof. reflexivity. Qed.

(** The two cases of the repository's test. *)
Example anubis_page_detected :
  isLikelyBotProtectionText (js "Making sure you're not a bot!")
    (js "Protected by Anubis from Techaro") DEFAULT_MARKERS = true.
Proof. vm_compute. reflexivity. Qed.

Example normal_page_not_detected :
  isLikelyBotProtectionText (js "Example Domain")
    (js "This domain is for use in illustrative examples.") DEFAULT_MARKERS = false.
Proof. vm_compute. reflexivity. Qed.

(** C4, as the claim words it, fails: the title ["Just a"] and the text
    [" moment"] concatenate to a string that contains the marker
    ["just a moment"], and the classifier, which puts a line feed between the
    two, answers [false]. *)
Lemma marker_across_title_and_text_not_detected :
  ~ (isLikelyBotProtectionText (js "Just a") (js " moment") DEFAULT_MARKERS = true
     <-> MarkerInConcatenation (js "Just a") (js " moment")).
Proof.
  intros [_ H].
  assert (Hfalse : isLikelyBotProtectionText (js "Just a") (js " moment") DEFAULT_MARKERS
                   = false) by (vm_compute; reflexivity).
  rewrite H in Hfalse; [discriminate |].
  exists (js "just a moment"). split.
  - vm_compute. tauto.
  - apply includes_spec. vm_compute. reflexivity.
Qed.

Lemma substring_lower (v s : jsstring) :
  Substring v s -> Substring (toLowerCase v) (toLowerCase s).
Proof.
  intros [pre [post ->]]. exists (toLowerCase pre), (toLowerCase post).
  unfold toLowerCase. now rewrite !map_app.
Qed.

Lemma substring_app_l (m a b : jsstring) : Substring m a -> Substring m (a ++ b).
Proof.
  intros [pre [post ->]]. exists pre, (post ++ b). now rewrite <- !app_assoc.
Qed.

Lemma substring_app_r (m a b : jsstring) : Substring m b -> Substring m (a ++ b).
Proof.
  intros [pre [post ->]]. exists (a ++ pre), post. now rewrite <- !app_assoc.
Qed.

(** C4 (amended): for every title and text, [isLikelyBotProtectionText]
    answers [true] exactly when some marker of the fixed list occurs in the
    haystack: the lower-cased title, a line feed, and the lower-cased first
    6000 characters of the text.  Matching ignores case: a marker written in
    any case anywhere in the title, or in the first 6000 characters of the
    text, is detected. *)
Theorem isLikelyBotProtectionText_iff_marker_in_haystack (title text : jsstring) :
  (isLikelyBotProtectionText title text DEFAULT_MARKERS = true
   <-> ContainsMarker DEFAULT_MARKERS
         (toLowerCase title ++ [LF] ++ toLowerCase (slice0 TEXT_LIMIT text)))
  /\ (forall v, In (toLowerCase v) DEFAULT_MARKERS -> Substring v title ->
        isLikelyBotProtectionText title text DEFAULT_MARKERS = true)
  /\ (forall v, In (toLowerCase v) DEFAULT_MARKERS ->
        Substring v (slice0 TEXT_LIMIT text) ->
        isLikelyBotProtectionText title text DEFAULT_MARKERS = true).
Proof.
  rewrite isLikelyBotProtectionText_haystack.
  split; [apply existsb_includes |]. split; intros v Hin Hsub;
    apply existsb_includes; exists (toLowerCase v); (split; [exact Hin |]).
  - apply substring_app_l. now apply substring_lower.
  - unfold haystack. apply substring_app_r, substring_app_r. now apply substring_lower.
Qed.

Lemma reads_cons_evaluate (evs : list pageEvent) :
  reads (Evaluate :: evs) = S (reads evs).
Proof. reflexivity. Qed.

Lemma reads_cons_wait (ms : nat) (evs : list pageEvent) :
  reads (WaitForTimeout ms :: evs) = reads evs.
Proof. reflexivity. Qed.

(** What one pass of the loop does, by the outcome of its read. *)
Lemma detectLoop_document p markers attempt remaining title innerText :
  p attempt = ReadDocument title innerText ->
  detectLoop p markers attempt (S remaining)
  = (Ok (isLikelyBotProtectionText title innerText markers), [Evaluate]).
Proof. intros H. simpl. now rewrite H. Qed.

Lemma detectLoop_other_error p markers attempt remaining err :
  p attempt = ReadThrows err -> isContextTornDown (messageOf err) = false ->
  detectLoop p markers attempt (S remaining) = (Ok false, [Evaluate]).
Proof. intros H Hm. simpl. now rewrite H, Hm. Qed.

Lemma detectLoop_torn_down p markers attempt remaining err :
  p attempt = ReadThrows err -> isContextTornDown (messageOf err) = true ->
  detectLoop p markers attempt (S remaining)
  = (fst (detectLoop p markers (S attempt) remaining),
     Evaluate :: WaitForTimeout 250 :: snd (detectLoop p markers (S attempt) remaining)).
Proof.
  intros H Hm. simpl. rewrite H, Hm.
  now destruct (detectLoop p markers (S attempt) remaining).
Qed.

(** The loop never throws, reads at most [remaining] times, goes on only
    after a torn-down context, and answers [false] when its last read threw. *)
Lemma detectLoop_spec p markers remaining : forall attempt,
  let r := fst (detectLoop p markers attempt remaining) in
  let n := reads (snd (detectLoop p markers attempt remaining)) in
  (exists b, r = Ok b)
  /\ n <= remaining
  /\ (0 < remaining -> 0 < n)
  /\ (forall k, S k < n ->
        exists err, p (attempt + k) = ReadThrows err
                    /\ isContextTornDown (messageOf err) = true)
  /\ (forall err, 0 < n -> p (attempt + n - 1) = ReadThrows err -> r = Ok false)
  /\ (forall err, 0 < n -> p (attempt + n - 1) = ReadThrows err ->
        isContextTornDown (messageOf err) = true -> n = remaining)
  /\ (forall title innerText, 0 < n -> p (attempt + n - 1) = ReadDocument title innerText ->
        r = Ok (isLikelyBotProtectionText title innerText markers)).
Proof.
  induction remaining as [|remaining IH]; intros attempt.
  - cbn [detectLoop fst snd]. change (reads []) with 0.
    repeat split; try lia. now exists false.
  - destruct (p attempt) as [title innerText | err] eqn:Hp.
    + rewrite (detectLoop_document p markers attempt remaining _ _ Hp). cbn [fst snd]. change (reads [Evaluate]) with 1.
      repeat split; try lia.
      * eexists; reflexivity.
      * intros err _ H. replace (attempt + 1 - 1) with attempt in H by lia. congruence.
      * intros err _ H. replace (attempt + 1 - 1) with attempt in H by lia. congruence.
      * intros t x _ H. replace (attempt + 1 - 1) with attempt in H by lia.
        rewrite Hp in H. now injection H as -> ->.
    + destruct (isContextTornDown (messageOf err)) eqn:Hm.
      * rewrite (detectLoop_torn_down p markers attempt remaining err Hp Hm). cbn [fst snd].
        rewrite reads_cons_evaluate, reads_cons_wait.
        destruct (IH (S attempt)) as (Hok & Hle & Hpos & Hretry & Hfalse & Hall & Hdoc).
        cbn zeta in *.
        set (n := reads (snd (detectLoop p markers (S attempt) remaining))) in *.
        split; [exact Hok |]. split; [lia |]. split; [lia |].
        destruct remaining as [|remaining'].
        { assert (n = 0) by lia.
          split; [intros k Hk; lia |].
          split; [intros e _ _; simpl; reflexivity |].
          split; [intros e _ _ _; lia |].
          intros t x _ H'. replace (attempt + 1 - 1) with attempt in H'
            by lia. replace (attempt + S n - 1) with attempt in H' by lia. congruence. }
        assert (Hn : 0 < n) by (apply Hpos; lia).
        split.
        { intros k Hk. destruct k as [|k].
          - exists err. now rewrite Nat.add_0_r.
          - destruct (Hretry k ltac:(lia)) as [e [He Ht]].
            exists e. split; [| exact Ht].
            now replace (attempt + S k) with (S attempt + k) by lia. }
        split.
        { intros e _ He. apply (Hfalse e Hn).
          now replace (S attempt + n - 1) with (attempt + S n - 1) by lia. }
        split.
        { intros e _ He Ht. f_equal. apply (Hall e Hn); [| exact Ht].
          now replace (S attempt + n - 1) with (attempt + S n - 1) by lia. }
        intros t x _ He. apply (Hdoc t x Hn).
        now replace (S attempt + n - 1) with (attempt + S n - 1) by lia.
      * rewrite (detectLoop_other_error p markers attempt remaining err Hp Hm). cbn [fst snd]. change (reads [Evaluate]) with 1.
        repeat split; try lia.
        -- eexists; reflexivity.
        -- intros e _ H. replace (attempt + 1 - 1) with attempt in H by lia. congruence.
        -- intros t x _ H. replace (attempt + 1 - 1) with attempt in H by lia. congruence.
Qed.

(** The events of the loop: every read that is retried is followed by a
    pause of 250 ms. *)
Lemma detectLoop_trace p markers remaining : forall attempt,
  exists j, j <= remaining
            /\ snd (detectLoop p markers attempt remaining)
               = concat (repeat [Evaluate; WaitForTimeout 250] j)
                 ++ (if j <? remaining then [Evaluate] else []).
Proof.
  induction remaining as [|remaining IH]; intros attempt.
  - exists 0. split; [lia | reflexivity].
  - destruct (p attempt) as [title innerText | err] eqn:Hp.
    + exists 0. rewrite (detectLoop_document p markers attempt remaining _ _ Hp).
      split; [lia | reflexivity].
    + destruct (isContextTornDown (messageOf err)) eqn:Hm.
      * destruct (IH (S attempt)) as [j [Hj Hevs]].
        exists (S j). rewrite (detectLoop_torn_down p markers attempt remaining err Hp Hm).
        cbn [snd]. rewrite Hevs. split; [lia | reflexivity].
      * exists 0. rewrite (detectLoop_other_error p markers attempt remaining err Hp Hm).
        split; [lia | reflexivity].
Qed.

(** C5, as the claim words it, fails: a read that throws an error other than
    a torn-down context (here ["Target closed"]) is not retried; the detector
    answers after a single read. *)
Lemma other_errors_are_not_retried :
  ~ RetriesExhaustedFirst (alwaysThrows (newError (js "Target closed"))) DEFAULT_MARKERS.
Proof.
  intros H.
  assert (Hthrows : forall k, exists err,
             alwaysThrows (newError (js "Target closed")) k = ReadThrows err)
    by (intros k; eexists; reflexivity).
  specialize (H Hthrows). vm_compute in H. discriminate.
Qed.

(** C5 (amended): [isLikelyBotProtectionPage] never throws and reads the page
    between one and three times; a read is followed by another one, after a
    pause of 250 ms, only when it threw an error whose message says that the
    execution context was torn down, so that an error of this kind is retried
    until three reads are made and any other error ends the detection at once;
    and whenever the last read threw, the answer is [false] (not blocked). *)
Theorem isLikelyBotProtectionPage_fails_open (p : page) (markers : list jsstring) :
  let r := fst (isLikelyBotProtectionPage p markers) in
  let evs := snd (isLikelyBotProtectionPage p markers) in
  let n := reads evs in
  (exists b, r = Ok b)
  /\ 1 <= n <= 3
  /\ (forall k, S k < n ->
        exists err, p k = ReadThrows err /\ isContextTornDown (messageOf err) = true)
  /\ (forall err, p (n - 1) = ReadThrows err -> r = Ok false)
  /\ (forall err, p (n - 1) = ReadThrows err ->
        isContextTornDown (messageOf err) = true -> n = 3)
  /\ (forall title innerText, p (n - 1) = ReadDocument title innerText ->
        r = Ok (isLikelyBotProtectionText title innerText markers))
  /\ (exists j, evs = concat (repeat [Evaluate; WaitForTimeout 250] j)
                      ++ (if j <? 3 then [Evaluate] else [])).
Proof.
  unfold isLikelyBotProtectionPage.
  destruct (detectLoop_spec p markers 3 0) as (Hok & Hle & Hpos & Hretry & Hfalse & Hall & Hdoc).
  destruct (detectLoop_trace p markers 3 0) as [j [_ Htrace]].
  cbn zeta in *.
  set (n := reads (snd (detectLoop p markers 0 3))) in *.
  assert (Hn : 0 < n) by (apply Hpos; lia).
  cbn [Nat.add] in *.
  split; [exact Hok |]. split; [lia |]. split; [exact Hretry |].
  split; [intros err He; now apply (Hfalse err Hn) |].
  split; [intros err He Ht; now apply (Hall err Hn) |].
  split; [intros t x He; now apply (Hdoc t x Hn) |].
  now exists j.
Qed.

End BotProtectionFacts.

(** ** lib/extract.js *)

Module ExtractFacts.

Import Extract JsStringFacts.

Lemma parseHtmlToContent_content (L : Libraries) (html url : jsstring) (truncate : bool)
  (r : ParsedContent) (c : jsstring) :
  parseHtmlToContent L html url truncate = Ok r ->
  trimmedContent L html url = Ok c ->
  content r = truncateContent truncate c.
Proof.
  unfold parseHtmlToContent, trimmedContent.
  destruct (tryCatch (JSDOM L html url) (fun _ => JSDOM_outsideOnly L html url))
    as [dom | e]; cbn [bind]; intros Hr Hc; [| discriminate].
  injection Hr as <-. injection Hc as <-. reflexivity.
Qed.

Lemma truncateContent_off (c : jsstring) : truncateContent false c = c.
Proof. reflexivity. Qed.

Lemma truncateContent_short (c : jsstring) :
  length c <= 2000 -> truncateContent true c = c.
Proof.
  intros H. unfold truncateContent.
  replace (2000 <? length c) with false; [reflexivity |].
  symmetry. apply Nat.ltb_ge. exact H.
Qed.

Lemma truncateContent_long (c : jsstring) :
  2000 < length c ->
  exists cut,
    truncateContent true c = slice0 cut c ++ TRUNCATION_MARKER
    /\ ((1000 < cut <= 2000 /\ BreakAt c cut
         /\ forall j, cut < j <= 2000 -> ~ BreakAt c j)
        \/ (cut = 2000 /\ forall j, 1000 < j <= 2000 -> ~ BreakAt c j)).
Proof.
  intros Hlen. unfold truncateContent.
  replace (2000 <? length c) with true by (symmetry; apply Nat.ltb_lt; exact Hlen).
  cbn [andb]. unfold lastIndexOf.
  replace (Nat.min 2000 (length c)) with 2000 by lia.
  remember (lastIndexFrom c PARAGRAPH_BREAK 2000) as cutPoint eqn:Hcut.
  symmetry in Hcut.
  assert (Hk : 2000 <= length c) by lia.
  destruct (1000 <? cutPoint)%Z eqn:Hcmp.
  - apply Z.ltb_lt in Hcmp.
    destruct (lastIndexFrom_found c PARAGRAPH_BREAK 2000 cutPoint Hk Hcut ltac:(lia))
      as [Hle [Hocc Hlast]].
    exists (Z.to_nat cutPoint). split; [reflexivity |].
    left. repeat split; try lia; assumption.
  - apply Z.ltb_ge in Hcmp.
    exists 2000. split; [reflexivity |]. right. split; [reflexivity |].
    intros j Hj. destruct (Z.ltb_spec cutPoint 0) as [Hneg | Hnn].
    + apply (lastIndexFrom_missing c PARAGRAPH_BREAK 2000 Hk); [rewrite Hcut; lia | lia].
    + destruct (lastIndexFrom_found c PARAGRAPH_BREAK 2000 cutPoint Hk Hcut Hnn)
        as [Hle [Hocc Hlast]].
      apply Hlast. lia.
Qed.

(** The long page of the repository's test: 4000 characters without a
    paragraph break are cut at 2000, and the marker follows. *)
Example long_paragraph_truncated :
  match parseHtmlToContent (librariesRendering (repeat "x"%char 4000)) (js "<p>x...</p>")
          (js "https://example.com") true with
  | Ok parsed =>
      content parsed = repeat "x"%char 2000 ++ TRUNCATION_MARKER
      /\ (length (content parsed) <=? 2100) = true
  | Throw _ => False
  end.
Proof. vm_compute. split; reflexivity. Qed.

Example long_paragraph_untruncated :
  match parseHtmlToContent (librariesRendering (repeat "x"%char 4000)) (js "<p>x...</p>")
          (js "https://example.com") false with
  | Ok parsed => content parsed = repeat "x"%char 4000
  | Throw _ => False
  end.
Proof. vm_compute. reflexivity. Qed.

(** C3, as the claim words it, fails in its last part: content returned with
    [truncate = false] contains the marker when the page itself shows it. *)
Lemma untruncated_content_can_contain_marker :
  ~ UntruncatedNeverHasMarker (librariesRendering quotingMarkdown) quotingPage
      (js "https://example.com").
Proof.
  intros H.
  specialize (H _ eq_refl). vm_compute in H. discriminate.
Qed.

(** C3 (amended): let [c] be the trimmed rendering of the page.  With
    [truncate = true] and [c] longer than 2000 characters, the content is [c]
    cut at its last paragraph break at or before offset 2000 when that break
    lies past offset 1000, and cut at exactly 2000 when no break lies in
    (1000, 2000], followed in both cases by the truncation marker; with
    [truncate = true] and [c] of at most 2000 characters, and with
    [truncate = false], the content is [c] itself, nothing cut and nothing
    appended. *)
Theorem parseHtmlToContent_truncation (L : Libraries) (html url : jsstring) (truncate : bool)
  (r : ParsedContent) (c : jsstring) :
  parseHtmlToContent L html url truncate = Ok r ->
  trimmedContent L html url = Ok c ->
  (truncate = true -> 2000 < length c ->
     exists cut,
       content r = slice0 cut c ++ TRUNCATION_MARKER
       /\ ((1000 < cut <= 2000 /\ BreakAt c cut
            /\ forall j, cut < j <= 2000 -> ~ BreakAt c j)
           \/ (cut = 2000 /\ forall j, 1000 < j <= 2000 -> ~ BreakAt c j)))
  /\ (truncate = true -> length c <= 2000 -> content r = c)
  /\ (truncate = false -> content r = c).
Proof.
  intros Hr Hc. rewrite (parseHtmlToContent_content L html url truncate r c Hr Hc).
  repeat split.
  - intros -> Hlen. now apply truncateContent_long.
  - intros -> Hlen. now apply truncateContent_short.
  - intros ->. apply truncateContent_off.
Qed.

Lemma parseHtmlToContent_truncation_witness :
  parseHtmlToContent (librariesRendering longMarkdown) (js "<p>long</p>")
    (js "https://example.com") true = Ok longParsed
  /\ trimmedContent (librariesRendering longMarkdown) (js "<p>long</p>")
       (js "https://example.com") = Ok longMarkdown
  /\ exists cut,
       content longParsed = slice0 cut longMarkdown ++ TRUNCATION_MARKER
       /\ ((1000 < cut <= 2000 /\ BreakAt longMarkdown cut
            /\ forall j, cut < j <= 2000 -> ~ BreakAt longMarkdown j)
           \/ (cut = 2000 /\ forall j, 1000 < j <= 2000 -> ~ BreakAt longMarkdown j)).
Proof.
  assert (Hr : parseHtmlToContent (librariesRendering longMarkdown) (js "<p>long</p>")
                 (js "https://example.com") true = Ok longParsed)
    by (vm_compute; reflexivity).
  assert (Hc : trimmedContent (librariesRendering longMarkdown) (js "<p>long</p>")
                 (js "https://example.com") = Ok longMarkdown)
    by (vm_compute; reflexivity).
  split; [exact Hr |]. split; [exact Hc |].
  destruct (parseHtmlToContent_truncation _ _ _ _ _ _ Hr Hc) as [H _].
  apply H; [reflexivity |].
  apply Nat.ltb_lt. vm_compute. reflexivity.
Defined.

End ExtractFacts.

(** ** lib/search.js *)

Module SearchFacts.

Import Search JsStringFacts JsNumberFacts.

Lemma length_zero_iff {A} (l : list A) : (length l =? 0) = true <-> l = [].
Proof.
  destruct l; simpl; split; intro H; try reflexivity; discriminate.
Qed.

(** What the first step returns is a slice, at the clamped count, of what it
    found in the frames. *)
Lemma searchGoogleFromContext_sliced (env : Environment) (query : jsstring) (num : number)
  (results : list SearchResult) :
  fst (searchGoogleFromContext env query num) = Ok results ->
  exists found, results = sliceUpTo (clampedCount num) found.
Proof.
  unfold searchGoogleFromContext, clampedCount.
  set (clampedNum := Math_max (ofZ 1) (Math_min num (ofZ 20))).
  set (page := browse env query clampedNum).
  set (all := flat_map frameResults (frames page)).
  unfold bindE, emit, lift, ret, throwE.
  destruct (navigation page) as [[] | e]; cbn [fst]; [| discriminate].
  destruct (length all =? 0).
  - destruct (diagnostics page) as [d | e]; cbn [fst]; [| discriminate].
    destruct (diag_hasCaptcha d || _); cbn [fst]; [discriminate |].
    intros H. injection H as <-. now exists all.
  - cbn [fst]. intros H. injection H as <-. now exists all.
Qed.

(** The first step either throws or returns at most the clamped count, and
    nothing for a count that is not a number. *)
Lemma searchGoogleFromContext_length (env : Environment) (query : jsstring) (num : number)
  (results : list SearchResult) :
  fst (searchGoogleFromContext env query num) = Ok results ->
  match clampedCount num with
  | Finite c =>
      (1 <= c <= 20)%Q
      /\ (inject_Z (Z.of_nat (length results)) <= c)%Q
      /\ forall q, num = Finite q -> (1 <= q <= 20)%Q -> (c == q)%Q
  | NaN => num = NaN /\ results = []
  | Infinity _ => False
  end.
Proof.
  intros H. destruct (searchGoogleFromContext_sliced env query num results H)
    as [found ->].
  unfold clampedCount. pose proof (clamped_slice num found) as Hslice.
  destruct (Math_max (ofZ 1) (Math_min num (ofZ 20))) as [c | | negative];
    [exact Hslice | now split | exact Hslice].
Qed.

(** The orchestrator in one equation: the results of the first step, an
    error counting as none; when there are none, those of the second step,
    an error counting as none again. *)
Lemma searchWebFromContext_value (env : Environment) (query : jsstring)
  (numResults : number) :
  fst (searchWebFromContext env query numResults)
  = Ok (match resultsOrNone (searchGoogleFromContext env query numResults) with
        | [] => resultsOrNone (searchDuckDuckGo env query numResults)
        | r :: rs => r :: rs
        end).
Proof.
  unfold searchWebFromContext, resultsOrNone.
  destruct (searchGoogleFromContext env query numResults) as [[results | e] evs];
    destruct (searchDuckDuckGo env query numResults) as [[results' | e'] evs'];
    cbn [tryE bindE emit ret fst snd app];
    try (destruct results as [|r rs]; cbn [length Nat.eqb fst snd]);
    reflexivity.
Qed.





(** The loops stop at [results.length >= num]: every item was added while
    the test was false, whatever the count is; the secondary engine does not
    clamp it. *)
Lemma eachResult_guard (env : Environment) (num : number) (els : list ResultNode) :
  forall acc results,
    eachResult env els num acc = Ok results ->
    length acc <= length results
    /\ (length results = length acc \/ atLeast (length results - 1) num = false).
Proof.
  induction els as [|el rest IH]; intros acc results H; cbn [eachResult] in H.
  - injection H as <-. split; [lia | now left].
  - destruct (atLeast (length acc) num) eqn:Hfull.
    + injection H as <-. split; [lia | now left].
    + destruct (resolveLink env (result_a_href el)) as [[l |] | e]; cbn [bind] in H;
        try discriminate.
      * destruct (truthy (trim (result_a_text el)) && truthy l
                  && negb (includes l (js "duckduckgo.com"))).
        -- apply IH in H. rewrite length_app in H. cbn [length] in H.
           destruct H as [Hle [Heq | Hlast]]; (split; [lia |]); right; [| exact Hlast].
           replace (length results - 1) with (length acc) by lia. exact Hfull.
        -- now apply IH in H.
      * now apply IH in H.
Qed.

Lemma eachResultLink_guard (num : number) (els : list LiteNode) :
  forall acc,
    length acc <= length (eachResultLink els num acc)
    /\ (length (eachResultLink els num acc) = length acc
        \/ atLeast (length (eachResultLink els num acc) - 1) num = false).
Proof.
  induction els as [|el rest IH]; intros acc; cbn [eachResultLink].
  - split; [lia | now left].
  - destruct (atLeast (length acc) num) eqn:Hfull; [split; [lia | now left] |].
    destruct (link_href el) as [l |]; [| apply IH].
    destruct (truthy (trim (link_text el)) && truthy l); [| apply IH].
    specialize (IH (acc ++ [{| title := trim (link_text el); link := l;
                                snippet := orElse (trim (link_snippet_text el)) [] |}])).
    rewrite length_app in IH. cbn [length] in IH.
    destruct IH as [Hle [Heq | Hlast]]; (split; [lia |]); right; [| exact Hlast].
    rewrite Heq. replace (length acc + 1 - 1) with (length acc) by lia. exact Hfull.
Qed.

Lemma extractDuckDuckGoResults_guard (env : Environment) (html : jsstring) (num : number)
  (results : list SearchResult) :
  extractDuckDuckGoResults env html num = Ok results -> withinGuard (length results) num.
Proof.
  intros H. destruct (eachResult_guard env num _ _ _ H) as [_ Hguard]. exact Hguard.
Qed.

(** What the full-markup extraction does with the link of every item it
    returns: a direct link is kept, a wrapped one is decoded, and no link
    that mentions the domain of the engine is returned. *)
Lemma resolveLink_direct (env : Environment) (href : jsstring) :
  includes href (js "uddg=") = false -> resolveLink env (Some href) = Ok (Some href).
Proof.
  intros H. unfold resolveLink. rewrite H, andb_false_r. reflexivity.
Qed.

Lemma resolveLink_wrapped (env : Environment) (href destination : jsstring) :
  truthy href = true -> includes href (js "uddg=") = true ->
  match_uddg href = Some destination ->
  resolveLink env (Some href)
  = bind (decodeURIComponent env destination) (fun link => Ok (Some link)).
Proof.
  intros Ht Hi Hm. unfold resolveLink. now rewrite Ht, Hi, Hm.
Qed.

Lemma eachResult_links (env : Environment) (num : number) (els : list ResultNode) :
  forall acc results,
    eachResult env els num acc = Ok results ->
    forall r, In r results ->
      In r acc
      \/ (exists el, In el els
                     /\ title r = trim (result_a_text el)
                     /\ resolveLink env (result_a_href el) = Ok (Some (link r))
                     /\ includes (link r) (js "duckduckgo.com") = false).
Proof.
  induction els as [|el rest IH]; intros acc results H r Hr; cbn [eachResult] in H.
  - injection H as <-. now left.
  - destruct (atLeast (length acc) num).
    + injection H as <-. now left.
    + destruct (resolveLink env (result_a_href el)) as [[l |] | e] eqn:Hl; cbn [bind] in H;
        try discriminate.
      * destruct (truthy (trim (result_a_text el)) && truthy l
                  && negb (includes l (js "duckduckgo.com"))) eqn:Hkeep.
        -- destruct (IH _ _ H r Hr) as [Hacc | [el' [Hin Hrest]]].
           ++ apply in_app_or in Hacc as [Hacc | [<- | []]]; [now left |].
              right. exists el. cbn [title link In].
              apply andb_true_iff in Hkeep as [_ Hkeep].
              apply negb_true_iff in Hkeep. repeat split; auto.
           ++ right. exists el'. split; [now right | exact Hrest].
        -- destruct (IH _ _ H r Hr) as [Hacc | [el' [Hin Hrest]]]; [now left |].
           right. exists el'. split; [now right | exact Hrest].
      * destruct (IH _ _ H r Hr) as [Hacc | [el' [Hin Hrest]]]; [now left |].
        right. exists el'. split; [now right | exact Hrest].
Qed.

Lemma extractDuckDuckGoResults_links (env : Environment) (html : jsstring) (num : number)
  (results : list SearchResult) :
  extractDuckDuckGoResults env html num = Ok results ->
  forall r, In r results ->
    exists el, In el (cheerio_results env html)
               /\ title r = trim (result_a_text el)
               /\ resolveLink env (result_a_href el) = Ok (Some (link r))
               /\ includes (link r) (js "duckduckgo.com") = false.
Proof.
  intros H r Hr.
  destruct (eachResult_links env num _ _ _ H r Hr) as [[] | Hel]. exact Hel.
Qed.

(** The one-shot caller keeps the bound on every path of the chain. *)
Lemma searchWebOneShot_length (env : Environment) (session : OneShotSession)
  (query : jsstring) (num : number) (results : list SearchResult) :
  fst (searchWebOneShot env session query num) = Ok results ->
  exists found, results = sliceUpTo (clampedCount num) found.
Proof.
  unfold searchWebOneShot, clampedCount, finallyE.
  set (clampedNum := Math_max (ofZ 1) (Math_min num (ofZ 20))).
  destruct (makeProfileDir session) as [[] | e]; [| discriminate].
  unfold bindE at 1. unfold lift at 1. cbn [app fst].
  destruct (fst (_ <~ lift (closePages session) ;;
                 _ <~ emit RemoveProfileDir ;;
                 lift (removeProfileDir session))); [| discriminate].
  unfold bindE, emit, lift, ret.
  destruct (openContext session) as [[] | e]; cbn [fst]; [| discriminate].
  destruct (searchWebFromContext env query clampedNum) as [[rs | e] evs];
    cbn [fst]; [| discriminate].
  intros H. injection H as <-. now exists rs.
Qed.

(** The listing of the repository's test: a direct link is returned as it
    is, a wrapped link is decoded, an item of the engine's own domain is
    left out. *)
Example extractDuckDuckGoResults_sample :
  extractDuckDuckGoResults
    (fallbackEnvironment
       [ {| result_a_text := js "Example Title";
            result_a_href := Some (js "https://example.com/page");
            result_snippet_text := js "Some snippet text that is long enough." |};
         {| result_a_text := js "Ad";
            result_a_href := Some (js "https://duckduckgo.com/y.js?ad=1");
            result_snippet_text := [] |};
         wrappedResult ] [])
    (js "<html></html>") (ofZ 5)
  = Ok [ {| title := js "Example Title"; link := js "https://example.com/page";
            snippet := js "Some snippet text that is long enough." |};
         {| title := js "Encoded Link"; link := js "https://example.org/foo";
            snippet := js "Some snippet text that is long enough." |} ].
Proof. vm_compute. reflexivity. Qed.

(** C6 (the code departs from the claim): with Google blocking the search and
    a requested count of 25, the orchestrator returns the 25 items of the
    full-markup listing of the secondary engine, five more than the clamped
    count. *)
Theorem searchWebFromContext_exceeds_clamped_count :
  exists results,
    fst (searchWebFromContext (fallbackEnvironment (map directResult (seq 1 25)) [])
           (js "rocq prover") (ofZ 25)) = Ok results
    /\ length results = 25
    /\ clampedCount (ofZ 25) = ofZ 20.
Proof.
  eexists. split; [vm_compute; reflexivity |]. split; reflexivity.
Qed.

(** C7 (the code departs from the claim): on the lightweight-markup path the
    wrapped link of an item is returned as it is, not decoded, and the item is
    returned although its link points at the engine's own domain. *)
Theorem searchDuckDuckGoLite_returns_wrapper :
  fst (searchDuckDuckGo (fallbackEnvironment [] [wrappedResultLink]) (js "rocq prover")
         (ofZ 5))
  = Ok [ {| title := js "Encoded Link";
            link := js "//duckduckgo.com/l/?uddg=https%3A%2F%2Fexample.org%2Ffoo&rut=0";
            snippet := js "Some snippet text." |} ]
  /\ includes (js "//duckduckgo.com/l/?uddg=https%3A%2F%2Fexample.org%2Ffoo&rut=0")
               (js "duckduckgo.com") = true.
Proof. split; vm_compute; reflexivity. Qed.

End SearchFacts.

(** ** The fetch operations *)

Module FetchFacts.

Import Extract Fetch.

Lemma failure_wellFormed (u message : jsstring) :
  WellFormed {| url := u; title := Some []; content := Some []; error := Some message |}.
Proof. right. exists message. cbn. repeat split. Qed.

(** Whatever the [try] block of the browser fetch returns is a success
    carrying the parsed title and content of the page. *)
Lemma fetchBody_ok (L : Libraries) (session : PageSession) (u : jsstring) (truncate : bool)
  (r : FetchResult) :
  fetchBody L session u truncate = Ok r ->
  exists html parsed,
    pageContent session = Ok html
    /\ parseHtmlToContent L html u truncate = Ok parsed
    /\ r = {| url := u; title := Some (Extract.title parsed);
              content := Some (Extract.content parsed); error := None |}.
Proof.
  unfold fetchBody.
  destruct (newPage session) as [[] | e]; cbn [bind]; [| discriminate].
  destruct (goto session) as [[] | e]; cbn [bind]; [| discriminate].
  destruct (botProtection session) as [[] | e]; cbn [bind]; [| discriminate].
  destruct (pageContent session) as [html | e]; cbn [bind]; [| discriminate].
  destruct (parseHtmlToContent L html u truncate) as [parsed | e] eqn:Hp; cbn [bind];
    [| discriminate].
  intros H. injection H as <-. now exists html, parsed.
Qed.

Lemma httpBody_ok (L : Libraries) (httpFetch : jsstring -> completion HttpResponse)
  (u : jsstring) (truncate : bool) (r : FetchResult) :
  httpBody L httpFetch u truncate = Ok r ->
  exists response html parsed,
    httpFetch u = Ok response
    /\ text response = Ok html
    /\ parseHtmlToContent L html u truncate = Ok parsed
    /\ r = {| url := u; title := Some (Extract.title parsed);
              content := Some (Extract.content parsed); error := None |}.
Proof.
  unfold httpBody.
  destruct (httpFetch u) as [response | e]; cbn [bind]; [| discriminate].
  destruct (negb (ok response)); cbn [bind]; [discriminate |].
  destruct (negb (includes _ (js "text/html")) && negb (includes _ (js "application/xhtml")));
    cbn [bind]; [discriminate |].
  destruct (text response) as [html | e] eqn:Ht; cbn [bind]; [| discriminate].
  destruct (parseHtmlToContent L html u truncate) as [parsed | e] eqn:Hp; cbn [bind];
    [| discriminate].
  intros H. injection H as <-. now exists response, html, parsed.
Qed.

Lemma fetchUrlFromContext_value (L : Libraries) (session : PageSession) (u : jsstring)
  (truncate : bool) :
  fst (fetchUrlFromContext L session u truncate)
  = Ok (match fetchBody L session u truncate with
        | Ok r => r
        | Throw err =>
            {| url := u; title := Some []; content := Some [];
               error := Some (if isAbortError err then js "Timeout after 45s"
                              else describe err) |}
        end).
Proof.
  unfold fetchUrlFromContext.
  destruct (fetchBody L session u truncate) as [r | err];
    destruct (isOk (newPage session) && negb (isClosed session));
    try destruct (dumpDir session); reflexivity.
Qed.

Lemma fetchUrlViaHttp_value (L : Libraries) (httpFetch : jsstring -> completion HttpResponse)
  (u : jsstring) (truncate : bool) :
  fetchUrlViaHttp L httpFetch u truncate
  = Ok (match httpBody L httpFetch u truncate with
        | Ok r => r
        | Throw err =>
            {| url := u; title := Some []; content := Some [];
               error := Some (if isAbortError err then js "Timeout after 15s"
                              else describe err) |}
        end).
Proof.
  unfold fetchUrlViaHttp. now destruct (httpBody L httpFetch u truncate).
Qed.

(** C8: both fetch operations return a result for every page session and
    every HTTP exchange, whatever fails on the way; the result is either a
    success ([error] is [null], [title] and [content] are the strings parsed
    from the page) or a failure ([error] is a message, [title] and [content]
    are the empty string), so that [content] is a string in either case. *)
Theorem fetch_results_are_well_formed (L : Libraries) (session : PageSession)
  (httpFetch : jsstring -> completion HttpResponse) (u : jsstring) (truncate : bool) :
  (exists r, fst (fetchUrlFromContext L session u truncate) = Ok r
             /\ url r = u /\ WellFormed r
             /\ (error r = None ->
                 exists html parsed,
                   pageContent session = Ok html
                   /\ parseHtmlToContent L html u truncate = Ok parsed
                   /\ title r = Some (Extract.title parsed)
                   /\ content r = Some (Extract.content parsed))
             /\ (forall err, fetchBody L session u truncate = Throw err ->
                   exists message, error r = Some message
                                   /\ title r = Some [] /\ content r = Some []))
  /\ (exists r, fetchUrlViaHttp L httpFetch u truncate = Ok r
                /\ url r = u /\ WellFormed r
                /\ (error r = None ->
                    exists response html parsed,
                      httpFetch u = Ok response
                      /\ text response = Ok html
                      /\ parseHtmlToContent L html u truncate = Ok parsed
                      /\ title r = Some (Extract.title parsed)
                      /\ content r = Some (Extract.content parsed))
                /\ (forall err, httpBody L httpFetch u truncate = Throw err ->
                      exists message, error r = Some message
                                      /\ title r = Some [] /\ content r = Some [])).
Proof.
  split.
  - rewrite fetchUrlFromContext_value.
    destruct (fetchBody L session u truncate) as [r | err] eqn:Hbody.
    + exists r. destruct (fetchBody_ok L session u truncate r Hbody)
        as (html & parsed & Hc & Hp & ->).
      split; [reflexivity |]. split; [reflexivity |]. split; [| split].
      * left. cbn. split; [reflexivity |]. eauto.
      * intros _. exists html, parsed. cbn. auto.
      * discriminate.
    + eexists. split; [reflexivity |]. cbn [url]. split; [reflexivity |].
      split; [apply failure_wellFormed |]. split.
      * cbn. discriminate.
      * intros err' _. eexists. cbn. repeat split.
  - rewrite fetchUrlViaHttp_value.
    destruct (httpBody L httpFetch u truncate) as [r | err] eqn:Hbody.
    + exists r. destruct (httpBody_ok L httpFetch u truncate r Hbody)
        as (response & html & parsed & Hf & Ht & Hp & ->).
      split; [reflexivity |]. split; [reflexivity |]. split; [| split].
      * left. cbn. split; [reflexivity |]. eauto.
      * intros _. exists response, html, parsed. cbn. auto.
      * discriminate.
    + eexists. split; [reflexivity |]. cbn [url]. split; [reflexivity |].
      split; [apply failure_wellFormed |]. split.
      * cbn. discriminate.
      * intros err' _. eexists. cbn. repeat split.
Qed.

(** Every result of [fetchUrlsFromContext] is well formed as well. *)
Lemma fetchUrlFromContext_wellFormed (L : Libraries) (session : PageSession) (u : jsstring)
  (truncate : bool) :
  exists r, fst (fetchUrlFromContext L session u truncate) = Ok r
            /\ url r = u /\ WellFormed r.
Proof.
  rewrite fetchUrlFromContext_value.
  destruct (fetchBody L session u truncate) as [r | err] eqn:Hbody.
  - exists r. destruct (fetchBody_ok L session u truncate r Hbody)
      as (html & parsed & _ & _ & ->).
    repeat split. left. cbn. split; [reflexivity |]. eauto.
  - eexists. split; [reflexivity |]. split; [reflexivity | apply failure_wellFormed].
Qed.

Lemma fetchUrlsFromContext_well_formed (L : Libraries) (context : jsstring -> PageSession)
  (truncate : bool) (urls : list jsstring) :
  exists rs, fst (fetchUrlsFromContext L context urls truncate) = Ok rs
             /\ map url rs = urls /\ Forall WellFormed rs.
Proof.
  induction urls as [|u rest [rs (Hrs & Hurls & Hwf)]]; cbn [fetchUrlsFromContext].
  - exists []. repeat split. constructor.
  - destruct (fetchUrlFromContext_wellFormed L (context u) u truncate) as (r & Hr & Hu & Hw).
    exists (r :: rs). unfold bindE.
    destruct (fetchUrlFromContext L (context u) u truncate) as [c evs].
    cbn [fst] in Hr. subst c.
    destruct (fetchUrlsFromContext L context rest truncate) as [c' evs'].
    cbn [fst] in Hrs. subst c'. cbn. repeat split.
    + now rewrite Hu, Hurls.
    + now constructor.
Qed.

End FetchFacts.

(** ** lib/cdp.js *)

Module CdpFacts.

Import Cdp.

Lemma tryOffsets_found (os : OS) (preferredPort : Z) (remaining : nat) :
  forall offset candidate,
    tryOffsets os preferredPort offset remaining = Some candidate ->
    exists k, offset <= k < offset + remaining
              /\ candidate = (preferredPort + Z.of_nat k)%Z
              /\ isPortAvailable os k candidate = true
              /\ forall j, offset <= j < k ->
                    isPortAvailable os j (preferredPort + Z.of_nat j) = false.
Proof.
  induction remaining as [|remaining IH]; intros offset candidate H; cbn [tryOffsets] in H.
  - discriminate.
  - destruct (isPortAvailable os offset (preferredPort + Z.of_nat offset)) eqn:Hav.
    + injection H as <-. exists offset. repeat split; try lia. exact Hav.
    + destruct (IH _ _ H) as (k & Hk & Hc & Hfree & Hbefore).
      exists k. repeat split; try lia; try assumption.
      intros j Hj. destruct (Nat.eq_dec j offset) as [-> | Hne]; [exact Hav |].
      apply Hbefore. lia.
Qed.

Lemma tryOffsets_none (os : OS) (preferredPort : Z) (remaining : nat) :
  forall offset,
    tryOffsets os preferredPort offset remaining = None ->
    forall j, offset <= j < offset + remaining ->
      isPortAvailable os j (preferredPort + Z.of_nat j) = false.
Proof.
  induction remaining as [|remaining IH]; intros offset H j Hj; cbn [tryOffsets] in H.
  - lia.
  - destruct (isPortAvailable os offset (preferredPort + Z.of_nat offset)) eqn:Hav;
      [discriminate |].
    destruct (Nat.eq_dec j offset) as [-> | Hne]; [exact Hav |].
    apply (IH (S offset) H). lia.
Qed.

(** With the preferred port and the next one taken, the third is chosen. *)
Example third_port_chosen :
  chooseAvailablePort
    {| listen := fun _ port => (9224 <=? port)%Z; ephemeral := Ok 49152%Z |} 9222
  = Ok 9224%Z.
Proof. reflexivity. Qed.

(** A preferred port out of range and no bind succeeding: the answer is the
    operating system's. *)
Example ephemeral_port_chosen :
  chooseAvailablePort {| listen := fun _ _ => false; ephemeral := Ok 49152%Z |} 70000
  = Ok 49152%Z.
Proof. reflexivity. Qed.

(** C9: [chooseAvailablePort] probes [preferred], [preferred + 1], ...,
    [preferred + 25] in this order and returns the first one its probe finds
    free, so the preferred port when it is free; every port probed before the
    one returned was found occupied, and the port returned was found free.
    When all 26 probes fail the result is that of [getEphemeralPort]: the
    port assigned by the operating system, or the error of that bind, the only
    error the function can end with. *)
Theorem chooseAvailablePort_first_free (os : OS) (preferredPort : Z) :
  (exists k, k <= 25
             /\ chooseAvailablePort os preferredPort = Ok (preferredPort + Z.of_nat k)%Z
             /\ isPortAvailable os k (preferredPort + Z.of_nat k) = true
             /\ forall j, j < k -> isPortAvailable os j (preferredPort + Z.of_nat j) = false)
  \/ (chooseAvailablePort os preferredPort = getEphemeralPort os
      /\ forall j, j <= 25 -> isPortAvailable os j (preferredPort + Z.of_nat j) = false).
Proof.
  unfold chooseAvailablePort.
  destruct (isPortAvailable os 0 preferredPort) eqn:H0.
  - left. exists 0. rewrite Z.add_0_r. repeat split; try lia. exact H0.
  - destruct (tryOffsets os preferredPort 1 25) as [candidate |] eqn:Hloop.
    + left. destruct (tryOffsets_found os preferredPort 25 1 candidate Hloop)
        as (k & Hk & -> & Hfree & Hbefore).
      exists k. repeat split; try lia; try assumption.
      intros j Hj. destruct j as [|j].
      * now rewrite Z.add_0_r.
      * apply Hbefore. lia.
    + right. split; [reflexivity |].
      intros j Hj. destruct j as [|j].
      * now rewrite Z.add_0_r.
      * apply (tryOffsets_none os preferredPort 25 1 Hloop). lia.
Qed.

End CdpFacts.

(** ** lib/daemon.js *)

Module DaemonFacts.

Import Daemon.

Lemma search_is_not_fetch : isCommand (Some (JString (js "search"))) "fetch" = false.
Proof. reflexivity. Qed.

Lemma search_is_not_fetchMany : isCommand (Some (JString (js "search"))) "fetchMany" = false.
Proof. reflexivity. Qed.

Lemma search_is_search : isCommand (Some (JString (js "search"))) "search" = true.
Proof. reflexivity. Qed.

(** C10: for every body that parses to a [search] command whose payload has
    a truthy [query] and a [numResults] that is absent or not a finite number,
    the handler calls [searchWebFromContext] with the count 5, counts the
    request, cleans the pages up, and replies with what the search returned
    ([200]) or with the message of what it threw ([400]). *)
Theorem search_without_finite_count_asks_for_five (Data : Type) (deps : Dependencies Data)
  (body : jsstring) (requestCount : nat) (fields payloadFields : list (jsstring * json))
  (query : json) :
  JSON_parse deps (orElse body (js "{}")) = Ok (JObject fields) ->
  lookup (js "command") fields = Some (JString (js "search")) ->
  lookup (js "payload") fields = Some (JObject payloadFields) ->
  lookup (js "query") payloadFields = Some query ->
  truthyJson (Some query) = true ->
  Number_isFinite (lookup (js "numResults") payloadFields) = false ->
  handleCommand deps body requestCount
  = (match searchWebFromContext deps query 5 with
     | Ok data => Reply200 data
     | Throw err => Reply400 (messageOf err)
     end,
     S requestCount,
     [CallSearch query 5; CleanupContextPages]).
Proof.
  intros Hparse Hcommand Hpayload Hquery Htruthy Hcount.
  unfold handleCommand, commandBody.
  rewrite Hparse. cbn [getProperty]. rewrite Hcommand, Hpayload.
  change (truthyJson (Some (JObject payloadFields))) with true.
  cbn [getProperty].
  rewrite search_is_not_fetch, search_is_not_fetchMany, search_is_search.
  rewrite Hquery, Htruthy, Hcount, Nat.add_1_r.
  unfold bindE, emit, lift.
  destruct (searchWebFromContext deps query 5); reflexivity.
Qed.

Lemma search_without_finite_count_asks_for_five_witness :
  handleCommand (countingDependencies (Some (JString (js "10")))) (js "{}") 0
  = (Reply200 5%Z, 1, [CallSearch (JString (js "rocq")) 5; CleanupContextPages]).
Proof.
  exact (search_without_finite_count_asks_for_five Z
           (countingDependencies (Some (JString (js "10")))) (js "{}") 0
           [ (js "command", JString (js "search"));
             (js "payload", JObject [ (js "query", JString (js "rocq"));
                                      (js "numResults", JString (js "10")) ]) ]
           [ (js "query", JString (js "rocq")); (js "numResults", JString (js "10")) ]
           (JString (js "rocq"))
           eq_refl eq_refl eq_refl eq_refl eq_refl eq_refl).
Defined.

Section QueueFacts.

Variable R : Type.

Implicit Types (ps rest pre post : list (Promise R)) (p q : Promise R) (fn : Task R).

(** *** Lists of promises *)

Lemma waiting_serialized ps : forallb (@isWaiting R) ps = true -> serialized ps = true.
Proof.
  destruct ps as [|[fn | fn k | r] rest]; cbn; intros H;
    try reflexivity; try discriminate; exact H.
Qed.

Lemma waiting_nth ps i p :
  forallb (@isWaiting R) ps = true -> nth_error ps i = Some p -> isWaiting p = true.
Proof.
  intros H Hn. apply nth_error_In in Hn. rewrite forallb_forall in H. now apply H.
Qed.

Lemma waiting_not_running ps :
  forallb (@isWaiting R) ps = true -> filter (@isRunning R) ps = [].
Proof.
  induction ps as [|[fn | fn k | r] rest IH]; cbn; intros H;
    try reflexivity; try discriminate; now apply IH.
Qed.

Lemma waiting_not_settled ps :
  forallb (@isWaiting R) ps = true -> settledCount ps = 0.
Proof.
  unfold settledCount.
  induction ps as [|[fn | fn k | r] rest IH]; cbn; intros H;
    try reflexivity; try discriminate; now apply IH.
Qed.

Lemma settledCount_cons_settled r rest :
  settledCount (Settled r :: rest) = S (settledCount rest).
Proof. reflexivity. Qed.

Lemma settledCount_cons_waiting fn rest :
  settledCount (Waiting fn :: rest) = settledCount rest.
Proof. reflexivity. Qed.

Lemma settledCount_cons_running fn k rest :
  settledCount (Running fn k :: rest) = settledCount rest.
Proof. reflexivity. Qed.

Lemma settledCount_enqueue ps fn :
  settledCount (ps ++ [Waiting fn]) = settledCount ps.
Proof.
  unfold settledCount. rewrite filter_app, length_app. cbn. lia.
Qed.

Lemma serialized_running ps :
  serialized ps = true -> length (filter (@isRunning R) ps) <= 1.
Proof.
  induction ps as [|[fn | fn k | r] rest IH]; cbn; intros H.
  - lia.
  - rewrite (waiting_not_running rest H). cbn. lia.
  - rewrite (waiting_not_running rest H). cbn. lia.
  - now apply IH.
Qed.

Lemma serialized_enqueue ps fn :
  serialized ps = true -> serialized (ps ++ [Waiting fn]) = true.
Proof.
  induction ps as [|[g | g k | r] rest IH]; cbn; intros H.
  - reflexivity.
  - rewrite forallb_app, H. reflexivity.
  - rewrite forallb_app, H. reflexivity.
  - now apply IH.
Qed.

Lemma final_update ps : forall i p q,
  nth_error ps i = Some p -> finalResult q = finalResult p ->
  map (@finalResult R) (update i q ps) = map (@finalResult R) ps.
Proof.
  induction ps as [|a rest IH]; intros [|i] p q Hn Hq; cbn in *; try discriminate.
  - injection Hn as ->. now rewrite Hq.
  - f_equal. now apply (IH i p q).
Qed.

(** *** One step *)

Lemma call_serialized ps : forall i fn,
  serialized ps = true ->
  nth_error ps i = Some (Waiting fn) ->
  predecessorSettled ps i = true ->
  serialized (update i (Running fn (awaits fn)) ps) = true
  /\ settledCount (update i (Running fn (awaits fn)) ps) = settledCount ps.
Proof.
  induction ps as [|p rest IH]; intros [|i] fn Hser Hn Hpred; cbn in Hn; try discriminate.
  - injection Hn as ->. cbn in *. split; [exact Hser | reflexivity].
  - destruct p as [g | g k | r].
    + exfalso. cbn in Hser. destruct i as [|j]; cbn in Hpred; [discriminate |].
      destruct (nth_error rest j) as [q |] eqn:Hq; [| discriminate].
      apply (waiting_nth rest j q Hser) in Hq. destruct q; discriminate.
    + exfalso. cbn in Hser. destruct i as [|j]; cbn in Hpred; [discriminate |].
      destruct (nth_error rest j) as [q |] eqn:Hq; [| discriminate].
      apply (waiting_nth rest j q Hser) in Hq. destruct q; discriminate.
    + cbn in Hser.
      assert (Hpred' : predecessorSettled rest i = true).
      { destruct i as [|j]; [reflexivity | exact Hpred]. }
      destruct (IH i fn Hser Hn Hpred') as [Hs Hc].
      cbn [update serialized]. rewrite !settledCount_cons_settled. split; [exact Hs | now rewrite Hc].
Qed.

Lemma resume_serialized ps : forall i fn k k',
  serialized ps = true ->
  nth_error ps i = Some (Running fn k) ->
  serialized (update i (Running fn k') ps) = true
  /\ settledCount (update i (Running fn k') ps) = settledCount ps.
Proof.
  induction ps as [|p rest IH]; intros [|i] fn k k' Hser Hn; cbn in Hn; try discriminate.
  - injection Hn as ->. cbn in *. split; [exact Hser | reflexivity].
  - destruct p as [g | g j | r]; cbn in Hser.
    + apply (waiting_nth rest i _ Hser) in Hn. discriminate.
    + apply (waiting_nth rest i _ Hser) in Hn. discriminate.
    + destruct (IH i fn k k' Hser Hn) as [Hs Hc].
      cbn [update serialized]. rewrite !settledCount_cons_settled. split; [exact Hs | now rewrite Hc].
Qed.

Lemma settle_serialized ps : forall i fn k r,
  serialized ps = true ->
  nth_error ps i = Some (Running fn k) ->
  serialized (update i (Settled r) ps) = true
  /\ settledCount ps = i
  /\ settledCount (update i (Settled r) ps) = S i.
Proof.
  induction ps as [|p rest IH]; intros [|i] fn k r Hser Hn; cbn in Hn; try discriminate.
  - injection Hn as ->. cbn in Hser. cbn [update serialized].
    rewrite settledCount_cons_settled, settledCount_cons_running,
      (waiting_not_settled rest Hser).
    split; [now apply waiting_serialized | split; reflexivity].
  - destruct p as [g | g j | r0]; cbn in Hser.
    + apply (waiting_nth rest i _ Hser) in Hn. discriminate.
    + apply (waiting_nth rest i _ Hser) in Hn. discriminate.
    + destruct (IH i fn k r Hser Hn) as (Hs & Hc & Hc').
      cbn [update serialized]. rewrite !settledCount_cons_settled.
      split; [exact Hs | split; congruence].
Qed.

(** The invariant of the queue is kept by every step. *)
Lemma step_invariant (st : Step R) (s s' : QueueState R) :
  step st s = Some s' ->
  serialized (chain s) = true /\ settledOrder s = seq 0 (settledCount (chain s)) ->
  serialized (chain s') = true /\ settledOrder s' = seq 0 (settledCount (chain s')).
Proof.
  intros Hstep [Hser Hord]. destruct st as [fn | i | i]; cbn [step] in Hstep.
  - injection Hstep as <-. cbn [chain settledOrder].
    rewrite settledCount_enqueue. split; [now apply serialized_enqueue | exact Hord].
  - destruct (nth_error (chain s) i) as [[fn | fn k | r] |] eqn:Hn; try discriminate.
    destruct (predecessorSettled (chain s) i) eqn:Hpred; [| discriminate].
    injection Hstep as <-. cbn [chain settledOrder].
    destruct (call_serialized (chain s) i fn Hser Hn Hpred) as [Hs Hc].
    split; [exact Hs | now rewrite Hc].
  - destruct (nth_error (chain s) i) as [[fn | fn [|k] | r] |] eqn:Hn; try discriminate.
    + injection Hstep as <-. cbn [chain settledOrder].
      destruct (settle_serialized (chain s) i fn 0 (outcome fn) Hser Hn) as (Hs & Hc & Hc').
      split; [exact Hs |].
      rewrite Hc', Hord, Hc, seq_S. reflexivity.
    + injection Hstep as <-. cbn [chain settledOrder].
      destruct (resume_serialized (chain s) i fn (S k) k Hser Hn) as [Hs Hc].
      split; [exact Hs | now rewrite Hc].
Qed.

Lemma run_invariant (steps : list (Step R)) : forall (s s' : QueueState R),
  run steps s = Some s' ->
  serialized (chain s) = true /\ settledOrder s = seq 0 (settledCount (chain s)) ->
  serialized (chain s') = true /\ settledOrder s' = seq 0 (settledCount (chain s')).
Proof.
  induction steps as [|st steps IH]; intros s s' Hrun Hinv; cbn [run] in Hrun.
  - now injection Hrun as <-.
  - destruct (step st s) as [s1 |] eqn:Hstep; [| discriminate].
    apply (IH s1 s' Hrun). now apply (step_invariant st s s1).
Qed.

(** Promise [i] of the chain belongs to the [i]-th function enqueued. *)
Lemma step_final (st : Step R) (s s' : QueueState R) :
  step st s = Some s' ->
  map (@finalResult R) (chain s')
  = map (@finalResult R) (chain s) ++ map (@outcome R) (enqueued [st]).
Proof.
  intros Hstep. destruct st as [fn | i | i]; cbn [step] in Hstep.
  - injection Hstep as <-. cbn [chain]. now rewrite map_app.
  - destruct (nth_error (chain s) i) as [[fn | fn k | r] |] eqn:Hn; try discriminate.
    destruct (predecessorSettled (chain s) i); [| discriminate].
    injection Hstep as <-. cbn [chain enqueued flat_map map]. rewrite app_nil_r.
    now apply (final_update (chain s) i (Waiting fn)).
  - destruct (nth_error (chain s) i) as [[fn | fn [|k] | r] |] eqn:Hn; try discriminate;
      injection Hstep as <-; cbn [chain enqueued flat_map map]; rewrite app_nil_r.
    + now apply (final_update (chain s) i (Running fn 0)).
    + now apply (final_update (chain s) i (Running fn (S k))).
Qed.

Lemma enqueued_cons (st : Step R) (steps : list (Step R)) :
  enqueued (st :: steps) = enqueued [st] ++ enqueued steps.
Proof. unfold enqueued. cbn [flat_map]. now rewrite app_nil_r. Qed.

Lemma run_final (steps : list (Step R)) : forall (s s' : QueueState R),
  run steps s = Some s' ->
  map (@finalResult R) (chain s')
  = map (@finalResult R) (chain s) ++ map (@outcome R) (enqueued steps).
Proof.
  induction steps as [|st steps IH]; intros s s' Hrun; cbn [run] in Hrun.
  - injection Hrun as <-. cbn. now rewrite app_nil_r.
  - destruct (step st s) as [s1 |] eqn:Hstep; [| discriminate].
    rewrite (IH s1 s' Hrun), (step_final st s s1 Hstep).
    now rewrite (enqueued_cons st steps), map_app, app_assoc.
Qed.

(** *** Draining the queue *)

Lemma nth_error_middle pre p post : nth_error (pre ++ p :: post) (length pre) = Some p.
Proof.
  rewrite nth_error_app2 by lia. now rewrite Nat.sub_diag.
Qed.

Lemma update_middle pre p q post :
  update (length pre) q (pre ++ p :: post) = pre ++ q :: post.
Proof.
  induction pre as [|a pre IH]; cbn; [reflexivity | now rewrite IH].
Qed.

Lemma predecessor_middle pre p post :
  forallb (@isSettled R) pre = true ->
  predecessorSettled (pre ++ p :: post) (length pre) = true.
Proof.
  intros Hpre. destruct pre as [|a pre0] eqn:E; [reflexivity |].
  rewrite <- E in *. assert (Hlen : length pre = S (length pre0)) by now rewrite E.
  rewrite Hlen. cbn [predecessorSettled].
  rewrite nth_error_app1 by lia.
  destruct (nth_error pre (length pre0)) as [q |] eqn:Hq.
  - apply nth_error_In in Hq. rewrite forallb_forall in Hpre. now apply Hpre.
  - apply nth_error_None in Hq. lia.
Qed.

Lemma run_app (a b : list (Step R)) : forall (s : QueueState R),
  run (a ++ b) s = match run a s with
                   | Some s' => run b s'
                   | None => None
                   end.
Proof.
  induction a as [|st a IH]; intros s; cbn [app run]; [reflexivity |].
  destruct (step st s); [apply IH | reflexivity].
Qed.

Lemma run_resumes pre fn post : forall k order,
  run (repeat (Resume R (length pre)) (S k))
      {| chain := pre ++ Running fn k :: post; settledOrder := order |}
  = Some {| chain := pre ++ Settled (outcome fn) :: post;
            settledOrder := order ++ [length pre] |}.
Proof.
  induction k as [|k IH]; intros order.
  - cbn [repeat run step chain settledOrder].
    rewrite nth_error_middle, update_middle. reflexivity.
  - change (repeat (Resume R (length pre)) (S (S k)))
      with (Resume R (length pre) :: repeat (Resume R (length pre)) (S k)).
    cbn [run step chain settledOrder].
    rewrite nth_error_middle, update_middle. apply IH.
Qed.

Lemma run_call pre fn post order :
  forallb (@isSettled R) pre = true ->
  run (runToCompletion (length pre) fn)
      {| chain := pre ++ Waiting fn :: post; settledOrder := order |}
  = Some {| chain := pre ++ Settled (outcome fn) :: post;
            settledOrder := order ++ [length pre] |}.
Proof.
  intros Hpre. unfold runToCompletion.
  change (run (Call R (length pre) :: ?l) ?s)
    with (match step (Call R (length pre)) s with
          | Some s' => run l s'
          | None => None
          end).
  cbn [step chain settledOrder].
  rewrite nth_error_middle, (predecessor_middle pre _ post Hpre), update_middle.
  apply run_resumes.
Qed.

Lemma settled_snoc pre r :
  forallb (@isSettled R) pre = true -> forallb (@isSettled R) (pre ++ [Settled r]) = true.
Proof. intros H. now rewrite forallb_app, H. Qed.

(** From a serialized chain the schedule [drain] settles every promise,
    in the order of the chain. *)
Lemma run_drain rest : forall pre,
  forallb (@isSettled R) pre = true ->
  serialized rest = true ->
  run (drain (length pre) rest)
      {| chain := pre ++ rest;
         settledOrder := seq 0 (length pre + settledCount rest) |}
  = Some {| chain := pre ++ map (@settle R) rest;
            settledOrder := seq 0 (length pre + length rest) |}.
Proof.
  induction rest as [|[fn | fn k | r] rest IH]; intros pre Hpre Hser.
  - cbn [drain run map length]. unfold settledCount. cbn. reflexivity.
  - cbn in Hser. cbn [drain]. rewrite run_app, (run_call pre fn rest _ Hpre).
    specialize (IH (pre ++ [Settled (outcome fn)]) (settled_snoc pre _ Hpre)
                   (waiting_serialized rest Hser)).
    rewrite length_app, <- app_assoc in IH. cbn [length app] in IH.
    rewrite Nat.add_1_r in IH.
    rewrite settledCount_cons_waiting, (waiting_not_settled rest Hser), Nat.add_0_r.
    rewrite (waiting_not_settled rest Hser), Nat.add_0_r, seq_S in IH.
    cbn [Nat.add] in IH. rewrite IH.
    cbn [map length settle finalResult]. rewrite <- app_assoc. cbn [app].
    now rewrite Nat.add_succ_r.
  - cbn in Hser. cbn [drain]. rewrite run_app, (run_resumes pre fn rest k).
    specialize (IH (pre ++ [Settled (outcome fn)]) (settled_snoc pre _ Hpre)
                   (waiting_serialized rest Hser)).
    rewrite length_app, <- app_assoc in IH. cbn [length app] in IH.
    rewrite Nat.add_1_r in IH.
    rewrite settledCount_cons_running, (waiting_not_settled rest Hser), Nat.add_0_r.
    rewrite (waiting_not_settled rest Hser), Nat.add_0_r, seq_S in IH.
    cbn [Nat.add] in IH. rewrite IH.
    cbn [map length settle finalResult]. rewrite <- app_assoc. cbn [app].
    now rewrite Nat.add_succ_r.
  - cbn in Hser. cbn [drain].
    specialize (IH (pre ++ [Settled r]) (settled_snoc pre _ Hpre) Hser).
    rewrite length_app, <- app_assoc in IH. cbn [length app] in IH.
    rewrite Nat.add_1_r in IH.
    rewrite settledCount_cons_settled, Nat.add_succ_r.
    cbn [Nat.add] in IH. rewrite IH.
    cbn [map length settle finalResult]. rewrite <- app_assoc. cbn [app].
    now rewrite Nat.add_succ_r.
Qed.

(** C2: in every state the daemon's queue can reach, whatever the order in
    which requests arrive and the event loop resumes suspended functions, at
    most one queued function is in flight; the promises have settled in the
    order of submission; promise [i] settles with the outcome of the [i]-th
    function submitted; and the queue is not stalled, whatever the settled
    functions did, thrown errors included: resuming the pending functions in
    turn settles every one of them, in the order of submission. *)
Theorem queue_runs_one_command_at_a_time (steps : list (Step R)) (s : QueueState R) :
  run steps (initial R) = Some s ->
  running s <= 1
  /\ settledOrder s = seq 0 (length (settledOrder s))
  /\ map (@finalResult R) (chain s) = map (@outcome R) (enqueued steps)
  /\ run (drain 0 (chain s)) s
     = Some {| chain := map (@settle R) (chain s);
               settledOrder := seq 0 (length (chain s)) |}.
Proof.
  intros Hrun.
  destruct (run_invariant steps (initial R) s Hrun) as [Hser Hord];
    [split; reflexivity |].
  split; [now apply serialized_running |].
  split; [rewrite Hord at 1; now rewrite Hord, length_seq |].
  split; [exact (run_final steps (initial R) s Hrun) |].
  pose proof (run_drain (chain s) [] eq_refl Hser) as Hdrain.
  cbn [length app Nat.add] in Hdrain. rewrite <- Hord in Hdrain.
  destruct s as [ps order]. exact Hdrain.
Qed.

End QueueFacts.

Lemma queue_runs_one_command_at_a_time_witness :
  exists s,
    run overlappingRequests (initial nat) = Some s
    /\ running s <= 1
    /\ settledOrder s = seq 0 (length (settledOrder s))
    /\ map (@finalResult nat) (chain s) = map (@outcome nat) (enqueued overlappingRequests)
    /\ run (drain 0 (chain s)) s
       = Some {| chain := map (@settle nat) (chain s);
                 settledOrder := seq 0 (length (chain s)) |}.
Proof.
  eexists. split; [vm_compute; reflexivity |].
  apply (queue_runs_one_command_at_a_time nat overlappingRequests).
  vm_compute. reflexivity.
Defined.

End DaemonFacts.

(** ** lib/bot-protection.js: waiting for a challenge to clear *)

Module BotProtectionWaitFacts.

Import BotProtection BotProtectionWait.

Lemma detect_returns (w : PageWorld) (markers : list jsstring) (n : nat) :
  exists b, fst (fst (detect w markers n)) = Ok b.
Proof.
  unfold detect, isLikelyBotProtectionPage.
  destruct (BotProtectionFacts.detectLoop_spec (fun k => pageReads w (n + k)) markers 3 0)
    as [[b Hb] _].
  cbn zeta in Hb.
  destruct (detectLoop (fun k => pageReads w (n + k)) markers 0 3) as [r evs].
  cbn [fst] in *. now exists b.
Qed.

Lemma detect_quiet (w : PageWorld) (markers : list jsstring) (n : nat) :
  existsb isWaitForFunction (snd (detect w markers n)) = false.
Proof.
  unfold detect.
  destruct (isLikelyBotProtectionPage (fun k => pageReads w (n + k)) markers) as [r evs].
  cbn [snd]. induction evs as [|e evs IH]; [reflexivity | exact IH].
Qed.

Lemma existsb_app_false {A} (f : A -> bool) (l1 l2 : list A) :
  existsb f l1 = false -> existsb f l2 = false -> existsb f (l1 ++ l2) = false.
Proof. intros H1 H2. now rewrite existsb_app, H1, H2. Qed.

(** The loop throws only what a timeout threw, and never waits for the
    challenge. *)
Lemma detectionLoop_spec (w : PageWorld) (markers : list jsstring) (remaining : nat) :
  forall n t,
    (forall e, fst (fst (fst (detectionLoop w markers remaining n t))) = Throw e ->
               exists k, timeouts w k = Throw e)
    /\ existsb isWaitForFunction (snd (detectionLoop w markers remaining n t)) = false.
Proof.
  induction remaining as [|remaining IH]; intros n t; cbn [detectionLoop].
  - split; [discriminate | reflexivity].
  - pose proof (detect_returns w markers n) as [b Hb].
    pose proof (detect_quiet w markers n) as Hq.
    destruct (detect w markers n) as [[r n'] evs]. cbn [fst snd] in Hb, Hq. subst r.
    destruct b.
    + cbn [fst snd]. split; [discriminate | exact Hq].
    + destruct (timeouts w t) as [[] | e] eqn:Ht.
      * destruct (IH n' (S t)) as [Hthrow Hquiet].
        destruct (detectionLoop w markers remaining n' (S t)) as [[[r' n''] t'] evs'].
        cbn [fst snd] in *. split; [exact Hthrow |].
        apply existsb_app_false; [exact Hq | exact Hquiet].
      * cbn [fst snd]. split.
        -- intros e' H. injection H as <-. now exists t.
        -- apply existsb_app_false; [exact Hq | reflexivity].
Qed.

(** X1: whatever the page does, [waitForBotProtectionToClear] either returns
    a result whose [cleared] is [true], or throws.  A result with
    [detected = false] has [waitedMs = 0] and was produced without waiting
    for the challenge ([page.waitForFunction] was not called); a result with
    [detected = true] was produced after that wait.  What it throws is the
    error of one of its own timeouts, or the error saying that the challenge
    did not clear. *)
Theorem waitForBotProtectionToClear_outcomes (w : PageWorld) (url : jsstring)
  (markers : list jsstring) (timeoutMs : Z) :
  match waitForBotProtectionToClear w url markers timeoutMs with
  | (Ok result, evs) =>
      cleared result = true
      /\ (detected result = false ->
          waitedMs result = 0%Z /\ existsb isWaitForFunction evs = false)
      /\ (detected result = true ->
          waitedMs result = elapsed w /\ existsb isWaitForFunction evs = true)
  | (Throw e, _) => (exists k, timeouts w k = Throw e) \/ e = notClearedError w
  end.
Proof.
  unfold waitForBotProtectionToClear.
  destruct (timeouts w 0) as [[] | e0] eqn:H0; [| left; now exists 0].
  destruct (detectionLoop_spec w markers 3 0 1) as [Hthrow Hquiet].
  destruct (detectionLoop w markers 3 0 1) as [[[r n] t] evs]. cbn [fst snd] in *.
  destruct r as [[|] | e].
  - destruct (timeouts w t) as [[] | e1] eqn:H1; [| left; now exists t].
    pose proof (detect_returns w markers n) as [b Hb].
    destruct (detect w markers n) as [[r2 n2] evs2]. cbn [fst] in Hb. subst r2.
    destruct b.
    + now right.
    + cbn [cleared detected waitedMs]. split; [reflexivity |].
      split; [discriminate |]. intros _. split; [reflexivity |].
      cbn [existsb isWaitForFunction orb]. rewrite existsb_app.
      cbn [existsb isWaitForFunction app]. now rewrite !orb_true_r.
  - cbn [cleared detected waitedMs]. split; [reflexivity |].
    split; [| discriminate]. intros _. split; [reflexivity | exact Hquiet].
  - left. now apply Hthrow.
Qed.

Lemma detect_broken (w : PageWorld) (markers : list jsstring) (n : nat) :
  (forall k, exists err, pageReads w k = ReadThrows err) ->
  fst (fst (detect w markers n)) = Ok false.
Proof.
  intros Hbroken. unfold detect, isLikelyBotProtectionPage.
  destruct (BotProtectionFacts.detectLoop_spec (fun k => pageReads w (n + k)) markers 3 0)
    as (_ & _ & Hpos & _ & Hfalse & _).
  cbn zeta in *.
  destruct (detectLoop (fun k => pageReads w (n + k)) markers 0 3) as [r evs].
  cbn [fst snd] in *.
  destruct (Hbroken (n + (0 + reads evs - 1))) as [err Herr].
  apply (Hfalse err); [apply Hpos; lia | exact Herr].
Qed.

Lemma detectionLoop_broken (w : PageWorld) (markers : list jsstring) (remaining : nat) :
  (forall k, exists err, pageReads w k = ReadThrows err) ->
  (forall k, timeouts w k = Ok tt) ->
  forall n t, fst (fst (fst (detectionLoop w markers remaining n t))) = Ok false.
Proof.
  intros Hbroken Htimeouts.
  induction remaining as [|remaining IH]; intros n t; cbn [detectionLoop]; [reflexivity |].
  pose proof (detect_broken w markers n Hbroken) as Hd.
  destruct (detect w markers n) as [[r n'] evs]. cbn [fst] in Hd. subst r.
  rewrite Htimeouts. specialize (IH n' (S t)).
  destruct (detectionLoop w markers remaining n' (S t)) as [[[r' n''] t'] evs'].
  exact IH.
Qed.

(** X2: the detection fails open through the whole wait: when every read of
    the page throws (and the timeouts return), [waitForBotProtectionToClear]
    reports that no protection was detected, after no wait. *)
Theorem waitForBotProtectionToClear_fails_open (w : PageWorld) (url : jsstring)
  (markers : list jsstring) (timeoutMs : Z) :
  (forall k, exists err, pageReads w k = ReadThrows err) ->
  (forall k, timeouts w k = Ok tt) ->
  fst (waitForBotProtectionToClear w url markers timeoutMs)
  = Ok {| detected := false; cleared := true; waitedMs := 0 |}.
Proof.
  intros Hbroken Htimeouts. unfold waitForBotProtectionToClear.
  rewrite Htimeouts.
  pose proof (detectionLoop_broken w markers 3 Hbroken Htimeouts 0 1) as Hloop.
  destruct (detectionLoop w markers 3 0 1) as [[[r n] t] evs]. cbn [fst] in Hloop.
  subst r. reflexivity.
Qed.

Lemma waitForBotProtectionToClear_fails_open_witness :
  fst (waitForBotProtectionToClear (brokenPage (newError (js "Target closed")))
         (js "https://example.com") DEFAULT_MARKERS 30000)
  = Ok {| detected := false; cleared := true; waitedMs := 0 |}.
Proof.
  apply waitForBotProtectionToClear_fails_open.
  - intros k. exists (newError (js "Target closed")). reflexivity.
  - intros k. reflexivity.
Defined.

End BotProtectionWaitFacts.

(** ** lib/debug-dump.js *)

Module DebugDumpFacts.

Import DebugDump.

Lemma letter_is_not_dash (c : ascii) : isSlugLetter c = true -> ascii_eqb c DASH = false.
Proof.
  intros H. destruct (ascii_eqb c DASH) eqn:E; [| reflexivity].
  apply JsStringFacts.ascii_eqb_true in E. subst c. discriminate.
Qed.

Lemma dashRuns_chars (s : jsstring) : forall inRun,
  forallb isSlugChar (dashRuns s inRun) = true.
Proof.
  induction s as [|c rest IH]; intros inRun; cbn [dashRuns]; [reflexivity |].
  destruct (isSlugLetter c) eqn:Hc.
  - cbn [forallb]. unfold isSlugChar at 1. now rewrite Hc, IH.
  - destruct inRun; [apply IH |]. cbn [forallb]. now rewrite IH.
Qed.

Lemma dashRuns_in_run (s : jsstring) : headIsLetter (dashRuns s true).
Proof.
  induction s as [|c rest IH]; cbn [dashRuns]; [exact I |].
  destruct (isSlugLetter c) eqn:Hc; [exact Hc | exact IH].
Qed.

Lemma dropLeadingDash_chars (s : jsstring) :
  forallb isSlugChar s = true -> forallb isSlugChar (dropLeadingDash s) = true.
Proof.
  destruct s as [|c rest]; [reflexivity |]. cbn [dropLeadingDash forallb].
  intros H. apply andb_true_iff in H as [Hc Hrest].
  destruct (ascii_eqb c DASH); [exact Hrest |]. cbn [forallb]. now rewrite Hc, Hrest.
Qed.

Lemma forallb_rev {A} (f : A -> bool) (l : list A) :
  forallb f l = true -> forallb f (rev l) = true.
Proof.
  rewrite !forallb_forall. intros H x Hx. apply H. now apply in_rev.
Qed.

Lemma forallb_firstn {A} (f : A -> bool) (n : nat) (l : list A) :
  forallb f l = true -> forallb f (firstn n l) = true.
Proof.
  revert l. induction n as [|n IH]; intros [|x l]; cbn [firstn forallb]; auto.
  intros H. apply andb_true_iff in H as [Hx Hl]. rewrite Hx. now apply IH.
Qed.

Lemma dropLeadingDash_dashRuns (s : jsstring) :
  headIsLetter (dropLeadingDash (dashRuns s false)).
Proof.
  destruct s as [|c rest]; cbn [dashRuns]; [exact I |].
  destruct (isSlugLetter c) eqn:Hc; cbn [dropLeadingDash].
  - rewrite (letter_is_not_dash c Hc). exact Hc.
  - change (ascii_eqb DASH DASH) with true. apply dashRuns_in_run.
Qed.

Lemma headIsLetter_app (a b : jsstring) :
  headIsLetter (a ++ b) -> a <> [] -> headIsLetter a.
Proof. destruct a; [congruence | intros H _; exact H]. Qed.

Lemma dropTrailingDash_head (s : jsstring) :
  headIsLetter s -> headIsLetter (rev (dropLeadingDash (rev s))).
Proof.
  intros H. destruct (rev s) as [|c r] eqn:E; [exact I |].
  assert (Hs : s = rev r ++ [c]) by (rewrite <- (rev_involutive s), E; reflexivity).
  cbn [dropLeadingDash]. destruct (ascii_eqb c DASH).
  - destruct (rev r) as [|x xs] eqn:Er; [exact I |].
    rewrite Hs in H. exact H.
  - cbn [rev]. now rewrite <- Hs.
Qed.

Lemma headIsLetter_firstn (n : nat) (s : jsstring) :
  headIsLetter s -> headIsLetter (firstn n s).
Proof. destruct n, s; auto; exact (fun _ => I). Qed.

(** X3: for every input, [safeSlug] returns a non-empty string of at most 60
    characters, all of them lower-case letters, digits or dashes, that does
    not start with a dash. *)
Theorem safeSlug_is_safe (input : jsstring) :
  safeSlug input <> []
  /\ length (safeSlug input) <= 60
  /\ forallb isSlugChar (safeSlug input) = true
  /\ headIsLetter (safeSlug input).
Proof.
  unfold safeSlug, orElse, slice0.
  set (t := trimDashes (dashRuns (toLowerCase input) false)).
  assert (Hchars : forallb isSlugChar t = true).
  { unfold t, trimDashes.
    apply forallb_rev, dropLeadingDash_chars, forallb_rev, dropLeadingDash_chars,
      dashRuns_chars. }
  assert (Hhead : headIsLetter t).
  { unfold t, trimDashes. apply dropTrailingDash_head, dropLeadingDash_dashRuns. }
  destruct (firstn 60 t) as [|c rest] eqn:E; cbn [truthy].
  - split; [discriminate |]. split; [vm_compute; lia |]. split; reflexivity.
  - rewrite <- E. split; [rewrite E; discriminate |].
    split; [apply firstn_le_length |].
    split; [now apply forallb_firstn | now apply headIsLetter_firstn].
Qed.

(** Two names of dump directories. *)
Example safeSlug_url :
  safeSlug (js "https://Example.com/some page?q=1") = js "https-example-com-some-page-q-1".
Proof. vm_compute. reflexivity. Qed.

Example safeSlug_symbols : safeSlug (js "???") = js "page".
Proof. vm_compute. reflexivity. Qed.

End DebugDumpFacts.

(** ** lib/search.js: further properties *)

Module SearchMoreFacts.

Import Search GoogleExtract JsStringFacts JsNumberFacts.

(** X4: every item the in-page script of the Google step returns has a
    non-empty title, the trimmed text of its heading, and a link that neither
    starts with a slash nor mentions [google.com]; the link is the [href] of
    the heading's anchor, or, for an [href] that starts with [/url?], the
    non-empty [q] parameter of that redirect.  A redirect without a usable
    [q] parameter is therefore dropped. *)
Theorem extractResultsFromDocument_items
  (searchParam : jsstring -> completion (option jsstring)) (titleEls : list Heading)
  (r : SearchResult) :
  In r (extractResultsFromDocument searchParam titleEls) ->
  truthy (title r) = true
  /\ startsWith (link r) (js "/") = false
  /\ includes (link r) (js "google.com") = false
  /\ exists titleEl href,
       In titleEl titleEls
       /\ title r = trim (h3_textContent titleEl)
       /\ closest_href titleEl = Some href
       /\ snippet r = snippetOf (title r) (closest_container titleEl)
       /\ (link r = href
           \/ (startsWith href (js "/url?") = true
               /\ searchParam href = Ok (Some (link r))
               /\ truthy (link r) = true)).
Proof.
  induction titleEls as [|titleEl rest IH]; cbn [extractResultsFromDocument]; [intros [] |].
  assert (Hrest : In r (extractResultsFromDocument searchParam rest) ->
                  truthy (title r) = true
                  /\ startsWith (link r) (js "/") = false
                  /\ includes (link r) (js "google.com") = false
                  /\ exists titleEl0 href,
                       In titleEl0 (titleEl :: rest)
                       /\ title r = trim (h3_textContent titleEl0)
                       /\ closest_href titleEl0 = Some href
                       /\ snippet r = snippetOf (title r) (closest_container titleEl0)
                       /\ (link r = href
                           \/ (startsWith href (js "/url?") = true
                               /\ searchParam href = Ok (Some (link r))
                               /\ truthy (link r) = true))).
  { intros H. destruct (IH H) as (Ht & Hs & Hg & el & href & Hin & Hrest).
    repeat split; try assumption. exists el, href. split; [now right | exact Hrest]. }
  destruct (closest_href titleEl) as [link0 |] eqn:Hhref; [| exact Hrest].
  destruct (negb (truthy (trim (h3_textContent titleEl))) || negb (truthy link0)) eqn:Hempty;
    [exact Hrest |].
  apply orb_false_iff in Hempty as [Htitle Hlink].
  apply negb_false_iff in Htitle. apply negb_false_iff in Hlink.
  destruct (startsWith (finalLinkOf searchParam link0) (js "/")
            || includes (finalLinkOf searchParam link0) (js "google.com")) eqn:Hdrop;
    [exact Hrest |].
  apply orb_false_iff in Hdrop as [Hslash Hgoogle].
  intros [<- | H]; [| now apply Hrest].
  cbn [title link snippet]. repeat split; try assumption.
  exists titleEl, link0. split; [now left |]. repeat split; try assumption.
  unfold finalLinkOf in *.
  destruct (startsWith link0 (js "/url?")) eqn:Hurl; [| now left].
  destruct (searchParam link0) as [[q |] | e]; try (now left).
  unfold orElse in *. destruct (truthy q) eqn:Hq; [| now left].
  right. repeat split; assumption.
Qed.

Lemma extractResultsFromDocument_items_witness :
  In {| title := js "Rocq Prover"; link := js "https://rocq-prover.org/";
        snippet := js "Rocq is a formal proof management system with a long history." |}
     (extractResultsFromDocument redirectParam [redirectHeading])
  /\ startsWith (js "https://rocq-prover.org/") (js "/") = false.
Proof.
  assert (Hin : In {| title := js "Rocq Prover"; link := js "https://rocq-prover.org/";
                      snippet := js "Rocq is a formal proof management system with a long history." |}
                   (extractResultsFromDocument redirectParam [redirectHeading]))
    by (vm_compute; left; reflexivity).
  split; [exact Hin |].
  exact (proj1 (proj2 (extractResultsFromDocument_items redirectParam [redirectHeading] _ Hin))).
Defined.

Lemma htmlUrl_is_not_liteUrl (env : Environment) (query : jsstring) :
  HttpGet (htmlUrl env query) <> HttpGet (liteUrl env query).
Proof.
  unfold htmlUrl, liteUrl, js. cbn [list_ascii_of_string app].
  intros H. discriminate H.
Qed.

Lemma bindE_lift_ok {E A B} (a : A) (k : A -> Eff E B) : bindE (lift (Ok a)) k = k a.
Proof. unfold bindE, lift. now destruct (k a). Qed.

Lemma bindE_lift_throw {E A B} (e : thrown) (k : A -> Eff E B) :
  bindE (lift (Throw e)) k = (Throw e, []).
Proof. reflexivity. Qed.

Lemma bindE_emit {E B} (ev : E) (k : unit -> Eff E B) :
  bindE (emit ev) k = (fst (k tt), ev :: snd (k tt)).
Proof. unfold bindE, emit. now destruct (k tt). Qed.

(** The two requests, written out. *)
Lemma searchDuckDuckGoLite_unfold (env : Environment) (query : jsstring) (num : number) :
  searchDuckDuckGoLite env query num
  = (response <- httpFetch env (liteUrl env query) ;;
     _ <- checkStatus response ;;
     html <- text response ;;
     Ok (eachResultLink (cheerio_resultLinks env html) num []),
     [HttpGet (liteUrl env query)]).
Proof.
  unfold searchDuckDuckGoLite. rewrite bindE_emit.
  destruct (httpFetch env (liteUrl env query)) as [response | e];
    [rewrite bindE_lift_ok | reflexivity].
  cbn [bind]. destruct (checkStatus response) as [[] | e];
    [rewrite bindE_lift_ok | reflexivity].
  cbn [bind]. destruct (text response) as [html | e];
    [rewrite bindE_lift_ok | reflexivity].
  reflexivity.
Qed.

Lemma searchDuckDuckGo_unfold (env : Environment) (query : jsstring) (num : number) :
  searchDuckDuckGo env query num
  = match fullMarkupStep env query num with
    | Ok [] => (fst (searchDuckDuckGoLite env query num),
                HttpGet (htmlUrl env query) :: snd (searchDuckDuckGoLite env query num))
    | Ok (r :: results) => (Ok (r :: results), [HttpGet (htmlUrl env query)])
    | Throw e => (Throw e, [HttpGet (htmlUrl env query)])
    end.
Proof.
  unfold searchDuckDuckGo, fullMarkupStep. rewrite bindE_emit.
  destruct (httpFetch env (htmlUrl env query)) as [response | e];
    [rewrite bindE_lift_ok | reflexivity].
  cbn [bind]. destruct (checkStatus response) as [[] | e];
    [rewrite bindE_lift_ok | reflexivity].
  cbn [bind]. destruct (text response) as [html | e];
    [rewrite bindE_lift_ok | reflexivity].
  cbn [bind]. destruct (extractDuckDuckGoResults env html num) as [[|r results] | e];
    [rewrite bindE_lift_ok | rewrite bindE_lift_ok | reflexivity]; reflexivity.
Qed.

(** X5: [searchDuckDuckGo] requests the lightweight endpoint exactly when
    the request to the full-markup endpoint was answered with an accepted
    status and a body from which no result was extracted; a failure of the
    first request, of its status check or of the extraction ends the search
    without a second request. *)
Theorem searchDuckDuckGo_lite_fallback (env : Environment) (query : jsstring)
  (num : number) :
  In (HttpGet (liteUrl env query)) (snd (searchDuckDuckGo env query num))
  <-> exists response html,
        httpFetch env (htmlUrl env query) = Ok response
        /\ checkStatus response = Ok tt
        /\ text response = Ok html
        /\ extractDuckDuckGoResults env html num = Ok [].
Proof.
  pose proof (htmlUrl_is_not_liteUrl env query) as Hne.
  rewrite searchDuckDuckGo_unfold, searchDuckDuckGoLite_unfold. unfold fullMarkupStep.
  destruct (httpFetch env (htmlUrl env query)) as [response | e] eqn:Hf; cbn [bind snd In].
  2:{ split; [intros [H | []]; congruence | intros (r & h & H & _); discriminate]. }
  destruct (checkStatus response) as [[] | e] eqn:Hs; cbn [bind snd In].
  2:{ split; [intros [H | []]; congruence | intros (r & h & H & Hs' & _)].
      injection H as <-. congruence. }
  destruct (text response) as [html | e] eqn:Ht; cbn [bind snd In].
  2:{ split; [intros [H | []]; congruence | intros (r & h & H & _ & Ht' & _)].
      injection H as <-. congruence. }
  destruct (extractDuckDuckGoResults env html num) as [[|r0 results] | e] eqn:Hx;
    cbn [snd In].
  - split.
    + intros _. exists response, html. repeat split; assumption.
    + intros _. right. now left.
  - split; [intros [H | []]; congruence | intros (r & h & H & _ & Ht' & Hx')].
    injection H as <-. rewrite Ht in Ht'. injection Ht' as <-. congruence.
  - split; [intros [H | []]; congruence | intros (r & h & H & _ & Ht' & Hx')].
    injection H as <-. rewrite Ht in Ht'. injection Ht' as <-. congruence.
Qed.


Lemma searchDuckDuckGoLite_guard (env : Environment) (query : jsstring) (num : number)
  (results : list SearchResult) :
  fst (searchDuckDuckGoLite env query num) = Ok results ->
  withinGuard (length results) num.
Proof.
  rewrite searchDuckDuckGoLite_unfold. cbn [fst].
  destruct (httpFetch env (liteUrl env query)) as [response | e]; cbn [bind]; [| discriminate].
  destruct (checkStatus response) as [[] | e]; cbn [bind]; [| discriminate].
  destruct (text response) as [html | e]; cbn [bind]; [| discriminate].
  intros H. injection H as <-.
  exact (proj2 (SearchFacts.eachResultLink_guard num (cheerio_resultLinks env html) [])).
Qed.

(** Where the results of [searchDuckDuckGo] come from, and how many. *)
Lemma searchDuckDuckGo_source (env : Environment) (query : jsstring) (num : number)
  (results : list SearchResult) :
  fst (searchDuckDuckGo env query num) = Ok results ->
  (exists response,
      httpFetch env (htmlUrl env query) = Ok response /\ checkStatus response = Ok tt)
  /\ withinGuard (length results) num.
Proof.
  pose proof (searchDuckDuckGoLite_guard env query num) as Hlite.
  rewrite searchDuckDuckGo_unfold. unfold fullMarkupStep.
  destruct (httpFetch env (htmlUrl env query)) as [response | e]; cbn [bind fst];
    [| discriminate].
  destruct (checkStatus response) as [[] | e] eqn:Hs; cbn [bind fst]; [| discriminate].
  destruct (text response) as [html | e]; cbn [bind fst]; [| discriminate].
  destruct (extractDuckDuckGoResults env html num) as [[|r extracted] | e] eqn:Hx; cbn [fst];
    [| | discriminate].
  - intros H. split; [now exists response | now apply Hlite].
  - intros H. injection H as <-. split; [now exists response |].
    exact (SearchFacts.extractDuckDuckGoResults_guard env html num _ Hx).
Qed.



(** What a count in the range 1..20 allows. *)
Lemma in_range_guard (n : nat) (q : Q) :
  (1 <= q)%Q -> withinGuard n (Finite q) ->
  (inject_Z (Z.of_nat n) < q + 1)%Q
  /\ forall k, (q == inject_Z k)%Q -> (Z.of_nat n <= k)%Z.
Proof.
  intros Hq Hguard. split.
  - destruct (withinGuard_finite n q Hguard) as [-> | Hlt]; [| exact Hlt].
    change (inject_Z (Z.of_nat 0)) with 0%Q. lra.
  - intros k Hk. pose proof (withinGuard_integral n q k Hk Hguard) as Hmax.
    assert (1 <= k)%Z; [| lia].
    rewrite Zle_Qle, <- Hk. exact Hq.
Qed.

Lemma in_range_slice (n : nat) (c q : Q) :
  (inject_Z (Z.of_nat n) <= c)%Q -> (c == q)%Q ->
  (inject_Z (Z.of_nat n) < q + 1)%Q
  /\ forall k, (q == inject_Z k)%Q -> (Z.of_nat n <= k)%Z.
Proof.
  intros Hn Hc. split; [lra |].
  intros k Hk. rewrite Zle_Qle. lra.
Qed.

(** X7: for a requested count between 1 and 20, [searchWebFromContext]
    returns on every path of the chain at most that many results when the
    count is integral, and fewer than the count plus one in general: the
    primary engine slices at the count, the loops of the secondary engine
    stop at the first length that reaches it. *)
Theorem searchWebFromContext_length_in_range (env : Environment) (query : jsstring)
  (q : Q) (results : list SearchResult) :
  (1 <= q <= 20)%Q ->
  fst (searchWebFromContext env query (Finite q)) = Ok results ->
  (inject_Z (Z.of_nat (length results)) < q + 1)%Q
  /\ forall k, (q == inject_Z k)%Q -> (Z.of_nat (length results) <= k)%Z.
Proof.
  intros Hrange. rewrite SearchFacts.searchWebFromContext_value. unfold resultsOrNone.
  pose proof (SearchFacts.searchGoogleFromContext_length env query (Finite q)) as Hg.
  pose proof (searchDuckDuckGo_source env query (Finite q)) as Hd.
  assert (Hnone : (inject_Z (Z.of_nat (@length SearchResult [])) < q + 1)%Q
                  /\ forall k, (q == inject_Z k)%Q ->
                       (Z.of_nat (@length SearchResult []) <= k)%Z).
  { apply in_range_guard; [apply Hrange | now left]. }
  assert (Hsecond : forall rs,
             match fst (searchDuckDuckGo env query (Finite q)) with
             | Ok results' => results'
             | Throw _ => []
             end = rs ->
             (inject_Z (Z.of_nat (length rs)) < q + 1)%Q
             /\ forall k, (q == inject_Z k)%Q -> (Z.of_nat (length rs) <= k)%Z).
  { destruct (fst (searchDuckDuckGo env query (Finite q))) as [rs' | e'].
    - intros rs <-. destruct (Hd rs' eq_refl) as [_ Hguard].
      apply in_range_guard; [apply Hrange | exact Hguard].
    - intros rs <-. exact Hnone. }
  destruct (fst (searchGoogleFromContext env query (Finite q))) as [[|r rs] | e].
  - intros H. injection H as H. now apply Hsecond.
  - intros H. injection H as <-. specialize (Hg (r :: rs) eq_refl).
    destruct (clampedCount (Finite q)) as [c | | negative].
    + destruct Hg as (_ & Hlen & Hsame).
      apply (in_range_slice _ c q Hlen). now apply Hsame.
    + destruct Hg as [Hnan _]. discriminate Hnan.
    + destruct Hg.
  - intros H. injection H as H. now apply Hsecond.
Qed.

Lemma searchWebFromContext_length_in_range_witness :
  (inject_Z (Z.of_nat (length (map (fun i =>
       {| title := js "Result " ++ numberToString (Z.of_nat i);
          link := js "https://example.com/" ++ numberToString (Z.of_nat i);
          snippet := js "snippet" |}) (seq 1 3)))) < (5 # 2) + 1)%Q
  /\ forall k, ((5 # 2) == inject_Z k)%Q ->
       (Z.of_nat (length (map (fun i =>
          {| title := js "Result " ++ numberToString (Z.of_nat i);
             link := js "https://example.com/" ++ numberToString (Z.of_nat i);
             snippet := js "snippet" |}) (seq 1 3))) <= k)%Z.
Proof.
  apply (searchWebFromContext_length_in_range
           (fallbackEnvironment (map directResult (seq 1 25)) []) (js "rocq") (5 # 2)).
  - split; discriminate.
  - vm_compute. reflexivity.
Defined.

End SearchMoreFacts.

(** ** lib/search.js: the full-markup extraction *)

Module DuckDuckGoFacts.

Import Search JsStringFacts JsNumberFacts.





(** With an integral count the extraction stops at the count. *)
Example extractDuckDuckGoResults_integral :
  exists results,
    extractDuckDuckGoResults (fallbackEnvironment (map directResult (seq 1 25)) [])
      (js "<html></html>") (ofZ 2) = Ok results
    /\ length results = 2.
Proof. eexists. split; [vm_compute; reflexivity | reflexivity]. Qed.

Lemma searchWebOneShot_unfold (env : Environment) (session : OneShotSession)
  (query : jsstring) (num : number) :
  searchWebOneShot env session query num
  = match makeProfileDir session with
    | Throw e => (Throw e, [])
    | Ok _ =>
        let search := searchWebFromContext env query (clampedCount num) in
        let body :=
          match openContext session with
          | Throw e => (Throw e, [OpenContext])
          | Ok _ =>
              (match fst search with
               | Ok results => Ok (sliceUpTo (clampedCount num) results)
               | Throw e => Throw e
               end,
               OpenContext :: snd search)
          end in
        match closePages session with
        | Throw e => (Throw e, snd body)
        | Ok _ =>
            (match removeProfileDir session with
             | Ok _ => fst body
             | Throw e => Throw e
             end,
             snd body ++ [RemoveProfileDir])
        end
    end.
Proof.
  unfold searchWebOneShot, clampedCount, finallyE.
  destruct (makeProfileDir session) as [[] | e]; [| reflexivity].
  rewrite SearchMoreFacts.bindE_lift_ok. cbn zeta.
  assert (Hbody : (_ <~ emit OpenContext ;;
                   _ <~ lift (openContext session) ;;
                   results <~ searchWebFromContext env query
                                (Math_max (ofZ 1) (Math_min num (ofZ 20))) ;;
                   ret (sliceUpTo (Math_max (ofZ 1) (Math_min num (ofZ 20))) results))
                  = match openContext session with
                    | Throw e => (Throw e, [OpenContext])
                    | Ok _ =>
                        (match fst (searchWebFromContext env query
                                      (Math_max (ofZ 1) (Math_min num (ofZ 20)))) with
                         | Ok results =>
                             Ok (sliceUpTo (Math_max (ofZ 1) (Math_min num (ofZ 20))) results)
                         | Throw e => Throw e
                         end,
                         OpenContext
                           :: snd (searchWebFromContext env query
                                     (Math_max (ofZ 1) (Math_min num (ofZ 20)))))
                    end).
  { rewrite SearchMoreFacts.bindE_emit.
    destruct (openContext session) as [[] | e]; [| reflexivity].
    rewrite SearchMoreFacts.bindE_lift_ok. unfold bindE, ret.
    destruct (searchWebFromContext env query
                (Math_max (ofZ 1) (Math_min num (ofZ 20)))) as [[results | e] evs];
      cbn [fst snd]; rewrite ?app_nil_r; reflexivity. }
  rewrite Hbody.
  destruct (closePages session) as [[] | e].
  - rewrite SearchMoreFacts.bindE_lift_ok, SearchMoreFacts.bindE_emit. reflexivity.
  - rewrite SearchMoreFacts.bindE_lift_throw. cbn [fst snd]. now rewrite app_nil_r.
Qed.

(** The chain produces events of its own only. *)
Lemma searchGoogleFromContext_events (env : Environment) (query : jsstring)
  (num : number) :
  forallb isSearchEvent (snd (searchGoogleFromContext env query num)) = true.
Proof.
  unfold searchGoogleFromContext.
  set (clampedNum := Math_max (ofZ 1) (Math_min num (ofZ 20))).
  set (page := browse env query clampedNum).
  set (all := flat_map frameResults (frames page)).
  unfold bindE, emit, lift, ret, throwE.
  destruct (navigation page) as [[] | e]; [| reflexivity].
  destruct (length all =? 0); [| reflexivity].
  destruct (diagnostics page) as [d | e]; [| reflexivity].
  destruct (diag_hasCaptcha d || _); reflexivity.
Qed.

Lemma searchDuckDuckGo_events (env : Environment) (query : jsstring) (num : number) :
  forallb isSearchEvent (snd (searchDuckDuckGo env query num)) = true.
Proof.
  rewrite SearchMoreFacts.searchDuckDuckGo_unfold,
    SearchMoreFacts.searchDuckDuckGoLite_unfold.
  destruct (fullMarkupStep env query num) as [[|r rs] | e]; reflexivity.
Qed.

Lemma searchWebFromContext_events (env : Environment) (query : jsstring)
  (numResults : number) :
  forallb isSearchEvent (snd (searchWebFromContext env query numResults)) = true.
Proof.
  pose proof (searchGoogleFromContext_events env query numResults) as Hg.
  pose proof (searchDuckDuckGo_events env query numResults) as Hd.
  unfold searchWebFromContext.
  destruct (searchGoogleFromContext env query numResults) as [[results | e] evs];
    destruct (searchDuckDuckGo env query numResults) as [[results' | e'] evs'];
    try (destruct results as [|r rs]);
    cbn [tryE bindE emit ret fst snd length Nat.eqb app] in *;
    rewrite ?app_nil_r, ?forallb_app; cbn [forallb isSearchEvent];
    rewrite ?forallb_app; cbn [forallb isSearchEvent];
    rewrite ?Hg, ?Hd; reflexivity.
Qed.

(** X9: the one-shot search of the command line.  It throws exactly when
    creating the profile directory, opening the browser context, listing the
    pages of the context in the [finally] block or removing the profile
    directory throws; the search itself never does.  When it returns, it
    returns at most the clamped count of results, a count between 1 and 20
    (and nothing when the count is not a number): it clamps the count before
    calling [searchWebFromContext] and slices what comes back.  Once the
    profile directory exists, removing it is the last thing the function
    does, on the success path and on the failure path alike, unless listing
    the pages throws: then the directory is left behind. *)
Theorem searchWebOneShot_bounded (env : Environment) (session : OneShotSession)
  (query : jsstring) (num : number) :
  let outcome := searchWebOneShot env session query num in
  ((exists results, fst outcome = Ok results)
   <-> makeProfileDir session = Ok tt
       /\ openContext session = Ok tt
       /\ closePages session = Ok tt
       /\ removeProfileDir session = Ok tt)
  /\ (forall results, fst outcome = Ok results ->
        match clampedCount num with
        | Finite c =>
            (1 <= c <= 20)%Q /\ (inject_Z (Z.of_nat (length results)) <= c)%Q
        | NaN => num = NaN /\ results = []
        | Infinity _ => False
        end)
  /\ (forall e, makeProfileDir session = Throw e -> outcome = (Throw e, []))
  /\ (makeProfileDir session = Ok tt -> closePages session = Ok tt ->
      exists before,
        snd outcome = before ++ [RemoveProfileDir] /\ ~ In RemoveProfileDir before)
  /\ (forall e, makeProfileDir session = Ok tt -> closePages session = Throw e ->
        fst outcome = Throw e /\ ~ In RemoveProfileDir (snd outcome)).
Proof.
  cbn zeta.
  pose proof (SearchFacts.searchWebFromContext_value env query (clampedCount num)) as Hv.
  pose proof (searchWebFromContext_events env query (clampedCount num)) as Hevs.
  assert (Hbody : forall body : Eff event (list SearchResult),
             snd body
             = match openContext session with
               | Throw _ => [OpenContext]
               | Ok _ => OpenContext :: snd (searchWebFromContext env query (clampedCount num))
               end ->
             ~ In RemoveProfileDir (snd body)).
  { intros body ->. destruct (openContext session) as [[] | e2].
    - intros [H | H]; [discriminate H |].
      apply (proj1 (forallb_forall _ _) Hevs) in H. discriminate H.
    - intros [H | []]. discriminate H. }
  split; [| split; [| split; [| split]]].
  - rewrite searchWebOneShot_unfold.
    destruct (makeProfileDir session) as [[] | e1]; cbn zeta.
    2:{ split; [intros [rs H]; discriminate H | intros [H _]; discriminate H]. }
    destruct (closePages session) as [[] | e3]; cbn [fst].
    2:{ split; [intros [rs H]; discriminate H | intros (_ & _ & H & _); discriminate H]. }
    destruct (removeProfileDir session) as [[] | e4]; cbn [fst].
    2:{ split; [intros [rs H]; discriminate H | intros (_ & _ & _ & H); discriminate H]. }
    destruct (openContext session) as [[] | e2]; cbn [fst].
    2:{ split; [intros [rs H]; discriminate H | intros (_ & H & _); discriminate H]. }
    rewrite Hv. split; [intros _; now repeat split | intros _; eexists; reflexivity].
  - intros results H.
    destruct (SearchFacts.searchWebOneShot_length env session query num results H)
      as [found ->].
    unfold clampedCount. pose proof (clamped_slice num found) as Hslice.
    destruct (Math_max (ofZ 1) (Math_min num (ofZ 20))) as [c | | negative].
    + destruct Hslice as (Hrange & Hlen & _). now split.
    + now split.
    + exact Hslice.
  - intros e Hdir. rewrite searchWebOneShot_unfold, Hdir. reflexivity.
  - intros Hdir Hpages. rewrite searchWebOneShot_unfold, Hdir, Hpages. cbn zeta. cbn [snd].
    eexists. split; [reflexivity |]. apply Hbody.
    destruct (openContext session); reflexivity.
  - intros e Hdir Hpages. rewrite searchWebOneShot_unfold, Hdir, Hpages. cbn zeta.
    cbn [fst snd]. split; [reflexivity |]. apply Hbody.
    destruct (openContext session); reflexivity.
Qed.

(** A count that is not a number, as [-n abc] gives it: nothing is returned,
    although the listing of the secondary engine has 25 items. *)
Example searchWebOneShot_not_a_number :
  fst (searchWebOneShot (fallbackEnvironment (map directResult (seq 1 25)) []) quietSession
         (js "rocq prover") NaN) = Ok [].
Proof. vm_compute. reflexivity. Qed.

(** The same listing read with a count that is not a number: the loop of the
    extraction never stops. *)
Example extractDuckDuckGoResults_not_a_number :
  exists results,
    extractDuckDuckGoResults (fallbackEnvironment (map directResult (seq 1 25)) [])
      (js "<html></html>") NaN = Ok results
    /\ length results = 25.
Proof. eexists. split; [vm_compute; reflexivity | reflexivity]. Qed.

End DuckDuckGoFacts.

(** ** lib/search.js: the chain as a whole *)

Module SearchChainFacts.

Import Search JsStringFacts.







End SearchChainFacts.

(** ** lib/extract.js and the fetch operations: further properties *)

Module FetchMoreFacts.

Import Extract Fetch.

Lemma marker_length : length TRUNCATION_MARKER = 54.
Proof. reflexivity. Qed.

(** X10: with [truncate = true] the content [parseHtmlToContent] returns has
    at most 2000 characters plus the 54 of the marker, whatever the size of
    the page. *)
Theorem parseHtmlToContent_bounded (L : Libraries) (html url : jsstring)
  (r : ParsedContent) :
  parseHtmlToContent L html url true = Ok r ->
  length (Extract.content r) <= 2054.
Proof.
  intros Hr.
  assert (Hc : exists c, trimmedContent L html url = Ok c).
  { unfold parseHtmlToContent, trimmedContent in *.
    destruct (tryCatch (JSDOM L html url) (fun _ => JSDOM_outsideOnly L html url));
      [eexists; reflexivity | discriminate]. }
  destruct Hc as [c Hc].
  rewrite (ExtractFacts.parseHtmlToContent_content L html url true r c Hr Hc).
  destruct (Nat.le_gt_cases (length c) 2000) as [Hshort | Hlong].
  - rewrite (ExtractFacts.truncateContent_short c Hshort). lia.
  - destruct (ExtractFacts.truncateContent_long c Hlong) as [cut [-> Hcut]].
    rewrite length_app, marker_length. unfold slice0.
    pose proof (firstn_le_length cut c) as Hle.
    destruct Hcut as [[Hcut _] | [-> _]]; lia.
Qed.

Lemma parseHtmlToContent_bounded_witness :
  length (Extract.content longParsed) <= 2054.
Proof.
  apply (parseHtmlToContent_bounded (librariesRendering longMarkdown) (js "<p>long</p>")
           (js "https://example.com")).
  vm_compute. reflexivity.
Defined.


Lemma describe_newError (message : jsstring) :
  truthy message = true -> describe (newError message) = message.
Proof. intros H. unfold describe, newError, orElse. cbn [truthy]. now rewrite H. Qed.

(** X12: [fetchUrlViaHttp] turns each way the exchange can fail into the
    error of its result: a request that throws gives the description of the
    error, or ["Timeout after 15s"] for an [AbortError]; a status outside
    200..299 gives ["HTTP <status> <statusText>"]; a content type that
    mentions neither [text/html] nor [application/xhtml] gives
    ["Not HTML: <type>"], and the body is then not read. *)
Theorem fetchUrlViaHttp_errors (L : Libraries)
  (httpFetch : jsstring -> completion HttpResponse) (u : jsstring) (truncate : bool) :
  let failure message :=
    Ok {| url := u; title := Some []; content := Some []; error := Some message |} in
  match httpFetch u with
  | Throw err =>
      fetchUrlViaHttp L httpFetch u truncate
      = failure (if isAbortError err then js "Timeout after 15s" else describe err)
  | Ok response =>
      let type := match contentType response with Some c => c | None => [] end in
      if negb (ok response) then
        fetchUrlViaHttp L httpFetch u truncate
        = failure (js "HTTP " ++ numberToString (status response) ++ js " "
                   ++ statusText response)
      else if negb (includes type (js "text/html"))
              && negb (includes type (js "application/xhtml")) then
        fetchUrlViaHttp L httpFetch u truncate = failure (js "Not HTML: " ++ type)
      else True
  end.
Proof.
  cbn zeta. unfold fetchUrlViaHttp, httpBody.
  destruct (httpFetch u) as [response | err]; cbn [bind tryCatch]; [| reflexivity].
  destruct (negb (ok response)); cbn [bind tryCatch].
  - rewrite describe_newError by reflexivity. reflexivity.
  - assert (Htype : match contentType response with
                    | Some c => orElse c []
                    | None => []
                    end
                    = match contentType response with Some c => c | None => [] end).
    { destruct (contentType response) as [[|c cs] |]; reflexivity. }
    rewrite Htype.
    destruct (negb (includes _ (js "text/html")) && negb (includes _ (js "application/xhtml")));
      cbn [bind tryCatch]; [| exact I].
    rewrite describe_newError by reflexivity. reflexivity.
Qed.

(** X13: [fetchUrlFromContext] closes the page it opened exactly when the
    page exists and is not closed already, at the very end, on the success
    path and on the failure path alike. *)
Theorem fetchUrlFromContext_closes_page (L : Libraries) (session : PageSession)
  (u : jsstring) (truncate : bool) :
  exists before,
    snd (fetchUrlFromContext L session u truncate)
    = before ++ (if isOk (newPage session) && negb (isClosed session)
                 then [ClosePage] else [])
    /\ ~ In ClosePage before.
Proof.
  exists (match fetchBody L session u truncate with
          | Ok _ => []
          | Throw _ =>
              if isOk (newPage session) && negb (isClosed session) then
                match dumpDir session with
                | Some dir => [ConsoleError (js "Debug dump saved: " ++ dir)]
                | None => []
                end
              else []
          end).
  unfold fetchUrlFromContext, tryE, bindE, lift, emit, ret.
  destruct (fetchBody L session u truncate) as [r | err];
    destruct (isOk (newPage session) && negb (isClosed session));
    try destruct (dumpDir session) as [dir |]; cbn [snd app];
    (split; [reflexivity |]); cbn [In];
    try tauto; intros [H | []]; discriminate.
Qed.

(** X14: [fetchUrlsFromContext] never throws and returns one well-formed
    result for every url, in the order of the urls: a page that fails does not
    end the batch. *)
Theorem fetchUrlsFromContext_one_result_per_url (L : Libraries)
  (context : jsstring -> PageSession) (truncate : bool) (urls : list jsstring) :
  exists rs, fst (fetchUrlsFromContext L context urls truncate) = Ok rs
             /\ map url rs = urls /\ Forall WellFormed rs.
Proof. apply FetchFacts.fetchUrlsFromContext_well_formed. Qed.

End FetchMoreFacts.

(** ** [cleanupContextPages] *)

Module ContextPagesFacts.

Import ContextPages.

Lemma closeCalls_spares (pages : list ContextPage) (k : nat) :
  ~ In k (closeCalls pages (Some k)).
Proof.
  induction pages as [|p rest IH]; cbn [closeCalls]; [intros [] |].
  destruct (isKeepAlive (Some k) p) eqn:Hk; [exact IH |].
  destruct (pageIsClosed p) as [[|] | e]; [exact IH | | intros []].
  intros [H | H]; [| now apply IH].
  cbn [isKeepAlive] in Hk. apply Nat.eqb_neq in Hk. contradiction.
Qed.

Lemma closeCalls_open (pages : list ContextPage) (keep : option nat) (id : nat) :
  In id (closeCalls pages keep) ->
  exists p, In p pages /\ pageId p = id /\ isOpen p = true /\ isKeepAlive keep p = false.
Proof.
  induction pages as [|p rest IH]; cbn [closeCalls]; [intros [] |].
  assert (Hrest : In id (closeCalls rest keep) ->
                  exists q, In q (p :: rest) /\ pageId q = id /\ isOpen q = true
                            /\ isKeepAlive keep q = false).
  { intros H. destruct (IH H) as (q & Hin & Hq). exists q. split; [now right | exact Hq]. }
  destruct (isKeepAlive keep p) eqn:Hk; [exact Hrest |].
  destruct (pageIsClosed p) as [[|] | e] eqn:Hc; [exact Hrest | | intros []].
  intros [<- | H]; [| now apply Hrest].
  exists p. unfold isOpen. rewrite Hc. repeat split; [now left | exact Hk].
Qed.

Lemma closeCalls_all (pages : list ContextPage) (keep : option nat) :
  (forall p, In p pages -> exists b, pageIsClosed p = Ok b) ->
  closeCalls pages keep
  = map pageId (filter (fun p => negb (isKeepAlive keep p) && isOpen p) pages).
Proof.
  induction pages as [|p rest IH]; intros Hall; cbn [closeCalls filter]; [reflexivity |].
  assert (Hrest : forall q, In q rest -> exists b, pageIsClosed q = Ok b)
    by (intros q Hq; apply Hall; now right).
  destruct (isKeepAlive keep p); cbn [negb andb]; [now apply IH |].
  destruct (Hall p (or_introl eq_refl)) as [b Hb]. unfold isOpen at 1. rewrite Hb.
  destruct b; cbn [map]; now rewrite IH.
Qed.

(** X15: [cleanupContextPages] never throws and never closes the keep-alive
    page; every page it closes is a page of the context that reported to be
    open; and when no [isClosed()] call throws, it closes every open page
    other than the keep-alive one, in the order of the context (all open
    pages, when called without a keep-alive page). *)
Theorem cleanupContextPages_spares_keep_alive (pages : completion (list ContextPage))
  (keepAlivePage : option nat) :
  fst (cleanupContextPages pages keepAlivePage) = Ok tt
  /\ (forall k, keepAlivePage = Some k ->
        ~ In k (snd (cleanupContextPages pages keepAlivePage)))
  /\ (forall id, In id (snd (cleanupContextPages pages keepAlivePage)) ->
        exists ps p, pages = Ok ps /\ In p ps /\ pageId p = id /\ isOpen p = true)
  /\ (forall ps, pages = Ok ps ->
        (forall p, In p ps -> exists b, pageIsClosed p = Ok b) ->
        snd (cleanupContextPages pages keepAlivePage)
        = map pageId (filter (fun p => negb (isKeepAlive keepAlivePage p) && isOpen p) ps)).
Proof.
  unfold cleanupContextPages. destruct pages as [ps | e]; cbn [fst snd].
  - split; [reflexivity |]. split; [| split].
    + intros k ->. apply closeCalls_spares.
    + intros id Hid. destruct (closeCalls_open ps keepAlivePage id Hid) as (p & Hin & Hp & Ho & _).
      now exists ps, p.
    + intros ps' H Hall. injection H as <-. now apply closeCalls_all.
  - split; [reflexivity |]. split; [| split].
    + intros k _ [].
    + intros id [].
    + intros ps H. discriminate.
Qed.

End ContextPagesFacts.

(** ** lib/daemon.js: further properties of the handler *)

Module HandlerFacts.

Import Daemon HandlerEvents.

Section Handler.

Variable Data : Type.

(** What the [try] block produces: at most one call of a dependency, never
    a cleanup, and no call at all when it throws before validation ends. *)
Lemma commandBody_calls (deps : Dependencies Data) (body : jsstring) (requestCount : nat) :
  let '((outcome, evs), requestCount') := commandBody deps body requestCount in
  length evs <= 1
  /\ existsb isCleanup evs = false
  /\ (requestCount' = requestCount \/ requestCount' = S requestCount)
  /\ (evs = [] -> exists err, outcome = Throw err).
Proof.
  unfold commandBody.
  destruct (JSON_parse deps (orElse body (js "{}"))) as [parsed | e].
  2:{ cbn. repeat split; try lia; auto. now exists e. }
  destruct (getProperty parsed (js "command")) as [command | e].
  2:{ cbn. repeat split; try lia; auto. now exists e. }
  destruct (getProperty parsed (js "payload")) as [payloadValue | e].
  2:{ cbn. repeat split; try lia; auto. now exists e. }
  set (payload := match payloadValue with
                  | Some v => if truthyJson payloadValue then v else JObject []
                  | None => JObject []
                  end).
  rewrite Nat.add_1_r.
  destruct (isCommand command "fetch").
  - destruct (match getProperty payload (js "url") with Ok v => v | Throw _ => None end)
      as [url |].
    + destruct (truthyJson (Some url)).
      * unfold bindE, emit, lift.
        destruct (fetchUrlFromContext deps url _); cbn;
          repeat split; try lia; auto; discriminate.
      * cbn. repeat split; try lia; auto. eexists; reflexivity.
    + cbn. repeat split; try lia; auto. eexists; reflexivity.
  - destruct (isCommand command "fetchMany").
    + destruct (match getProperty payload (js "urls") with Ok v => v | Throw _ => None end)
        as [[| | | | | urls |] |];
        try (cbn; repeat split; try lia; auto; eexists; reflexivity).
      unfold bindE, emit, lift.
      destruct (fetchUrlsFromContext deps urls _); cbn;
        repeat split; try lia; auto; discriminate.
    + destruct (isCommand command "search").
      * destruct (match getProperty payload (js "query") with Ok v => v | Throw _ => None end)
          as [query |].
        -- destruct (truthyJson (Some query)).
           ++ unfold bindE, emit, lift.
              destruct (searchWebFromContext deps query _); cbn;
                repeat split; try lia; auto; discriminate.
           ++ cbn. repeat split; try lia; auto. eexists; reflexivity.
        -- cbn. repeat split; try lia; auto. eexists; reflexivity.
      * cbn. repeat split; try lia; auto. eexists; reflexivity.
Qed.

(** X16: for every request body the handler replies once; the events of the
    task are at most one operation on the browser session followed by exactly
    one cleanup of the pages, on the [200] path and on the [400] path alike;
    a body that led to no operation is answered [400]; and the request counter
    moves by at most one. *)
Theorem handleCommand_cleans_up_once (deps : Dependencies Data) (body : jsstring)
  (requestCount : nat) :
  let '(reply, requestCount', evs) := handleCommand deps body requestCount in
  exists calls,
    evs = calls ++ [CleanupContextPages]
    /\ length calls <= 1
    /\ existsb isCleanup calls = false
    /\ (requestCount' = requestCount \/ requestCount' = S requestCount)
    /\ (calls = [] -> exists message, reply = Reply400 message).
Proof.
  unfold handleCommand.
  pose proof (commandBody_calls deps body requestCount) as H.
  destruct (commandBody deps body requestCount) as [[outcome evs] requestCount'].
  destruct H as (Hlen & Hclean & Hcount & Hnone).
  destruct outcome as [data | err]; exists evs; repeat split; try assumption.
  - intros Hevs. destruct (Hnone Hevs) as [err H]. discriminate.
  - intros _. eexists; reflexivity.
Qed.

(** X17: a finite [numResults] is handed to [searchWebFromContext] as it is:
    the daemon does not clamp it. *)
Theorem search_with_finite_count_passes_it_on (deps : Dependencies Data)
  (body : jsstring) (requestCount : nat) (fields payloadFields : list (jsstring * json))
  (query : json) (n : Z) :
  JSON_parse deps (orElse body (js "{}")) = Ok (JObject fields) ->
  lookup (js "command") fields = Some (JString (js "search")) ->
  lookup (js "payload") fields = Some (JObject payloadFields) ->
  lookup (js "query") payloadFields = Some query ->
  truthyJson (Some query) = true ->
  lookup (js "numResults") payloadFields = Some (JNumber n) ->
  handleCommand deps body requestCount
  = (match searchWebFromContext deps query n with
     | Ok data => Reply200 data
     | Throw err => Reply400 (messageOf err)
     end,
     S requestCount,
     [CallSearch query n; CleanupContextPages]).
Proof.
  intros Hparse Hcommand Hpayload Hquery Htruthy Hcount.
  unfold handleCommand, commandBody.
  rewrite Hparse. cbn [getProperty]. rewrite Hcommand, Hpayload.
  change (truthyJson (Some (JObject payloadFields))) with true.
  cbn [getProperty].
  rewrite DaemonFacts.search_is_not_fetch, DaemonFacts.search_is_not_fetchMany,
    DaemonFacts.search_is_search.
  rewrite Hquery, Htruthy, Hcount, Nat.add_1_r. cbn [Number_isFinite].
  unfold bindE, emit, lift.
  destruct (searchWebFromContext deps query n); reflexivity.
Qed.

(** X18: a body that cannot be parsed is answered [400] with the message of
    the parser, without any operation on the session and without being
    counted; an empty body is handled as the body [{}]. *)
Theorem handleCommand_rejects_malformed_body (deps : Dependencies Data) (body : jsstring)
  (requestCount : nat) :
  match JSON_parse deps (orElse body (js "{}")) with
  | Throw err =>
      handleCommand deps body requestCount
      = (Reply400 (messageOf err), requestCount, [CleanupContextPages])
  | Ok _ => True
  end
  /\ handleCommand deps [] requestCount = handleCommand deps (js "{}") requestCount.
Proof.
  split; [| reflexivity].
  unfold handleCommand, commandBody.
  destruct (JSON_parse deps (orElse body (js "{}"))); [exact I | reflexivity].
Qed.

End Handler.

Lemma search_with_finite_count_passes_it_on_witness :
  handleCommand (countingDependencies (Some (JNumber 50))) (js "{}") 0
  = (Reply200 50%Z, 1, [CallSearch (JString (js "rocq")) 50; CleanupContextPages]).
Proof.
  exact (search_with_finite_count_passes_it_on Z
           (countingDependencies (Some (JNumber 50))) (js "{}") 0
           [ (js "command", JString (js "search"));
             (js "payload", JObject [ (js "query", JString (js "rocq"));
                                      (js "numResults", JNumber 50) ]) ]
           [ (js "query", JString (js "rocq")); (js "numResults", JNumber 50) ]
           (JString (js "rocq")) 50
           eq_refl eq_refl eq_refl eq_refl eq_refl eq_refl).
Defined.

End HandlerFacts.

(** ** lib/daemon-client.js *)

Module DaemonClientFacts.

Import Daemon DaemonClient.

(** X19: the reply of the daemon and the client fit together: for a reply
    [200] with some data, [sendDaemonCommand] returns that data; for a reply
    [400] it throws an error whose message is the message of the daemon, or
    ["daemon command failed"] when that message is empty. *)
Theorem sendDaemonCommand_round_trip (daemonUrl command : jsstring)
  (reply : HttpReply json) :
  truthy daemonUrl = true ->
  truthy command = true ->
  sendDaemonCommand daemonUrl command (Ok (Ok (envelope reply)))
  = match reply with
    | Reply200 data => Ok (Some data)
    | Reply400 message => Throw (newError (orElse message (js "daemon command failed")))
    end.
Proof.
  intros Hurl Hcommand. unfold sendDaemonCommand. rewrite Hurl, Hcommand. cbn [negb bind].
  destruct reply as [data | message]; cbn [envelope].
  - reflexivity.
  - cbn [truthyJson isObject negb orb].
    change (property (JObject [(js "success", JBool false); (js "error", JString message)])
              "success") with (Some (JBool false)).
    change (property (JObject [(js "success", JBool false); (js "error", JString message)])
              "error") with (Some (JString message)).
    cbn [truthyJson negb jsonToString]. unfold orElse.
    destruct (truthy message); reflexivity.
Qed.

Lemma sendDaemonCommand_round_trip_witness :
  sendDaemonCommand (js "http://127.0.0.1:9377") (js "search")
    (Ok (Ok (envelope (Reply400 (js "search requires payload.query")))))
  = Throw (newError (js "search requires payload.query")).
Proof.
  exact (sendDaemonCommand_round_trip (js "http://127.0.0.1:9377") (js "search")
           (Reply400 (js "search requires payload.query")) eq_refl eq_refl).
Defined.

(** A response that is not the envelope of the daemon is refused. *)
Example sendDaemonCommand_invalid :
  sendDaemonCommand (js "http://127.0.0.1:9377") (js "search")
    (Ok (Throw (newError (js "Unexpected token"))))
  = Throw (newError (js "invalid daemon response")).
Proof. reflexivity. Qed.

Lemma checkHealthAt_value (w : ClientWorld) (daemonUrl : jsstring) (k : nat) :
  truthy daemonUrl = true ->
  checkHealthAt w daemonUrl k
  = (Ok (match checkDaemonHealth daemonUrl (healthRequests w k) with
         | Ok (Some payload) => Some payload
         | _ => None
         end),
     [HealthRequest k]).
Proof.
  intros Hurl. unfold checkHealthAt, checkDaemonHealth. rewrite Hurl. cbn [negb].
  unfold bindE, emit, lift. cbn [app].
  destruct (healthRequests w k) as [response | e]; [| reflexivity].
  destruct (negb (health_ok response)); [reflexivity |].
  destruct (health_json response) as [payload | e]; [| reflexivity].
  destruct (statusIsOk payload); reflexivity.
Qed.

Lemma healthy_payload (w : ClientWorld) (daemonUrl : jsstring) (k : nat) (payload : json) :
  checkDaemonHealth daemonUrl (healthRequests w k) = Ok (Some payload) ->
  statusIsOk payload = true /\ healthy w daemonUrl k = true.
Proof.
  intros H. unfold healthy. rewrite H. split; [| reflexivity].
  unfold checkDaemonHealth in H. destruct (negb (truthy daemonUrl)); [discriminate |].
  destruct (healthRequests w k) as [response | e]; [| discriminate].
  destruct (negb (health_ok response)); [discriminate |].
  destruct (health_json response) as [p | e]; [| discriminate].
  destruct (statusIsOk p) eqn:Hp; [| discriminate]. now injection H as <-.
Qed.

Lemma unhealthy_check (w : ClientWorld) (daemonUrl : jsstring) (k : nat) :
  match checkDaemonHealth daemonUrl (healthRequests w k) with
  | Ok (Some payload) => Some payload
  | _ => None
  end = None ->
  healthy w daemonUrl k = false.
Proof.
  unfold healthy.
  destruct (checkDaemonHealth daemonUrl (healthRequests w k)) as [[p |] | e];
    [discriminate | reflexivity | reflexivity].
Qed.

(** The polling loop of [stopDaemon]. *)
Lemma awaitShutdown_spec (w : ClientWorld) (daemonUrl : jsstring) (pid : Z) :
  truthy daemonUrl = true ->
  forall remaining k,
    (exists j, j < remaining
               /\ awaitShutdown w daemonUrl pid k remaining
                  = (Ok Stopped, map HealthRequest (seq k (S j)))
               /\ healthy w daemonUrl (k + j) = false
               /\ forall i, i < j -> healthy w daemonUrl (k + i) = true)
    \/ (awaitShutdown w daemonUrl pid k remaining
        = (Ok (Stopping pid), map HealthRequest (seq k remaining))
        /\ forall i, i < remaining -> healthy w daemonUrl (k + i) = true).
Proof.
  intros Hurl. induction remaining as [|remaining IH]; intros k; cbn [awaitShutdown].
  - right. split; [reflexivity | intros i Hi; lia].
  - rewrite (checkHealthAt_value w daemonUrl k Hurl).
    destruct (checkDaemonHealth daemonUrl (healthRequests w k)) as [[payload |] | e] eqn:Hc.
    + destruct (healthy_payload w daemonUrl k payload Hc) as [_ Hk].
      unfold bindE at 1.
      destruct (IH (S k)) as [(j & Hj & Hrun & Hbad & Hgood) | [Hrun Hgood]].
      * left. exists (S j). rewrite Hrun. split; [lia |]. split; [reflexivity |].
        split; [now replace (k + S j) with (S k + j) by lia |].
        intros i Hi. destruct i as [|i]; [now rewrite Nat.add_0_r |].
        replace (k + S i) with (S k + i) by lia. apply Hgood. lia.
      * right. rewrite Hrun. split; [reflexivity |].
        intros i Hi. destruct i as [|i]; [now rewrite Nat.add_0_r |].
        replace (k + S i) with (S k + i) by lia. apply Hgood. lia.
    + left. exists 0. split; [lia |]. split; [reflexivity |].
      split; [| intros i Hi; lia].
      rewrite Nat.add_0_r. unfold healthy. now rewrite Hc.
    + left. exists 0. split; [lia |]. split; [reflexivity |].
      split; [| intros i Hi; lia].
      rewrite Nat.add_0_r. unfold healthy. now rewrite Hc.
Qed.

(** X20: what [stopDaemon] reports.  ["not running"] is reported without any
    signal or request; ["stopped"] only after the signal was sent to the pid
    of the pid file and a request of [/health], among the first 20, failed;
    ["stopping"] with that pid after 20 requests that all succeeded; and it
    throws only for a missing argument or when sending the signal failed. *)
Theorem stopDaemon_reports (w : ClientWorld) (daemonUrl daemonPidFile : jsstring) :
  match stopDaemon w daemonUrl daemonPidFile with
  | (Ok NotRunning, evs) => evs = []
  | (Ok Stopped, evs) =>
      exists pid j,
        j < 20
        /\ getDaemonPid w daemonPidFile = Ok (Some pid)
        /\ evs = Kill pid :: map HealthRequest (seq 0 (S j))
        /\ healthy w daemonUrl j = false
        /\ forall i, i < j -> healthy w daemonUrl i = true
  | (Ok (Stopping pid), evs) =>
      getDaemonPid w daemonPidFile = Ok (Some pid)
      /\ evs = Kill pid :: map HealthRequest (seq 0 20)
      /\ forall i, i < 20 -> healthy w daemonUrl i = true
  | (Throw _, evs) =>
      (evs = [] /\ (truthy daemonUrl = false \/ truthy daemonPidFile = false))
      \/ exists pid err, evs = [Kill pid] /\ sigterm w pid = Throw err
  end.
Proof.
  unfold stopDaemon.
  destruct (truthy daemonUrl) eqn:Hurl; cbn [negb]; [| left; auto].
  destruct (truthy daemonPidFile) eqn:Hfile; cbn [negb]; [| left; auto].
  destruct (getDaemonPid w daemonPidFile) as [[pid |] | e] eqn:Hpid.
  3:{ unfold getDaemonPid in Hpid. rewrite Hfile in Hpid. discriminate. }
  2:{ reflexivity. }
  rewrite SearchMoreFacts.bindE_lift_ok.
  destruct (pid =? 0)%Z; [reflexivity |].
  destruct (processRunning w pid); cbn [negb]; [| reflexivity].
  rewrite SearchMoreFacts.bindE_emit.
  destruct (sigterm w pid) as [[] | err] eqn:Hkill; cbn [tryCatch].
  - rewrite SearchMoreFacts.bindE_lift_ok.
    destruct (awaitShutdown_spec w daemonUrl pid Hurl 20 0)
      as [(j & Hj & -> & Hbad & Hgood) | [-> Hgood]]; cbn [fst snd].
    + exists pid, j. repeat split; try assumption.
    + repeat split; try assumption.
  - rewrite SearchMoreFacts.bindE_lift_throw. cbn [fst snd]. right. now exists pid, err.
Qed.

(** The daemon of [stoppingWorld] is reported stopped at the third request. *)
Example stopDaemon_stopped :
  stopDaemon stoppingWorld (js "http://127.0.0.1:9377") (js "/tmp/web-browse-daemon.pid")
  = (Ok Stopped, [Kill 4242; HealthRequest 0; HealthRequest 1; HealthRequest 2]).
Proof. vm_compute. reflexivity. Qed.

(** The polling loop of [startDaemonInBackground]. *)
Lemma awaitHealthy_spec (w : ClientWorld) (daemonUrl : jsstring) :
  truthy daemonUrl = true ->
  forall remaining k,
    (exists j payload,
        j < remaining
        /\ awaitHealthy w daemonUrl k remaining
           = (Ok payload, map HealthRequest (seq k (S j)))
        /\ checkDaemonHealth daemonUrl (healthRequests w (k + j)) = Ok (Some payload)
        /\ forall i, i < j -> healthy w daemonUrl (k + i) = false)
    \/ (awaitHealthy w daemonUrl k remaining
        = (Throw (newError (js "daemon failed to start on " ++ daemonUrl)),
           map HealthRequest (seq k remaining))
        /\ forall i, i < remaining -> healthy w daemonUrl (k + i) = false).
Proof.
  intros Hurl. induction remaining as [|remaining IH]; intros k; cbn [awaitHealthy].
  - right. split; [reflexivity | intros i Hi; lia].
  - rewrite (checkHealthAt_value w daemonUrl k Hurl).
    destruct (checkDaemonHealth daemonUrl (healthRequests w k)) as [[payload |] | e] eqn:Hc.
    + left. exists 0, payload. split; [lia |]. split; [reflexivity |].
      split; [now rewrite Nat.add_0_r | intros i Hi; lia].
    + assert (Hk : healthy w daemonUrl k = false) by (unfold healthy; now rewrite Hc).
      unfold bindE at 1.
      destruct (IH (S k)) as [(j & payload & Hj & Hrun & Hok & Hbad) | [Hrun Hbad]].
      * left. exists (S j), payload. rewrite Hrun. split; [lia |]. split; [reflexivity |].
        split; [now replace (k + S j) with (S k + j) by lia |].
        intros i Hi. destruct i as [|i]; [now rewrite Nat.add_0_r |].
        replace (k + S i) with (S k + i) by lia. apply Hbad. lia.
      * right. rewrite Hrun. split; [reflexivity |].
        intros i Hi. destruct i as [|i]; [now rewrite Nat.add_0_r |].
        replace (k + S i) with (S k + i) by lia. apply Hbad. lia.
    + assert (Hk : healthy w daemonUrl k = false) by (unfold healthy; now rewrite Hc).
      unfold bindE at 1.
      destruct (IH (S k)) as [(j & payload & Hj & Hrun & Hok & Hbad) | [Hrun Hbad]].
      * left. exists (S j), payload. rewrite Hrun. split; [lia |]. split; [reflexivity |].
        split; [now replace (k + S j) with (S k + j) by lia |].
        intros i Hi. destruct i as [|i]; [now rewrite Nat.add_0_r |].
        replace (k + S i) with (S k + i) by lia. apply Hbad. lia.
      * right. rewrite Hrun. split; [reflexivity |].
        intros i Hi. destruct i as [|i]; [now rewrite Nat.add_0_r |].
        replace (k + S i) with (S k + i) by lia. apply Hbad. lia.
Qed.

(** X21: [ensureDaemonRunning] starts a daemon only when the first request
    of [/health] fails: with a healthy daemon it returns the payload of that
    request and spawns nothing.  Otherwise it spawns one process and makes at
    most 20 further requests; what it returns is then the payload of the
    first of them that succeeds, every request before it having failed.  The
    payload returned is always that of a successful request whose [status] is
    ["ok"], and with all arguments given it throws only after 21 failed
    requests. *)
Theorem ensureDaemonRunning_spawns_when_unhealthy (w : ClientWorld)
  (scriptPath daemonUrl daemonPidFile : jsstring) (forwardedArgs : list jsstring) :
  truthy scriptPath = true ->
  truthy daemonUrl = true ->
  truthy daemonPidFile = true ->
  let spawn := Spawn (scriptPath :: js "--daemon-run" :: forwardedArgs) in
  match ensureDaemonRunning w scriptPath daemonUrl daemonPidFile forwardedArgs with
  | (Ok payload, evs) =>
      statusIsOk payload = true
      /\ ((healthy w daemonUrl 0 = true
           /\ evs = [HealthRequest 0]
           /\ checkDaemonHealth daemonUrl (healthRequests w 0) = Ok (Some payload))
          \/ (healthy w daemonUrl 0 = false
              /\ exists j, j < 20
                           /\ evs = HealthRequest 0 :: spawn
                                    :: map HealthRequest (seq 1 (S j))
                           /\ checkDaemonHealth daemonUrl (healthRequests w (S j))
                              = Ok (Some payload)
                           /\ forall i, i <= j -> healthy w daemonUrl i = false))
  | (Throw _, evs) =>
      evs = HealthRequest 0 :: spawn :: map HealthRequest (seq 1 20)
      /\ forall i, i <= 20 -> healthy w daemonUrl i = false
  end.
Proof.
  intros Hscript Hurl Hfile spawn. unfold ensureDaemonRunning.
  rewrite (checkHealthAt_value w daemonUrl 0 Hurl).
  destruct (checkDaemonHealth daemonUrl (healthRequests w 0)) as [[payload |] | e] eqn:Hc.
  - destruct (healthy_payload w daemonUrl 0 payload Hc) as [Hok Hh].
    cbn [bindE ret app]. split; [exact Hok |]. left. repeat split; assumption.
  - assert (H0 : healthy w daemonUrl 0 = false) by (unfold healthy; now rewrite Hc).
    unfold bindE at 1. unfold startDaemonInBackground.
    rewrite Hscript, Hurl, Hfile. cbn [negb]. rewrite SearchMoreFacts.bindE_emit.
    destruct (awaitHealthy_spec w daemonUrl Hurl 20 1)
      as [(j & payload & Hj & -> & Hok & Hbad) | [-> Hbad]]; cbn [fst snd app].
    + destruct (healthy_payload w daemonUrl (1 + j) payload Hok) as [Hstatus _].
      split; [exact Hstatus |]. right. split; [exact H0 |].
      exists j. split; [exact Hj |]. split; [reflexivity |]. split; [exact Hok |].
      intros i Hi. destruct i as [|i]; [exact H0 |]. apply (Hbad i). lia.
    + split; [reflexivity |]. intros i Hi. destruct i as [|i]; [exact H0 |].
      apply (Hbad i). lia.
  - assert (H0 : healthy w daemonUrl 0 = false) by (unfold healthy; now rewrite Hc).
    unfold bindE at 1. unfold startDaemonInBackground.
    rewrite Hscript, Hurl, Hfile. cbn [negb]. rewrite SearchMoreFacts.bindE_emit.
    destruct (awaitHealthy_spec w daemonUrl Hurl 20 1)
      as [(j & payload & Hj & -> & Hok & Hbad) | [-> Hbad]]; cbn [fst snd app].
    + destruct (healthy_payload w daemonUrl (1 + j) payload Hok) as [Hstatus _].
      split; [exact Hstatus |]. right. split; [exact H0 |].
      exists j. split; [exact Hj |]. split; [reflexivity |]. split; [exact Hok |].
      intros i Hi. destruct i as [|i]; [exact H0 |]. apply (Hbad i). lia.
    + split; [reflexivity |]. intros i Hi. destruct i as [|i]; [exact H0 |].
      apply (Hbad i). lia.
Qed.

Lemma ensureDaemonRunning_spawns_when_unhealthy_witness :
  fst (ensureDaemonRunning startingWorld (js "/opt/web-browse.js")
         (js "http://127.0.0.1:9377") (js "/tmp/web-browse-daemon.pid") [])
  = Ok (JObject [(js "status", JString (js "ok")); (js "pid", JNumber 4242)])
  /\ match ensureDaemonRunning startingWorld (js "/opt/web-browse.js")
             (js "http://127.0.0.1:9377") (js "/tmp/web-browse-daemon.pid") [] with
     | (Ok payload, evs) =>
         statusIsOk payload = true /\ healthy startingWorld (js "http://127.0.0.1:9377") 0 = false
     | (Throw _, _) => False
     end.
Proof.
  split; [vm_compute; reflexivity |].
  pose proof (ensureDaemonRunning_spawns_when_unhealthy startingWorld
                (js "/opt/web-browse.js") (js "http://127.0.0.1:9377")
                (js "/tmp/web-browse-daemon.pid") [] eq_refl eq_refl eq_refl) as H.
  cbn zeta in H.
  destruct (ensureDaemonRunning startingWorld (js "/opt/web-browse.js")
              (js "http://127.0.0.1:9377") (js "/tmp/web-browse-daemon.pid") [])
    as [[payload | e] evs] eqn:E.
  - split; [exact (proj1 H) | vm_compute; reflexivity].
  - vm_compute in E. discriminate E.
Defined.

End DaemonClientFacts.

(** ** lib/cdp.js: further properties *)

Module CdpMoreFacts.

Import Daemon DaemonClient Cdp CdpSession.

Lemma isPortAvailable_range (os : OS) (k : nat) (port : Z) :
  isPortAvailable os k port = true -> (0 < port <= 65535)%Z.
Proof.
  unfold isPortAvailable.
  destruct ((port <=? 0)%Z || (65535 <? port)%Z) eqn:H; [discriminate |].
  apply orb_false_iff in H as [H1 H2].
  apply Z.leb_gt in H1. apply Z.ltb_ge in H2. lia.
Qed.

(** X22: a port that [chooseAvailablePort] found by probing is a valid port
    (1..65535) at most 25 above the preferred one: a preferred port out of
    range is never bound and never returned.  Any other result is the outcome
    of [getEphemeralPort]. *)
Theorem chooseAvailablePort_range (os : OS) (preferredPort : Z) :
  match chooseAvailablePort os preferredPort with
  | Ok port =>
      ((0 < port <= 65535)%Z /\ (preferredPort <= port <= preferredPort + 25)%Z)
      \/ getEphemeralPort os = Ok port
  | Throw e => getEphemeralPort os = Throw e
  end.
Proof.
  unfold chooseAvailablePort.
  destruct (isPortAvailable os 0 preferredPort) eqn:H0.
  - left. split; [now apply (isPortAvailable_range os 0) | lia].
  - destruct (tryOffsets os preferredPort 1 25) as [candidate |] eqn:Hloop.
    + destruct (CdpFacts.tryOffsets_found os preferredPort 25 1 candidate Hloop)
        as (k & Hk & -> & Hfree & _).
      left. split; [now apply (isPortAvailable_range os k) | lia].
    + destruct (getEphemeralPort os); [now right | reflexivity].
Qed.

Lemma hasSocketUrl_object (payload : json) :
  hasSocketUrl payload = true ->
  exists fields socketUrl,
    payload = JObject fields
    /\ lookup (js "webSocketDebuggerUrl") fields = Some (JString socketUrl)
    /\ startsWith socketUrl (js "ws") = true.
Proof.
  unfold hasSocketUrl, property.
  destruct payload as [| b | n | neg | s | items | fields]; cbn [getProperty isObject];
    rewrite ?andb_false_r; try discriminate.
  intros H. apply andb_true_iff in H as [_ H].
  destruct (lookup (js "webSocketDebuggerUrl") fields) as [[| | | | s | |] |] eqn:Hurl;
    try discriminate.
  now exists fields, s.
Qed.

(** X23: when [waitForCdpVersion] returns a payload, it is a JSON object
    whose [webSocketDebuggerUrl] is a string that starts with ["ws"], taken
    from the first poll that was answered [ok] with such a payload; every
    earlier poll failed the test.  It returns [null] exactly when no poll
    passes. *)
Theorem waitForCdpVersion_first_usable (polls : list (completion VersionResponse)) :
  match waitForCdpVersion polls with
  | Some payload =>
      (exists fields socketUrl,
          payload = JObject fields
          /\ lookup (js "webSocketDebuggerUrl") fields = Some (JString socketUrl)
          /\ startsWith socketUrl (js "ws") = true)
      /\ exists before response after,
           polls = before ++ Ok response :: after
           /\ version_ok response = true
           /\ version_json response = Ok payload
           /\ forallb (fun poll => negb (accepted poll)) before = true
  | None => forallb (fun poll => negb (accepted poll)) polls = true
  end.
Proof.
  induction polls as [|poll rest IH]; cbn [waitForCdpVersion]; [reflexivity |].
  assert (Hskip : accepted poll = false ->
                  match waitForCdpVersion rest with
                  | Some payload =>
                      (exists fields socketUrl,
                          payload = JObject fields
                          /\ lookup (js "webSocketDebuggerUrl") fields
                             = Some (JString socketUrl)
                          /\ startsWith socketUrl (js "ws") = true)
                      /\ exists before response after,
                           poll :: rest = before ++ Ok response :: after
                           /\ version_ok response = true
                           /\ version_json response = Ok payload
                           /\ forallb (fun poll => negb (accepted poll)) before = true
                  | None => forallb (fun poll => negb (accepted poll)) (poll :: rest) = true
                  end).
  { intros Hno. destruct (waitForCdpVersion rest) as [payload |].
    - destruct IH as [Hobj (before & response & after & -> & Hok & Hjson & Hbefore)].
      split; [exact Hobj |]. exists (poll :: before), response, after.
      cbn [app forallb]. rewrite Hno, Hbefore. repeat split; assumption.
    - cbn [forallb]. now rewrite Hno, IH. }
  destruct poll as [response | e]; [| now apply Hskip].
  destruct (version_ok response) eqn:Hok;
    [| apply Hskip; unfold accepted; cbn [waitForCdpVersion]; now rewrite Hok].
  destruct (version_json response) as [payload | e] eqn:Hjson;
    [| apply Hskip; unfold accepted; cbn [waitForCdpVersion]; now rewrite Hok, Hjson].
  destruct (hasSocketUrl payload) eqn:Hurl;
    [| apply Hskip; unfold accepted; cbn [waitForCdpVersion]; now rewrite Hok, Hjson, Hurl].
  split; [now apply hasSocketUrl_object |].
  exists [], response, rest. repeat split; assumption.
Qed.

Example waitForCdpVersion_third_poll : waitForCdpVersion startingPolls = Some versionPayload.
Proof. vm_compute. reflexivity. Qed.

Lemma usable_is_not_electron (payload : json) :
  isLikelyUsableBrowserCdp (Some payload) = true ->
  forall userAgent,
    property payload "User-Agent" = Some (JString userAgent) ->
    includes (toLowerCase userAgent) (js "electron/") = false.
Proof.
  unfold isLikelyUsableBrowserCdp.
  destruct (negb (truthyJson (Some payload)) || negb (isObject payload)); [discriminate |].
  intros H userAgent Hua. rewrite Hua in H.
  destruct (includes (toLowerCase userAgent) (js "electron/")); [discriminate | reflexivity].
Qed.

(** X24: [resolveCdpOptions] always answers [useCdp = true].  With [--cdp]
    or [--cdp-start] given it keeps the flags and the port and probes
    nothing.  Without them it probes port 9225 and then 9222 and attaches to
    the first that is usable, a usable endpoint being one whose payload is an
    object with a [User-Agent] that does not mention ["electron/"] in any
    case; when neither is usable it asks for a browser to be started on port
    9225. *)
Theorem resolveCdpOptions_always_uses_cdp (probe : Z -> option json)
  (useCdpFlag cdpStartFlag : bool) (cdpPortValue : Z) :
  let options := fst (resolveCdpOptions probe useCdpFlag cdpStartFlag cdpPortValue) in
  let probed := snd (resolveCdpOptions probe useCdpFlag cdpStartFlag cdpPortValue) in
  useCdp options = true
  /\ (useCdpFlag || cdpStartFlag = true ->
      options = {| useCdp := true; cdpStart := cdpStartFlag; cdpPort := cdpPortValue |}
      /\ probed = [])
  /\ (useCdpFlag || cdpStartFlag = false ->
      (cdpStart options = false ->
         (cdpPort options = 9225%Z \/ (cdpPort options = 9222%Z
                                       /\ isLikelyUsableBrowserCdp (probe 9225%Z) = false))
         /\ exists payload,
              probe (cdpPort options) = Some payload
              /\ isLikelyUsableBrowserCdp (Some payload) = true
              /\ forall userAgent,
                   property payload "User-Agent" = Some (JString userAgent) ->
                   includes (toLowerCase userAgent) (js "electron/") = false)
      /\ (cdpStart options = true ->
          cdpPort options = 9225%Z
          /\ isLikelyUsableBrowserCdp (probe 9225%Z) = false
          /\ isLikelyUsableBrowserCdp (probe 9222%Z) = false)).
Proof.
  cbn zeta. unfold resolveCdpOptions.
  destruct useCdpFlag, cdpStartFlag; cbn [orb negb andb fst snd useCdp cdpStart cdpPort];
    try (split; [reflexivity |]; split; [intros _; split; reflexivity | discriminate]).
  destruct (isLikelyUsableBrowserCdp (probe 9225%Z)) eqn:H5;
    [| destruct (isLikelyUsableBrowserCdp (probe 9222%Z)) eqn:H2];
    cbn [fst snd useCdp cdpStart cdpPort];
    (split; [reflexivity |]); (split; [discriminate |]); intros _.
  - split; [| discriminate]. intros _. split; [now left |].
    destruct (probe 9225%Z) as [payload |] eqn:Hp; [| discriminate].
    exists payload. repeat split; try assumption. now apply usable_is_not_electron.
  - split; [| discriminate]. intros _. split; [now right |].
    destruct (probe 9222%Z) as [payload |] eqn:Hp; [| discriminate].
    exists payload. repeat split; try assumption. now apply usable_is_not_electron.
  - split; [discriminate |]. intros _. repeat split; assumption.
Qed.

(** An endpoint served by Electron is not usable, whatever the case. *)
Example electron_is_not_usable :
  isLikelyUsableBrowserCdp
    (Some (JObject [(js "User-Agent", JString (js "Mozilla/5.0 Chrome/120 ELECTRON/28.0"))]))
  = false.
Proof. vm_compute. reflexivity. Qed.

Lemma setAdd_In (pid q : Z) (pids : list Z) :
  In q (setAdd pid pids) <-> q = pid \/ In q pids.
Proof.
  unfold setAdd. destruct (existsb (Z.eqb pid) pids) eqn:H.
  - apply existsb_exists in H as [x [Hx Heq]]. apply Z.eqb_eq in Heq. subst x.
    split; [now right | intros [-> | H]; assumption].
  - rewrite in_app_iff. cbn [In]. intuition congruence.
Qed.

Lemma setDelete_In (pid q : Z) (pids : list Z) :
  In q (setDelete pid pids) <-> q <> pid /\ In q pids.
Proof.
  unfold setDelete. rewrite filter_In, negb_true_iff, Z.eqb_neq.
  intuition congruence.
Qed.

(** X25: [startBrowserForCdp] and the registry of spawned browsers.  When
    the binary or the port cannot be had, nothing is spawned and the registry
    is untouched.  When the debugging endpoint becomes ready, the result
    carries the port chosen by [chooseAvailablePort] and the pid of the
    process is in the registry.  When it does not, the process is killed, an
    error is thrown and the pid is not left in the registry.  The membership
    of every other pid is unchanged in all cases. *)
Theorem startBrowserForCdp_registry (w : LaunchWorld) (preferredPort : Z) (pids : list Z) :
  let '(result, registry, evs) := startBrowserForCdp w preferredPort (Some pids) in
  exists pids',
    registry = Some pids'
    /\ (forall q, livePid (spawnedPid w) <> Some q -> (In q pids' <-> In q pids))
    /\ match resolvedBin w, chooseAvailablePort (system w) preferredPort with
       | Ok bin, Ok port =>
           if waitForCdp (versionPolls w port) then
             result = Ok {| launched_pid := spawnedPid w; launched_port := port;
                            launched_bin := bin |}
             /\ evs = [SpawnBrowser bin port]
             /\ (forall pid, livePid (spawnedPid w) = Some pid -> In pid pids')
           else
             (exists err, result = Throw err)
             /\ (forall pid, livePid (spawnedPid w) = Some pid ->
                   ~ In pid pids' /\ In (KillGroup pid) evs)
       | _, _ => (exists err, result = Throw err) /\ evs = [] /\ pids' = pids
       end.
Proof.
  unfold startBrowserForCdp.
  destruct (resolvedBin w) as [bin | e].
  2:{ exists pids. repeat split; auto. now exists e. }
  destruct (chooseAvailablePort (system w) preferredPort) as [port | e].
  2:{ exists pids. repeat split; auto. now exists e. }
  destruct (livePid (spawnedPid w)) as [pid |] eqn:Hpid.
  - destruct (waitForCdp (versionPolls w port)).
    + exists (setAdd pid pids). split; [reflexivity |]. split.
      * intros q Hq. rewrite setAdd_In. split; [intros [-> | H] | now right]; congruence.
      * repeat split. intros pid' H. injection H as <-. apply setAdd_In. now left.
    + exists (setDelete pid (setAdd pid pids)). split; [reflexivity |]. split.
      * intros q Hq. rewrite setDelete_In, setAdd_In.
        split; [intros [Hne [-> | H]] | intros H; split; [| now right]]; congruence.
      * split; [eexists; reflexivity |]. intros pid' H. injection H as <-. split.
        -- rewrite setDelete_In. intros [Hne _]. congruence.
        -- right. unfold killBrowserProcess. rewrite Hpid.
           destruct (killGroup w pid); now left.
  - destruct (waitForCdp (versionPolls w port)).
    + exists pids. repeat split; auto; discriminate.
    + exists pids. split; [reflexivity |]. split; [tauto |].
      split; [eexists; reflexivity | discriminate].
Qed.

End CdpMoreFacts.

(** ** lib/browser-bin.js: properties *)

Module BrowserBinFacts.

Import BrowserBin.

Lemma searchDirs_spec (p : Platform) (name : jsstring) (dirs : list jsstring) :
  match searchDirs p name dirs with
  | Some found =>
      isExecutableFile p found = true
      /\ exists before dir after,
           dirs = before ++ dir :: after
           /\ (found = join p [dir; name]
               \/ (IS_WINDOWS p = true
                   /\ isExecutableFile p (join p [dir; name]) = false
                   /\ found = join p [dir; name ++ js ".exe"]))
           /\ forall d, In d before -> isExecutableFile p (join p [d; name]) = false
  | None => forall d, In d dirs -> isExecutableFile p (join p [d; name]) = false
  end.
Proof.
  induction dirs as [|dir rest IH]; cbn [searchDirs]; [intros d [] |].
  assert (Hskip : isExecutableFile p (join p [dir; name]) = false ->
    match searchDirs p name rest with
    | Some found =>
        isExecutableFile p found = true
        /\ exists before dir' after,
             dir :: rest = before ++ dir' :: after
             /\ (found = join p [dir'; name]
                 \/ (IS_WINDOWS p = true
                     /\ isExecutableFile p (join p [dir'; name]) = false
                     /\ found = join p [dir'; name ++ js ".exe"]))
             /\ forall d, In d before -> isExecutableFile p (join p [d; name]) = false
    | None => forall d, In d (dir :: rest) -> isExecutableFile p (join p [d; name]) = false
    end).
  { intros Hno. destruct (searchDirs p name rest) as [found |].
    - destruct IH as [Hexec (before & dir' & after & -> & Hfound & Hbefore)].
      split; [exact Hexec |]. exists (dir :: before), dir', after.
      split; [reflexivity |]. split; [exact Hfound |].
      intros d [<- | Hd]; [exact Hno | now apply Hbefore].
    - intros d [<- | Hd]; [exact Hno | now apply IH]. }
  destruct (isExecutableFile p (join p [dir; name])) eqn:Hplain.
  - split; [exact Hplain |]. exists [], dir, rest.
    split; [reflexivity |]. split; [now left | intros d []].
  - destruct (IS_WINDOWS p && negb (endsWith (toLowerCase name) (js ".exe"))) eqn:Hwin;
      [| now apply Hskip].
    destruct (isExecutableFile p (join p [dir; name ++ js ".exe"])) eqn:Hexe;
      [| now apply Hskip].
    split; [exact Hexe |]. exists [], dir, rest.
    split; [reflexivity |]. split; [| intros d []].
    right. apply andb_true_iff in Hwin as [Hwin _]. now repeat split.
Qed.

Lemma findExecutableOnPath_executable (p : Platform) (name : jsstring)
  (env : string -> option jsstring) (found : jsstring) :
  findExecutableOnPath p name env = Some found -> isExecutableFile p found = true.
Proof.
  unfold findExecutableOnPath.
  destruct (negb (truthy name)); [discriminate |].
  destruct (isPathLike p name).
  - destruct (isExecutableFile p name) eqn:H; [| discriminate].
    intros E. injection E as <-. exact H.
  - intros E. pose proof (searchDirs_spec p name (pathDirs p env)) as H.
    rewrite E in H. apply H.
Qed.

Lemma firstResolved_spec (skip : jsstring -> bool) (resolve : jsstring -> option jsstring)
  (candidates : list jsstring) :
  match firstResolved skip resolve candidates with
  | Some resolved =>
      truthy resolved = true
      /\ exists before cand after,
           candidates = before ++ cand :: after
           /\ skip cand = false
           /\ resolve cand = Some resolved
           /\ firstResolved skip resolve before = None
  | None =>
      forall cand resolved,
        In cand candidates -> skip cand = false -> resolve cand = Some resolved ->
        truthy resolved = false
  end.
Proof.
  induction candidates as [|cand rest IH]; cbn [firstResolved]; [intros c r [] |].
  assert (Hskip : (skip cand = true \/ resolve cand = None
                   \/ exists r, resolve cand = Some r /\ truthy r = false) ->
    match firstResolved skip resolve rest with
    | Some resolved =>
        truthy resolved = true
        /\ exists before cand' after,
             cand :: rest = before ++ cand' :: after
             /\ skip cand' = false
             /\ resolve cand' = Some resolved
             /\ firstResolved skip resolve before = None
    | None =>
        forall cand' resolved,
          In cand' (cand :: rest) -> skip cand' = false -> resolve cand' = Some resolved ->
          truthy resolved = false
    end).
  { intros Hno. destruct (firstResolved skip resolve rest) as [resolved |].
    - destruct IH as [Htruthy (before & cand' & after & -> & Hs & Hr & Hbefore)].
      split; [exact Htruthy |]. exists (cand :: before), cand', after.
      repeat split; try assumption. cbn [firstResolved].
      destruct Hno as [-> | [-> | (r & -> & ->)]];
        destruct (skip cand); exact Hbefore.
    - intros cand' resolved [<- | Hin] Hs Hr; [| now apply (IH cand')].
      destruct Hno as [Hno | [Hno | (r & Hno & Hfalsy)]]; congruence. }
  destruct (skip cand) eqn:Hs; [apply Hskip; now left |].
  destruct (resolve cand) as [resolved |] eqn:Hr; [| apply Hskip; right; now left].
  destruct (truthy resolved) eqn:Ht;
    [| apply Hskip; right; right; now exists resolved].
  split; [exact Ht |]. exists [], cand, rest. now repeat split.
Qed.

Lemma firstResolved_app (skip : jsstring -> bool) (resolve : jsstring -> option jsstring)
  (before after : list jsstring) :
  firstResolved skip resolve before = None ->
  firstResolved skip resolve (before ++ after) = firstResolved skip resolve after.
Proof.
  induction before as [|cand rest IH]; cbn [app firstResolved]; [reflexivity |].
  destruct (skip cand); [exact IH |].
  destruct (resolve cand) as [resolved |]; [| exact IH].
  destruct (truthy resolved); [discriminate | exact IH].
Qed.

(** X26: whatever [resolveBrowserBin] returns is a non-empty path that
    passed the executable check of [isExecutableFile] (the [X_OK] access
    check, or existence on Windows); it throws, with the message that names
    the operating system, only when no override and no default of the
    operating system resolves. *)
Theorem resolveBrowserBin_returns_executable (p : Platform)
  (preferredBin : option jsstring) (env : string -> option jsstring) :
  match resolveBrowserBin p preferredBin env with
  | Ok bin => truthy bin = true /\ isExecutableFile p bin = true
  | Throw e =>
      startsWith (messageOf e)
        (js "No supported browser binary found on " ++ osName p) = true
      /\ (forall cand resolved,
            In cand (overrides preferredBin env) ->
            findExecutableOnPath p cand env = Some resolved -> truthy resolved = false)
      /\ (forall cand resolved,
            In cand (osCandidates p) -> skipped p cand = false ->
            resolveOsCandidate p env cand = Some resolved -> truthy resolved = false)
  end.
Proof.
  unfold resolveBrowserBin.
  pose proof (firstResolved_spec (fun _ => false)
                (fun cand => findExecutableOnPath p cand env)
                (overrides preferredBin env)) as Hover.
  destruct (firstResolved (fun _ => false) (fun cand => findExecutableOnPath p cand env)
              (overrides preferredBin env)) as [bin |].
  - destruct Hover as [Htruthy (before & cand & after & _ & _ & Hfound & _)].
    split; [exact Htruthy |]. now apply (findExecutableOnPath_executable p cand env).
  - pose proof (firstResolved_spec (skipped p) (resolveOsCandidate p env)
                  (osCandidates p)) as Hos.
    destruct (firstResolved (skipped p) (resolveOsCandidate p env) (osCandidates p))
      as [bin |].
    + destruct Hos as [Htruthy (before & cand & after & _ & _ & Hfound & _)].
      split; [exact Htruthy |]. unfold resolveOsCandidate in Hfound.
      destruct (IS_WINDOWS p).
      * destruct (isExecutableFile p cand) eqn:H; [| discriminate].
        injection Hfound as <-. exact H.
      * now apply (findExecutableOnPath_executable p cand env).
    + split; [| split].
      * unfold notFound, newError, messageOf.
        apply JsStringFacts.startsWith_spec. eexists.
        rewrite <- !app_assoc. reflexivity.
      * intros cand resolved Hin. now apply Hover.
      * exact Hos.
Qed.

(** X27: the precedence of the overrides.  The overrides are the binary
    given on the command line, [WEB_BROWSE_BROWSER_BIN] and [BRAVE_BIN], in
    this order, those unset or empty left out.  The first of them that
    resolves is the result, and the defaults of the operating system are not
    consulted. *)
Theorem resolveBrowserBin_first_override_wins (p : Platform)
  (preferredBin : option jsstring) (env : string -> option jsstring)
  (before after : list jsstring) (cand resolved : jsstring)
  (Hsplit : overrides preferredBin env = before ++ cand :: after)
  (Hbefore : forall c, In c before -> findExecutableOnPath p c env = None)
  (Hcand : findExecutableOnPath p cand env = Some resolved)
  (Htruthy : truthy resolved = true) :
  resolveBrowserBin p preferredBin env = Ok resolved.
Proof.
  unfold resolveBrowserBin. rewrite Hsplit.
  rewrite firstResolved_app.
  - cbn [firstResolved]. now rewrite Hcand, Htruthy.
  - clear Hsplit. induction before as [|c rest IH]; cbn [firstResolved]; [reflexivity |].
    rewrite (Hbefore c (or_introl eq_refl)). apply IH.
    intros c' Hin. apply Hbefore. now right.
Qed.

Lemma resolveBrowserBin_first_override_wins_witness :
  resolveBrowserBin linuxBox (Some (js "chromium-nightly")) linuxEnv
  = Ok (js "/opt/brave/brave").
Proof.
  apply (resolveBrowserBin_first_override_wins linuxBox (Some (js "chromium-nightly"))
           linuxEnv [js "chromium-nightly"] [] (js "/opt/brave/brave")).
  - vm_compute. reflexivity.
  - intros c [<- | []]. vm_compute. reflexivity.
  - vm_compute. reflexivity.
  - vm_compute. reflexivity.
Defined.

Lemma split_nonempty (sep : ascii) (s : jsstring) : split sep s <> [].
Proof.
  destruct s as [|c rest]; cbn [split]; [discriminate |].
  destruct (split sep rest); [discriminate |].
  destruct (Ascii.eqb c sep); discriminate.
Qed.


Lemma split_join (sep : ascii) (s : jsstring) : joinWith [sep] (split sep s) = s.
Proof.
  induction s as [|c rest IH]; cbn [split]; [reflexivity |].
  destruct (split sep rest) as [|first pieces] eqn:Hrest.
  - now destruct (split_nonempty sep rest).
  - destruct (Ascii.eqb c sep) eqn:Hc.
    + apply Ascii.eqb_eq in Hc. subst c.
      change (joinWith [sep] ([] :: first :: pieces))
        with ([sep] ++ joinWith [sep] (first :: pieces)).
      now rewrite IH.
    + destruct pieces as [|second pieces].
      * cbn [joinWith] in *. now rewrite IH.
      * change (joinWith [sep] ((c :: first) :: second :: pieces))
          with (c :: joinWith [sep] (first :: second :: pieces)).
        now rewrite IH.
Qed.



Example findExecutableOnPath_second_directory :
  findExecutableOnPath linuxBox (js "chromium") linuxEnv = Some (js "/usr/bin/chromium")
  /\ pathDirs linuxBox linuxEnv = [js "/usr/local/bin"; js "/usr/bin"].
Proof. split; vm_compute; reflexivity. Qed.

(** The pieces of [PATH] put together again with the delimiter give [PATH]. *)
Lemma pathDirs_pieces (sep : ascii) (pathEnv : jsstring) :
  joinWith [sep] (split sep pathEnv) = pathEnv.
Proof. apply split_join. Qed.

End BrowserBinFacts.

(** ** The pid file: what the daemon writes, the client reads *)

From Stdlib Require DecimalPos.

Module PidFileFacts.

Import Decimal DaemonClient PidFile.

Ltac digit_value :=
  match goal with
  | |- context [digitValue ?c] =>
      let v := eval vm_compute in (digitValue c) in
      change (digitValue c) with v; cbv iota
  end.

Lemma js_String (c : ascii) (s : string) : js (String c s) = c :: js s.
Proof. reflexivity. Qed.

Lemma js_EmptyString : js EmptyString = [].
Proof. reflexivity. Qed.

Lemma digits_of_uint_acc (u : uint) (acc : positive) :
  digits (js (NilEmpty.string_of_uint u)) (Some (Z.pos acc))
  = Some (Z.pos (Pos.of_uint_acc u acc)).
Proof.
  revert acc. induction u; intros acc; cbn [NilEmpty.string_of_uint Pos.of_uint_acc];
    rewrite ?js_String, ?js_EmptyString; [reflexivity | ..];
    cbn [digits]; digit_value; rewrite <- IHu; do 2 f_equal; lia.
Qed.

Lemma digits_of_uint (u : uint) :
  digits (js (NilEmpty.string_of_uint u)) (Some 0%Z) = Some (Z.of_N (Pos.of_uint u)).
Proof.
  induction u; cbn [NilEmpty.string_of_uint Pos.of_uint];
    rewrite ?js_String, ?js_EmptyString; [reflexivity | ..];
    cbn [digits]; digit_value; [exact IHu | ..];
    cbn [Z.of_N]; rewrite <- digits_of_uint_acc; reflexivity.
Qed.

Lemma digits_start (c : ascii) (s : jsstring) :
  isDigit c = true -> digits (c :: s) None = digits (c :: s) (Some 0%Z).
Proof.
  unfold isDigit. cbn [digits]. destruct (digitValue c); [reflexivity | discriminate].
Qed.

Lemma uint_digits (u : uint) :
  forallb isDigit (js (NilEmpty.string_of_uint u)) = true.
Proof.
  induction u; cbn [NilEmpty.string_of_uint];
    rewrite ?js_String, ?js_EmptyString; cbn [forallb]; [reflexivity | ..];
    rewrite IHu; reflexivity.
Qed.

Lemma digit_is_plain (c : ascii) :
  isDigit c = true ->
  is_space c = false /\ ascii_eqb c "-"%char = false /\ ascii_eqb c "+"%char = false.
Proof.
  unfold isDigit, digitValue, is_space, ascii_eqb.
  destruct ((48 <=? nat_of_ascii c) && (nat_of_ascii c <=? 57)) eqn:H; [| discriminate].
  intros _. apply andb_true_iff in H as [H1 H2].
  apply Nat.leb_le in H1. apply Nat.leb_le in H2.
  assert (Hne : forall d : ascii, (nat_of_ascii d < 48 \/ 57 < nat_of_ascii d) ->
                                  Ascii.eqb c d = false).
  { intros d Hd. apply Ascii.eqb_neq. intros ->. lia. }
  split; [| split; apply Hne; vm_compute; lia].
  rewrite !orb_false_iff. repeat split.
  - apply andb_false_iff. right. apply Nat.leb_gt. lia.
  - apply Nat.eqb_neq. lia.
  - apply Nat.eqb_neq. lia.
Qed.

Lemma trim_plain (s : jsstring) :
  forallb (fun c => negb (is_space c)) s = true -> trim s = s.
Proof.
  intros H.
  assert (Hstart : forall t, forallb (fun c => negb (is_space c)) t = true ->
                             trimStart t = t).
  { intros [|c t] Ht; [reflexivity |]. cbn [forallb] in Ht.
    apply andb_true_iff in Ht as [Hc _]. cbn [trimStart].
    now destruct (is_space c). }
  unfold trim, trimEnd. rewrite (Hstart s H), Hstart; [apply rev_involutive |].
  apply forallb_forall. intros c Hc. apply in_rev in Hc.
  now apply (proj1 (forallb_forall _ s) H).
Qed.

Lemma plain_digits (s : jsstring) :
  forallb isDigit s = true -> forallb (fun c => negb (is_space c)) s = true.
Proof.
  intros H. apply forallb_forall. intros c Hc.
  pose proof (proj1 (forallb_forall _ s) H c Hc) as Hd.
  apply digit_is_plain in Hd as [-> _]. reflexivity.
Qed.

Lemma uint_string_nonempty (u : uint) :
  u <> Nil -> js (NilEmpty.string_of_uint u) <> [].
Proof.
  destruct u; intros Hu; [congruence | ..];
    cbn [NilEmpty.string_of_uint]; rewrite js_String; discriminate.
Qed.

Lemma parseInt_unsigned (u : uint) :
  u <> Nil ->
  parseInt (js (NilEmpty.string_of_uint u)) = Some (Z.of_N (Pos.of_uint u)).
Proof.
  intros Hu. pose proof (uint_digits u) as Hall. pose proof (digits_of_uint u) as Hval.
  destruct (js (NilEmpty.string_of_uint u)) as [|c rest] eqn:Hs.
  - now destruct (uint_string_nonempty u Hu).
  - cbn [forallb] in Hall. apply andb_true_iff in Hall as [Hc _].
    destruct (digit_is_plain c Hc) as (Hspace & Hminus & Hplus).
    unfold parseInt. cbn [trimStart]. rewrite Hspace, Hminus, Hplus.
    now rewrite digits_start.
Qed.

Lemma parseInt_numberToString (n : Z) : parseInt (trim (numberToString n)) = Some n.
Proof.
  unfold numberToString. destruct n as [| p | p]; cbn [Z.to_int NilZero.string_of_int].
  - vm_compute. reflexivity.
  - pose proof (DecimalPos.Unsigned.to_uint_nonnil p) as Hnil.
    assert (E : NilZero.string_of_uint (Pos.to_uint p)
                = NilEmpty.string_of_uint (Pos.to_uint p))
      by (destruct (Pos.to_uint p); [congruence | reflexivity ..]).
    rewrite E, trim_plain by (apply plain_digits, uint_digits).
    rewrite parseInt_unsigned by exact Hnil.
    now rewrite DecimalPos.Unsigned.of_to.
  - pose proof (DecimalPos.Unsigned.to_uint_nonnil p) as Hnil.
    assert (E : NilZero.string_of_uint (Pos.to_uint p)
                = NilEmpty.string_of_uint (Pos.to_uint p))
      by (destruct (Pos.to_uint p); [congruence | reflexivity ..]).
    rewrite E, js_String.
    rewrite trim_plain.
    + pose proof (uint_digits (Pos.to_uint p)) as Hall.
      pose proof (digits_of_uint (Pos.to_uint p)) as Hval.
      destruct (js (NilEmpty.string_of_uint (Pos.to_uint p))) as [|c rest] eqn:Hs.
      * now destruct (uint_string_nonempty (Pos.to_uint p) Hnil).
      * cbn [forallb] in Hall. apply andb_true_iff in Hall as [Hc _].
        unfold parseInt. cbn [trimStart].
        change (is_space "-"%char) with false.
        change (ascii_eqb "-"%char "-"%char) with true. cbv iota.
        rewrite digits_start, Hval by exact Hc.
        rewrite DecimalPos.Unsigned.of_to. reflexivity.
    + cbn [forallb]. change (is_space "-"%char) with false. cbn [negb andb].
      apply plain_digits, uint_digits.
Qed.

(** X29: the pid file round trip.  The daemon writes [String(process.pid)]
    into its pid file when it starts to listen (lib/daemon.js, line 146);
    [getDaemonPid] of the client, which trims the text and parses it with
    [parseInt(_, 10)], reads back exactly that pid. *)
Theorem getDaemonPid_reads_written_pid (w : ClientWorld) (pid : Z)
  (daemonPidFile : jsstring)
  (Hfile : truthy daemonPidFile = true) :
  getDaemonPid (afterListen w pid) daemonPidFile = Ok (Some pid).
Proof.
  unfold getDaemonPid. rewrite Hfile. cbn [negb afterListen pidFileExists pidFileText].
  unfold pidFileContents. now rewrite parseInt_numberToString.
Qed.

Lemma getDaemonPid_reads_written_pid_witness :
  getDaemonPid (afterListen stoppingWorld 48213) (js "/tmp/web-browse-daemon.pid")
  = Ok (Some 48213%Z).
Proof.
  apply (getDaemonPid_reads_written_pid stoppingWorld 48213 (js "/tmp/web-browse-daemon.pid")).
  reflexivity.
Defined.

End PidFileFacts.
